(** * ReconnectingWebSocket: a shallow embedding and its properties

    The development follows [src/ReconnectingWebSocket.js].  JavaScript
    values that reach the manager are modelled by [value]; numbers are
    IEEE-754 doubles (Rocq's primitive floats), strings are [string], and
    objects and functions are references compared by identity. *)

From Stdlib Require Import List Bool String Ascii Floats Lia PeanoNat.
Import ListNotations.

Local Open Scope string_scope.
Local Open Scope list_scope.

(** ** JavaScript values *)

Inductive value : Type :=
| VUndefined
| VNull
| VBool (b : bool)
| VNum (x : float)
| VStr (s : string)
| VRef (r : nat)          (* an object or function of the application *)
| VCloseHandler.          (* [this.handleWebSocketCloseEvent] *)

(** [a === b] *)
Definition strict_eq (a b : value) : bool :=
  match a, b with
  | VUndefined, VUndefined => true
  | VNull, VNull => true
  | VBool x, VBool y => Bool.eqb x y
  | VNum x, VNum y => PrimFloat.eqb x y
  | VStr x, VStr y => String.eqb x y
  | VRef x, VRef y => Nat.eqb x y
  | VCloseHandler, VCloseHandler => true
  | _, _ => false
  end.

(** [Number.isFinite(v)]: no coercion, only a number can be finite. *)
Definition Number_isFinite (v : value) : bool :=
  match v with
  | VNum x => PrimFloat.is_finite x
  | _ => false
  end.

(** ** Duration parsing (lines 1-27) *)

Definition convertDaysToMS (days : float) : float :=
  (days * 1000 * 60 * 60 * 24)%float.

Definition convertHoursToMS (hours : float) : float :=
  (hours * 1000 * 60 * 60)%float.

Definition dayInMS : float := convertDaysToMS 1.
Definition hourInMS : float := convertHoursToMS 1.

(** The [switch] compares with [===], so only a primitive string can hit a
    [case]. *)
Definition parseTimeToMS (time : value) : value :=
  if Number_isFinite time then time
  else if strict_eq time (VStr "d") || strict_eq time (VStr "D")
          || strict_eq time (VStr "day") then VNum dayInMS
  else if strict_eq time (VStr "h") || strict_eq time (VStr "H")
          || strict_eq time (VStr "hour") then VNum hourInMS
  else time.

(** ** The recorded subscriptions (lines 151-153)

    A recorded subscription is the argument array of one call of
    [addEventListener(...args)]: one to three values in practice, any
    number in general. *)

Definition subscription : Type := list value.

(** [args[index]]: reading past the end of an array gives [undefined]. *)
Definition arg_at (args : list value) (index : nat) : value :=
  nth index args VUndefined.

(** [eventListener.every((eventListenerArg, index) => args[index] === eventListenerArg)]:
    the iteration runs over the recorded entry, not over [args]. *)
Fixpoint every_from (index : nat) (eventListener : subscription)
         (args : list value) : bool :=
  match eventListener with
  | [] => true
  | eventListenerArg :: rest =>
      strict_eq (arg_at args index) eventListenerArg
      && every_from (S index) rest args
  end.

Definition every_matches (args : list value) (eventListener : subscription) : bool :=
  every_from 0 eventListener args.

(** [this.eventListeners.filter(eventListener => !eventListener.every(...))] *)
Definition filter_eventListeners (args : list value)
           (eventListeners : list subscription) : list subscription :=
  filter (fun eventListener => negb (every_matches args eventListener))
         eventListeners.

(** ** The host: coercions of the JavaScript runtime

    The manager compares its budget with [0] and hands listener arguments
    to the transport; both coerce values.  Coercions of primitives are
    written out, those that need the runtime (parsing a string as a number,
    calling into an object) are operations of the host. *)

Class Host : Type := {
  StringToNumber : string -> float;
  ObjectToNumber : nat -> float;
  ToString_other : value -> string;
  capture_of_object : nat -> bool
}.

Inductive ready_state : Type := CONNECTING | OPEN | CLOSING | CLOSED.

Definition ready_state_eqb (a b : ready_state) : bool :=
  match a, b with
  | CONNECTING, CONNECTING | OPEN, OPEN | CLOSING, CLOSING | CLOSED, CLOSED => true
  | _, _ => false
  end.

(** The calls a transport receives through the manager. *)
Inductive call : Type :=
| CallAdd (args : list value)
| CallRemove (args : list value)
| CallClose
| CallSend (args : list value).

(** A transport ([WebSocket]) as the manager sees it: its endpoint, its
    [readyState] and the calls it received, oldest first. *)
Record transport : Type := {
  t_url : value;
  readyState : ready_state;
  t_calls : list call
}.

(** An entry of a transport's event listener list. *)
Record listener : Type := {
  l_type : string;
  l_callback : value;
  l_capture : bool
}.

(** The value of [this.reconnectInterval]: never assigned, [null], or the
    handle [setInterval] returned. *)
Inductive handle : Type := HUndefined | HNull | HTimer (id : nat).

Definition truthy_handle (h : handle) : bool :=
  match h with
  | HTimer _ => true
  | _ => false
  end.

Inductive timer_kind : Type := Interval | Timeout.

(** An active timer of the event loop.  The callback of an [Interval] is the
    arrow function of lines 109-123, that of a [Timeout] the one of lines
    65-70: the source registers no other. *)
Record timer : Type := {
  tm_id : nat;
  tm_kind : timer_kind;
  tm_delay : value
}.

Definition timer_kind_eqb (a b : timer_kind) : bool :=
  match a, b with
  | Interval, Interval | Timeout, Timeout => true
  | _, _ => false
  end.

(** The fields of a [ReconnectingWebSocket] object. *)
Record rws : Type := {
  autoReconnectMS : value;
  stopReconnectingAfterMS : value;
  url : value;
  reconnectAttempts : float;
  eventListeners : list subscription;
  instance : nat;
  reconnectInterval : handle
}.

(** The manager together with what it acts on: every transport created so
    far (a transport is named by its position), the active timers, the next
    timer handle and the attempt numbers written to the console. *)
Record world : Type := {
  this : rws;
  sockets : list transport;
  timers : list timer;
  next_timer : nat;
  console : list float
}.

Inductive exn : Type := TypeError | InvalidStateError.

Inductive result (A : Type) : Type :=
| Ok (a : A)
| Throw (e : exn).

Arguments Ok {A} a.
Arguments Throw {A} e.

(** Computations of the manager: they read and write the world and may
    raise. *)
Definition M (A : Type) : Type := world -> result A * world.

Definition ret {A : Type} (a : A) : M A := fun w => (Ok a, w).

Definition bind {A B : Type} (c : M A) (k : A -> M B) : M B :=
  fun w =>
    match c w with
    | (Ok a, w') => k a w'
    | (Throw e, w') => (Throw e, w')
    end.

Definition gets {A : Type} (f : world -> A) : M A := fun w => (Ok (f w), w).

Definition modify (f : world -> world) : M unit := fun w => (Ok tt, f w).

Declare Scope js_scope.
Delimit Scope js_scope with js.
Notation "x <- c ;; k" := (bind c (fun x => k))
  (at level 61, c at next level, right associativity) : js_scope.
Notation "c ;; k" := (bind c (fun _ => k))
  (at level 61, right associativity) : js_scope.
Local Open Scope js_scope.

(** [array.forEach(f)], left to right; an exception ends the iteration. *)
Fixpoint forEach {A : Type} (l : list A) (f : A -> M unit) : M unit :=
  match l with
  | [] => ret tt
  | a :: rest => f a ;; forEach rest f
  end.

(** *** Field updates *)

Definition set_reconnectAttempts (x : float) (o : rws) : rws :=
  {| autoReconnectMS := autoReconnectMS o;
     stopReconnectingAfterMS := stopReconnectingAfterMS o;
     url := url o;
     reconnectAttempts := x;
     eventListeners := eventListeners o;
     instance := instance o;
     reconnectInterval := reconnectInterval o |}.

Definition set_eventListeners (l : list subscription) (o : rws) : rws :=
  {| autoReconnectMS := autoReconnectMS o;
     stopReconnectingAfterMS := stopReconnectingAfterMS o;
     url := url o;
     reconnectAttempts := reconnectAttempts o;
     eventListeners := l;
     instance := instance o;
     reconnectInterval := reconnectInterval o |}.

Definition set_instance (i : nat) (o : rws) : rws :=
  {| autoReconnectMS := autoReconnectMS o;
     stopReconnectingAfterMS := stopReconnectingAfterMS o;
     url := url o;
     reconnectAttempts := reconnectAttempts o;
     eventListeners := eventListeners o;
     instance := i;
     reconnectInterval := reconnectInterval o |}.

Definition set_reconnectInterval (h : handle) (o : rws) : rws :=
  {| autoReconnectMS := autoReconnectMS o;
     stopReconnectingAfterMS := stopReconnectingAfterMS o;
     url := url o;
     reconnectAttempts := reconnectAttempts o;
     eventListeners := eventListeners o;
     instance := instance o;
     reconnectInterval := h |}.

Definition with_this (f : rws -> rws) (w : world) : world :=
  {| this := f (this w);
     sockets := sockets w;
     timers := timers w;
     next_timer := next_timer w;
     console := console w |}.

Definition with_sockets (f : list transport -> list transport) (w : world) : world :=
  {| this := this w;
     sockets := f (sockets w);
     timers := timers w;
     next_timer := next_timer w;
     console := console w |}.

Definition with_timers (f : list timer -> list timer) (w : world) : world :=
  {| this := this w;
     sockets := sockets w;
     timers := f (timers w);
     next_timer := next_timer w;
     console := console w |}.

Definition bump_next_timer (w : world) : world :=
  {| this := this w;
     sockets := sockets w;
     timers := timers w;
     next_timer := S (next_timer w);
     console := console w |}.

Definition with_console (f : list float -> list float) (w : world) : world :=
  {| this := this w;
     sockets := sockets w;
     timers := timers w;
     next_timer := next_timer w;
     console := f (console w) |}.

(** [l[i] := f l[i]]; nothing happens out of range. *)
Fixpoint update_at {A : Type} (i : nat) (f : A -> A) (l : list A) {struct l}
  : list A :=
  match l, i with
  | [], _ => []
  | a :: rest, O => f a :: rest
  | a :: rest, S j => a :: update_at j f rest
  end.

Definition set_readyState (s : ready_state) (t : transport) : transport :=
  {| t_url := t_url t; readyState := s; t_calls := t_calls t |}.

Definition log_call (c : call) (t : transport) : transport :=
  {| t_url := t_url t; readyState := readyState t; t_calls := t_calls t ++ [c] |}.

(** The transport the manager would read where none exists; the manager
    always holds an existing one ([constructor_instance_valid] below). *)
Definition no_transport : transport :=
  {| t_url := VUndefined; readyState := CLOSED; t_calls := [] |}.

Definition socket_at (w : world) (i : nat) : transport :=
  nth i (sockets w) no_transport.

Definition is_close_handler (v : value) : bool :=
  match v with
  | VCloseHandler => true
  | _ => false
  end.

Definition is_object (v : value) : bool :=
  match v with
  | VRef _ | VCloseHandler => true
  | _ => false
  end.

Definition is_nullish (v : value) : bool :=
  match v with
  | VUndefined | VNull => true
  | _ => false
  end.

Section Manager.

Context {host : Host}.

(** *** Coercions *)

Definition ToNumber (v : value) : float :=
  match v with
  | VUndefined => PrimFloat.nan
  | VNull => 0%float
  | VBool b => if b then 1%float else 0%float
  | VNum x => x
  | VStr s => StringToNumber s
  | VRef r => ObjectToNumber r
  | VCloseHandler => PrimFloat.nan
  end.

(** [v > 0] *)
Definition greater_than_zero (v : value) : bool :=
  (0 <? ToNumber v)%float.

Definition ToBoolean (v : value) : bool :=
  match v with
  | VUndefined | VNull => false
  | VBool b => b
  | VNum x => negb (PrimFloat.is_zero x || PrimFloat.is_nan x)
  | VStr s => negb (String.eqb s "")
  | VRef _ | VCloseHandler => true
  end.

Definition ToString (v : value) : string :=
  match v with
  | VStr s => s
  | _ => ToString_other v
  end.

(** The capture flag of a listener's third argument. *)
Definition capture_of (options : value) : bool :=
  match options with
  | VRef r => capture_of_object r
  | VCloseHandler => false
  | _ => ToBoolean options
  end.

(** *** The transport's listener list

    [addEventListener(type, callback, options)] and its inverse take at
    least two arguments and a callback that is an object, [null] or
    [undefined]; anything else is a [TypeError].  A listener is identified
    by its type, callback and capture flag, and is listed once. *)

Definition accepts_listener_args (args : list value) : bool :=
  (2 <=? List.length args)%nat
  && (is_object (arg_at args 1) || is_nullish (arg_at args 1)).

Definition listener_of_args (args : list value) : option listener :=
  if (2 <=? List.length args)%nat && is_object (arg_at args 1)
  then Some {| l_type := ToString (arg_at args 0);
               l_callback := arg_at args 1;
               l_capture := capture_of (arg_at args 2) |}
  else None.

Definition listener_eqb (a b : listener) : bool :=
  String.eqb (l_type a) (l_type b)
  && strict_eq (l_callback a) (l_callback b)
  && Bool.eqb (l_capture a) (l_capture b).

Definition listeners_step (ls : list listener) (c : call) : list listener :=
  match c with
  | CallAdd args =>
      match listener_of_args args with
      | Some x => if existsb (listener_eqb x) ls then ls else ls ++ [x]
      | None => ls
      end
  | CallRemove args =>
      match listener_of_args args with
      | Some x => filter (fun y => negb (listener_eqb x y)) ls
      | None => ls
      end
  | CallClose | CallSend _ => ls
  end.

(** The listener list of a transport, from the calls it received. *)
Definition listeners_of (calls : list call) : list listener :=
  fold_left listeners_step calls [].

Definition listeners (t : transport) : list listener :=
  listeners_of (t_calls t).

(** Whether the transport raises on a call, and its state afterwards. *)
Definition call_raises (t : transport) (c : call) : option exn :=
  match c with
  | CallAdd args | CallRemove args =>
      if accepts_listener_args args then None else Some TypeError
  | CallClose => None
  | CallSend args =>
      match args with
      | [] => Some TypeError
      | _ => match readyState t with
             | CONNECTING => Some InvalidStateError
             | _ => None
             end
      end
  end.

Definition state_after_call (s : ready_state) (c : call) : ready_state :=
  match c, s with
  | CallClose, (CONNECTING | OPEN) => CLOSING
  | _, _ => s
  end.

Definition receive (c : call) (t : transport) : transport :=
  set_readyState (state_after_call (readyState t) c) (log_call c t).

(** [this.instance.method(...)] on transport [i]. *)
Definition ws_call (i : nat) (c : call) : M unit :=
  fun w =>
    let t := socket_at w i in
    let w' := with_sockets (update_at i (receive c)) w in
    match call_raises t c with
    | Some e => (Throw e, w')
    | None => (Ok tt, w')
    end.

(** [new WebSocket(url)]; the endpoint is one the transport accepts. *)
Definition new_WebSocket (u : value) : M nat :=
  fun w =>
    (Ok (List.length (sockets w)),
     with_sockets
       (fun l => l ++ [{| t_url := u; readyState := CONNECTING; t_calls := [] |}]) w).

(** [setInterval] and [setTimeout]: a fresh handle, the timer is active. *)
Definition set_timer (k : timer_kind) (delay : value) : M handle :=
  fun w =>
    let id := next_timer w in
    (Ok (HTimer id),
     bump_next_timer
       (with_timers
          (fun l => l ++ [{| tm_id := id; tm_kind := k; tm_delay := delay |}]) w)).

Definition setInterval (delay : value) : M handle := set_timer Interval delay.
Definition setTimeout (delay : value) : M handle := set_timer Timeout delay.

Definition drop_timer (id : nat) (l : list timer) : list timer :=
  filter (fun t => negb (Nat.eqb (tm_id t) id)) l.

(** A one-shot timer leaves the active timers when it fires. *)
Definition drop_fired (id : nat) (l : list timer) : list timer :=
  filter (fun t => negb (Nat.eqb (tm_id t) id && timer_kind_eqb (tm_kind t) Timeout)) l.

(** [clearInterval(h)]: nothing happens unless [h] is a handle. *)
Definition clearInterval (h : handle) : M unit :=
  match h with
  | HTimer id => modify (with_timers (drop_timer id))
  | _ => ret tt
  end.

Definition console_warn (attempt : float) : M unit :=
  modify (with_console (fun l => l ++ [attempt])).

(** ** The methods of the class (lines 39-164) *)

Definition close_args : list value := [VStr "close"; VCloseHandler].

(** lines 141-144 *)
Definition addEventListener (args : list value) : M unit :=
  modify (with_this (fun o => set_eventListeners (eventListeners o ++ [args]) o)) ;;
  i <- gets (fun w => instance (this w)) ;;
  ws_call i (CallAdd args).

(** lines 151-155 *)
Definition removeEventListener (args : list value) : M unit :=
  modify (with_this
            (fun o => set_eventListeners
                        (filter_eventListeners args (eventListeners o)) o)) ;;
  i <- gets (fun w => instance (this w)) ;;
  ws_call i (CallRemove args).

(** lines 157-159 *)
Definition close : M unit :=
  i <- gets (fun w => instance (this w)) ;;
  ws_call i CallClose.

(** lines 161-163 *)
Definition send (args : list value) : M unit :=
  i <- gets (fun w => instance (this w)) ;;
  ws_call i (CallSend args).

(** lines 53-55 *)
Definition addCloseEventListener : M unit :=
  addEventListener close_args.

(** lines 88-90 *)
Definition resetReconnectAttempts : M unit :=
  modify (with_this (set_reconnectAttempts 0%float)).

(** lines 129-132 *)
Definition stopReconnecting : M unit :=
  h <- gets (fun w => reconnectInterval (this w)) ;;
  clearInterval h ;;
  modify (with_this (set_reconnectInterval HNull)).

(** lines 77-83 *)
Definition initWebSocketInstance : M unit :=
  u <- gets (fun w => url (this w)) ;;
  i <- new_WebSocket u ;;
  modify (with_this (set_instance i)) ;;
  h <- gets (fun w => reconnectInterval (this w)) ;;
  if negb (truthy_handle h) then addCloseEventListener else ret tt.

(** lines 96-100 *)
Definition attachPreviousEventListeners : M unit :=
  l <- gets (fun w => eventListeners (this w)) ;;
  forEach l (fun eventListener =>
               i <- gets (fun w => instance (this w)) ;;
               ws_call i (CallAdd eventListener)).

(** The callback of [setInterval], lines 109-123. *)
Definition reconnect_tick : M unit :=
  n <- gets (fun w => (reconnectAttempts (this w) + 1)%float) ;;
  modify (with_this (set_reconnectAttempts n)) ;;
  console_warn n ;;
  state <- gets (fun w => readyState (socket_at w (instance (this w)))) ;;
  match state with
  | CLOSED | CLOSING =>
      removeEventListener close_args ;;
      initWebSocketInstance
  | OPEN =>
      stopReconnecting ;;
      resetReconnectAttempts ;;
      attachPreviousEventListeners ;;
      addCloseEventListener
  | CONNECTING => ret tt
  end.

(** lines 108-124 *)
Definition startReconnecting : M unit :=
  ms <- gets (fun w => autoReconnectMS (this w)) ;;
  h <- setInterval ms ;;
  modify (with_this (set_reconnectInterval h)).

(** The callback of [setTimeout], lines 65-70. *)
Definition budget_expired : M unit :=
  h <- gets (fun w => reconnectInterval (this w)) ;;
  if truthy_handle h
  then stopReconnecting ;; resetReconnectAttempts
  else ret tt.

(** lines 61-72 *)
Definition handleWebSocketCloseEvent : M unit :=
  startReconnecting ;;
  ms <- gets (fun w => stopReconnectingAfterMS (this w)) ;;
  if greater_than_zero ms
  then _ <- setTimeout ms ;; ret tt
  else ret tt.

(** *** The constructor (lines 40-48) *)

(** The second argument, an object with the two optional properties; a
    property that is absent reads as [undefined]. *)
Record config : Type := {
  cfg_autoReconnectMS : value;
  cfg_stopReconnectingAfter : value
}.

(** [{ autoReconnectMS = 3000, stopReconnectingAfter = hourInMS } = {}] *)
Definition or_default (v d : value) : value :=
  match v with
  | VUndefined => d
  | _ => v
  end.

Definition empty_config : config :=
  {| cfg_autoReconnectMS := VUndefined; cfg_stopReconnectingAfter := VUndefined |}.

Definition empty_world (u : value) (c : config) : world :=
  {| this :=
       {| autoReconnectMS := or_default (cfg_autoReconnectMS c) (VNum 3000%float);
          stopReconnectingAfterMS :=
            parseTimeToMS (or_default (cfg_stopReconnectingAfter c) (VNum hourInMS));
          url := u;
          reconnectAttempts := 0%float;
          eventListeners := [];
          instance := 0;
          reconnectInterval := HUndefined |};
     sockets := [];
     timers := [];
     next_timer := 1;
     console := [] |}.

(** [new ReconnectingWebSocket(url, config)]; [None] is an omitted (or
    [undefined]) second argument. *)
Definition constructor (u : value) (c : option config) : world :=
  let c := match c with Some c => c | None => empty_config end in
  snd (initWebSocketInstance (empty_world u c)).

(** ** The event loop

    Whatever happens to the manager is one of these events: the network
    moves a transport, a timer fires, or the application calls a method.
    When an active timer fires is the runtime's choice: the delays are
    recorded with the timers and do not order the events, so a property of
    every event sequence holds for every timing. *)

Inductive event : Type :=
| SocketOpened (s : nat)
| SocketClosing (s : nat)
| SocketClosed (s : nat)
| IntervalFired (id : nat)
| TimeoutFired (id : nat)
| AppAddEventListener (args : list value)
| AppRemoveEventListener (args : list value)
| AppClose
| AppSend (args : list value).

Definition has_timer (k : timer_kind) (id : nat) (w : world) : bool :=
  existsb (fun t => Nat.eqb (tm_id t) id && timer_kind_eqb (tm_kind t) k)
          (timers w).

(** The [close] event of a transport: every listener of type [close] is
    called, in order; the manager's own is [handleWebSocketCloseEvent]. *)
Definition dispatch_close (t : transport) : M unit :=
  forEach (listeners t)
          (fun l =>
             if String.eqb (l_type l) "close" && is_close_handler (l_callback l)
             then handleWebSocketCloseEvent
             else ret tt).

(** One event; [None] when it cannot happen in this world (a transport
    closes once, a cleared timer does not fire). *)
Definition run_event (ev : event) (w : world) : option (result unit * world) :=
  match ev with
  | SocketOpened s =>
      match nth_error (sockets w) s with
      | Some t =>
          match readyState t with
          | CONNECTING =>
              Some (Ok tt, with_sockets (update_at s (set_readyState OPEN)) w)
          | _ => None
          end
      | None => None
      end
  | SocketClosing s =>
      match nth_error (sockets w) s with
      | Some t =>
          match readyState t with
          | CONNECTING | OPEN =>
              Some (Ok tt, with_sockets (update_at s (set_readyState CLOSING)) w)
          | _ => None
          end
      | None => None
      end
  | SocketClosed s =>
      match nth_error (sockets w) s with
      | Some t =>
          match readyState t with
          | CLOSED => None
          | _ =>
              Some (dispatch_close t
                      (with_sockets (update_at s (set_readyState CLOSED)) w))
          end
      | None => None
      end
  | IntervalFired id =>
      if has_timer Interval id w then Some (reconnect_tick w) else None
  | TimeoutFired id =>
      if has_timer Timeout id w
      then Some (budget_expired (with_timers (drop_fired id) w))
      else None
  | AppAddEventListener args => Some (addEventListener args w)
  | AppRemoveEventListener args => Some (removeEventListener args w)
  | AppClose => Some (close w)
  | AppSend args => Some (send args w)
  end.

Definition step (ev : event) (w : world) : option world :=
  option_map snd (run_event ev w).

(** A sequence of events, oldest first. *)
Fixpoint run (evs : list event) (w : world) : option world :=
  match evs with
  | [] => Some w
  | ev :: rest =>
      match step ev w with
      | Some w' => run rest w'
      | None => None
      end
  end.

End Manager.

(** The transport after it received the calls [cs], none of which closes
    it. *)
Definition log_calls (cs : list call) (t : transport) : transport :=
  {| t_url := t_url t; readyState := readyState t; t_calls := t_calls t ++ cs |}.

Definition fresh_transport (u : value) : transport :=
  {| t_url := u; readyState := CONNECTING; t_calls := [] |}.

(** The listener [addCloseEventListener] attaches. *)
Definition observer : listener :=
  {| l_type := "close"; l_callback := VCloseHandler; l_capture := false |}.

(** No listener of the list calls the manager's close handler. *)
Definition observer_free (ls : list listener) : bool :=
  forallb (fun l => negb (is_close_handler (l_callback l))) ls.

(** The handler argument of a subscription, [args[1]]. *)
Definition callback_of (args : list value) : value := arg_at args 1.

(** The subscription does not register the manager's close handler. *)
Definition foreign (args : list value) : bool :=
  negb (is_close_handler (callback_of args)).

(** ** Notions the properties are stated with *)

Definition is_interval (t : timer) : bool := timer_kind_eqb (tm_kind t) Interval.
Definition is_timeout (t : timer) : bool := timer_kind_eqb (tm_kind t) Timeout.

(** A retry cycle is active: the periodic timer is running. *)
Definition cycle_active (w : world) : bool := existsb is_interval (timers w).

(** A budget timer is pending. *)
Definition budget_pending (w : world) : bool := existsb is_timeout (timers w).

(** The listeners of a list that call the manager's close handler. *)
Definition handlers (ls : list listener) : list listener :=
  filter (fun l => is_close_handler (l_callback l)) ls.

Definition is_closed (s : ready_state) : bool := ready_state_eqb s CLOSED.

(** The application's calls are assumed not to register or remove the
    manager's own close handler. *)
Definition app_ok (ev : event) : Prop :=
  match ev with
  | AppAddEventListener args | AppRemoveEventListener args => foreign args = true
  | _ => True
  end.

(** A call the manager makes on a transport for a subscription that is the
    application's or its own observer. *)
Definition admissible (c : call) : Prop :=
  match c with
  | CallAdd args | CallRemove args => foreign args = true \/ args = close_args
  | _ => True
  end.

(** A call that cannot attach the close handler. *)
Definition harmless (c : call) : Prop :=
  match c with
  | CallAdd args => foreign args = true
  | _ => True
  end.

Section Notions.

Context {host : Host}.

(** The transport can still deliver its [close] event to the manager's
    handler: the handler is listed and the transport has not closed. *)
Definition live_observer (t : transport) : bool :=
  negb (observer_free (listeners t)) && negb (is_closed (readyState t)).

(** What holds of every world the event loop reaches from the constructor
    (see [reachable_Inv]):
    - a transport that can still call the close handler is the current one,
      and then no retry cycle is active;
    - a running periodic timer is the one [reconnectInterval] holds;
    - the handler is listed at most once per transport, as [observer];
    - a recorded subscription that names the handler is [close_args]. *)
Record Inv (w : world) : Prop := {
  inv_live :
    forall i t, nth_error (sockets w) i = Some t -> live_observer t = true ->
                cycle_active w = false /\ i = instance (this w);
  inv_handle :
    forall t, In t (timers w) -> is_interval t = true ->
              reconnectInterval (this w) = HTimer (tm_id t);
  inv_handlers :
    forall t, In t (sockets w) ->
              handlers (listeners t) = [] \/ handlers (listeners t) = [observer];
  inv_recorded :
    forall e, In e (eventListeners (this w)) -> foreign e = true \/ e = close_args
}.

(** The manager has given up: no periodic timer runs and no transport can
    call the close handler any more. *)
Definition Quiet (w : world) : Prop :=
  cycle_active w = false
  /\ forall t, In t (sockets w) -> live_observer t = false.

(** The worlds reached from a constructor call by events of an application
    that leaves the manager's handler alone. *)
Definition reachable (w : world) : Prop :=
  exists (u : value) (c : option config) (evs : list event),
    Forall app_ok evs /\ run evs (constructor u c) = Some w.

(** While a retry cycle runs and the current transport does not list the
    observer, no recorded subscription names the close handler: the tick
    that replaced the transport removed the observer's entry. *)
Definition replay_clean (w : world) : Prop :=
  cycle_active w = true ->
  observer_free (listeners (socket_at w (instance (this w)))) = true ->
  forallb foreign (eventListeners (this w)) = true.

(** A call that neither attaches nor detaches the close handler. *)
Definition foreign_call (c : call) : Prop :=
  match c with
  | CallAdd args | CallRemove args => foreign args = true
  | _ => True
  end.

(** The invariant at a moment when no periodic timer runs. *)
Definition calm (w : world) : Prop := Inv w /\ cycle_active w = false.

(** What an event leaves alone besides the transports' states and logs. *)
Definition same_attempts (w w' : world) : Prop :=
  List.length (sockets w') = List.length (sockets w)
  /\ console w' = console w
  /\ instance (this w') = instance (this w).

(** The manager holds a transport that exists. *)
Definition instance_valid (w : world) : Prop :=
  instance (this w) < List.length (sockets w).

(** The budget is [v] and no budget timer is pending. *)
Definition budget_disabled (v : value) (w : world) : Prop :=
  stopReconnectingAfterMS (this w) = v /\ budget_pending w = false.

(** The retry interval is [v] and every periodic timer has it as its
    period. *)
Definition period_is (v : value) (w : world) : Prop :=
  autoReconnectMS (this w) = v
  /\ forall t, In t (timers w) -> is_interval t = true -> tm_delay t = v.

(** The world after [new WebSocket(url)] became the current transport. *)
Definition reopened (w : world) : world :=
  with_this (set_instance (List.length (sockets w)))
            (with_sockets (fun l => l ++ [fresh_transport (url (this w))]) w).

(** The world after a tick that found the current transport closed or
    closing, while [reconnectInterval] holds a handle. *)
Definition after_closed_tick (w : world) : world :=
  reopened
    (with_sockets
       (update_at (instance (this w)) (receive (CallRemove close_args)))
       (with_this
          (fun o => set_eventListeners
                      (filter_eventListeners close_args (eventListeners o)) o)
          (with_console
             (fun l => l ++ [(reconnectAttempts (this w) + 1)%float])
             (with_this
                (set_reconnectAttempts (reconnectAttempts (this w) + 1)%float) w)))).

(** A property that every elementary update of the manager keeps. *)
Record closed_under_manager (P : world -> Prop) : Prop := {
  cl_attempts : forall x w, P w -> P (with_this (set_reconnectAttempts x) w);
  cl_recorded :
    forall f w,
      P w -> P (with_this (fun o => set_eventListeners (f (eventListeners o)) o) w);
  cl_handle : forall h w, P w -> P (with_this (set_reconnectInterval h) w);
  cl_console : forall f w, P w -> P (with_console f w);
  cl_sockets : forall i f w, P w -> P (with_sockets (update_at i f) w);
  cl_timers : forall f w, P w -> P (with_timers (filter f) w);
  cl_reopened : forall w, P w -> P (reopened w);
  cl_close_event : forall w, P w -> P (snd (handleWebSocketCloseEvent w))
}.

(** [c] keeps [P], whether it returns or raises. *)
Definition preserves {A : Type} (P : world -> Prop) (c : M A) : Prop :=
  forall w, P w -> P (snd (c w)).

(** *** Notions for the rest of the class *)

(** A call the application makes through [close()] or [send(...)]. *)
Definition is_app_call (c : call) : bool :=
  match c with
  | CallClose | CallSend _ => true
  | _ => false
  end.

(** The [close] and [send] calls the transports received, by transport. *)
Definition app_calls (w : world) : list call :=
  flat_map (fun t => filter is_app_call (t_calls t)) (sockets w).

(** A subscription of the application with at least a kind and a handler. *)
Definition proper (e : subscription) : bool :=
  foreign e && (2 <=? List.length e)%nat.

(** The events that are no call of the application. *)
Definition internal (ev : event) : Prop :=
  match ev with
  | SocketOpened _ | SocketClosing _ | SocketClosed _
  | IntervalFired _ | TimeoutFired _ => True
  | _ => False
  end.

(** The event fires no timer among those [ok] excludes. *)
Definition fires_only (ok : nat -> Prop) (ev : event) : Prop :=
  match ev with
  | TimeoutFired id => ok id
  | _ => True
  end.

Definition is_nan_value (v : value) : bool :=
  match v with
  | VNum x => PrimFloat.is_nan x
  | _ => false
  end.

(** Timer handles are fresh, and the handle the manager holds is no budget
    timer's. *)
Definition handles_fresh (w : world) : Prop :=
  (forall t, In t (timers w) -> tm_id t < next_timer w)
  /\ forall id, reconnectInterval (this w) = HTimer id ->
                id < next_timer w
                /\ forall t, In t (timers w) -> is_timeout t = true -> tm_id t <> id.

(** Endpoint and configuration are those of the world [w0]. *)
Definition configured_as (w0 w : world) : Prop :=
  url (this w) = url (this w0)
  /\ autoReconnectMS (this w) = autoReconnectMS (this w0)
  /\ stopReconnectingAfterMS (this w) = stopReconnectingAfterMS (this w0)
  /\ forall t, In t (sockets w) -> t_url t = url (this w0).

(** The world after the current transport delivered its close event to the
    observer. *)
Definition after_close_event (w : world) : world :=
  snd (handleWebSocketCloseEvent
         (with_sockets (update_at (instance (this w)) (set_readyState CLOSED)) w)).

(** The event is no [close()] or [send(...)] of the application. *)
Definition no_app_call (ev : event) : Prop :=
  match ev with
  | AppClose | AppSend _ => False
  | _ => True
  end.

(** The event is no [addEventListener] or [removeEventListener] of the
    application. *)
Definition no_registration (ev : event) : Prop :=
  match ev with
  | AppAddEventListener _ | AppRemoveEventListener _ => False
  | _ => True
  end.

(** The event is no tick of a periodic timer. *)
Definition no_tick (ev : event) : Prop :=
  match ev with
  | IntervalFired _ => False
  | _ => True
  end.

(** What the event writes to the console: a tick warns with the number of
    the attempt, nothing else writes. *)
Definition logged (ev : event) (w : world) : list float :=
  match ev with
  | IntervalFired _ => [(reconnectAttempts (this w) + 1)%float]
  | _ => []
  end.

(** The counter is zero unless a retry cycle runs. *)
Definition counter_at_rest (w : world) : Prop :=
  cycle_active w = false -> reconnectAttempts (this w) = 0%float.

(** No argument of the call is NaN. *)
Definition nan_free (args : list value) : bool :=
  forallb (fun v => negb (is_nan_value v)) args.

(** The recorded subscriptions that name the manager's close handler. *)
Definition observers_recorded (w : world) : list subscription :=
  filter (fun e => negb (foreign e)) (eventListeners (this w)).

(** The world after a tick that found the current transport connecting. *)
Definition after_idle_tick (w : world) : world :=
  with_console
    (fun l => l ++ [(reconnectAttempts (this w) + 1)%float])
    (with_this (set_reconnectAttempts (reconnectAttempts (this w) + 1)%float) w).

(** The budget is [v], and every pending budget timer runs for [v], which
    is greater than zero. *)
Definition budget_is (v : value) (w : world) : Prop :=
  stopReconnectingAfterMS (this w) = v
  /\ forall t, In t (timers w) -> is_timeout t = true ->
               tm_delay t = v /\ greater_than_zero v = true.

End Notions.

(** A host for closed examples: strings that are no numerals, objects with
    no [valueOf] and no [capture] property. *)
Definition plain_host : Host :=
  {| StringToNumber := fun _ => PrimFloat.nan;
     ObjectToNumber := fun _ => PrimFloat.nan;
     ToString_other := fun _ => "[object Object]";
     capture_of_object := fun _ => false |}.

(** *** Example runs

    One manager for [wss://x/y] that retries every second for a minute,
    and the worlds it reaches. *)

Definition example_config : config :=
  {| cfg_autoReconnectMS := VNum 1000%float;
     cfg_stopReconnectingAfter := VNum 60000%float |}.

Definition example_start : world :=
  constructor (VStr "wss://x/y") (Some example_config).

Definition world_after (evs : list event) : world :=
  match @run plain_host evs example_start with
  | Some w => w
  | None => example_start
  end.

(** The application subscribed, the transport opened and then closed: the
    first retry cycle runs (periodic timer 1, budget timer 2). *)
Definition example_disconnect : list event :=
  [AppAddEventListener [VStr "message"; VRef 1]; SocketOpened 0; SocketClosed 0].

Definition disconnected_world : world :=
  Eval vm_compute in world_after example_disconnect.

(** The first tick replaced the transport, and the new one opened. *)
Definition example_reopen : list event :=
  example_disconnect ++ [IntervalFired 1; SocketOpened 1].


(** The transport is open, nothing else happened. *)
Definition connected_world : world :=
  Eval vm_compute in world_after [SocketOpened 0].

(** The budget timer of the first cycle fired before any tick. *)
Definition gave_up_world : world :=
  Eval vm_compute in world_after (example_disconnect ++ [TimeoutFired 2]).

(** A manager without a budget whose transport closed. *)
Definition no_budget_config : config :=
  {| cfg_autoReconnectMS := VUndefined;
     cfg_stopReconnectingAfter := VNum 0%float |}.

Definition no_budget_world : world :=
  Eval vm_compute in
    match @run plain_host [SocketOpened 0; SocketClosed 0]
               (constructor (VStr "wss://x/y") (Some no_budget_config)) with
    | Some w => w
    | None => example_start
    end.

(** A manager given the retry interval "h" whose transport closed. *)
Definition hourly_config : config :=
  {| cfg_autoReconnectMS := VStr "h";
     cfg_stopReconnectingAfter := VUndefined |}.

Definition hourly_world : world :=
  Eval vm_compute in
    match @run plain_host [SocketClosed 0]
               (constructor (VStr "wss://x/y") (Some hourly_config)) with
    | Some w => w
    | None => example_start
    end.

(** The first tick replaced the transport; the new one is still
    connecting. *)
Definition example_retry : list event := example_disconnect ++ [IntervalFired 1].

Definition retrying_world : world :=
  Eval vm_compute in world_after example_retry.

(** The second tick found the new transport open: the manager is connected
    again, and budget timer 2 of the first cycle is still pending. *)
Definition example_reconnect : list event := example_reopen ++ [IntervalFired 1].

Definition reconnected_world : world :=
  Eval vm_compute in world_after example_reconnect.

(** The application subscribed and the transport opened. *)
Definition example_subscribed : list event :=
  [AppAddEventListener [VStr "message"; VRef 1]; SocketOpened 0].

Definition subscribed_world : world :=
  Eval vm_compute in world_after example_subscribed.

(** The application subscribed without a handler (the call raised); the
    transport opened and closed, the first tick replaced it and the new
    transport opened. *)
Definition example_rejected : list event :=
  [AppAddEventListener [VStr "message"]; SocketOpened 0; SocketClosed 0;
   IntervalFired 1; SocketOpened 1].

Definition rejected_world : world :=
  Eval vm_compute in world_after example_rejected.

(** A manager given the budget "week" whose transport closed. *)
Definition weekly_config : config :=
  {| cfg_autoReconnectMS := VUndefined;
     cfg_stopReconnectingAfter := VStr "week" |}.

Definition weekly_world : world :=
  Eval vm_compute in
    match @run plain_host [SocketOpened 0; SocketClosed 0]
               (constructor (VStr "wss://x/y") (Some weekly_config)) with
    | Some w => w
    | None => example_start
    end.

(** A subscription whose third argument is NaN, and the world after the
    application made it. *)
Definition nan_subscription : subscription :=
  [VStr "message"; VRef 1; VNum PrimFloat.nan].

Definition nan_world : world :=
  Eval vm_compute in world_after [AppAddEventListener nan_subscription].

(** ** Reference behaviours, in the words of the specification *)

(** Two argument tuples with the same number of fields, each field [===]
    to its counterpart. *)
Fixpoint fields_eq (a b : list value) : bool :=
  match a, b with
  | [], [] => true
  | x :: a', y :: b' => strict_eq x y && fields_eq a' b'
  | _, _ => false
  end.

(** Two argument tuples equal field by field under [===], a field that is
    absent on either side reading as [undefined]: an omitted [options] is
    an [options] of [undefined]. *)
Definition tuples_equal (a b : list value) : bool :=
  forallb (fun i => strict_eq (arg_at a i) (arg_at b i))
          (seq 0 (Nat.max (List.length a) (List.length b))).

(** The recorded entry [e] differs from the arguments of the call in one of
    the fields the entry has. *)
Definition differs_in_own_field (args : list value) (e : subscription) : bool :=
  existsb (fun i => negb (strict_eq (arg_at args i) (arg_at e i)))
          (seq 0 (List.length e)).

(** "Remove the first structurally-equal tuple": the reading of the
    specification under which one call removes one entry. *)
Fixpoint spec_remove_first (args : list value) (l : list subscription)
  : list subscription :=
  match l with
  | [] => []
  | e :: rest =>
      if fields_eq args e then rest else e :: spec_remove_first args rest
  end.

Definition is_day_symbol (v : value) : bool :=
  match v with
  | VStr s => String.eqb s "d" || String.eqb s "D" || String.eqb s "day"
  | _ => false
  end.

Definition is_hour_symbol (v : value) : bool :=
  match v with
  | VStr s => String.eqb s "h" || String.eqb s "H" || String.eqb s "hour"
  | _ => false
  end.

(** * Properties *)

(** ** Duration parsing *)

Lemma strict_eq_VStr (v : value) (s : string) :
  strict_eq v (VStr s) = match v with VStr s' => String.eqb s' s | _ => false end.
Proof. destruct v; reflexivity. Qed.

Lemma parseTimeToMS_number (x : float) : parseTimeToMS (VNum x) = VNum x.
Proof.
  unfold parseTimeToMS. destruct (Number_isFinite (VNum x)); reflexivity.
Qed.

Lemma parseTimeToMS_other (v : value) :
  is_day_symbol v = false -> is_hour_symbol v = false -> parseTimeToMS v = v.
Proof.
  intros Hd Hh. unfold parseTimeToMS.
  destruct (Number_isFinite v); [reflexivity|].
  rewrite !strict_eq_VStr.
  destruct v; try reflexivity.
  simpl in Hd, Hh. rewrite Hd, Hh. reflexivity.
Qed.

(** C4: the duration parser maps "d", "D" and "day" to 86,400,000 ms, "h",
    "H" and "hour" to 3,600,000 ms, returns every number (finite or not)
    as it is, and returns every other value unchanged. *)
Theorem parseTimeToMS_spec :
  (parseTimeToMS (VStr "d") = VNum 86400000%float
   /\ parseTimeToMS (VStr "D") = VNum 86400000%float
   /\ parseTimeToMS (VStr "day") = VNum 86400000%float)
  /\ (parseTimeToMS (VStr "h") = VNum 3600000%float
      /\ parseTimeToMS (VStr "H") = VNum 3600000%float
      /\ parseTimeToMS (VStr "hour") = VNum 3600000%float)
  /\ (forall x : float,
         PrimFloat.is_finite x = true -> parseTimeToMS (VNum x) = VNum x)
  /\ (forall v : value,
         is_day_symbol v = false -> is_hour_symbol v = false ->
         parseTimeToMS v = v).
Proof.
  repeat split; try reflexivity.
  - intros x _. apply parseTimeToMS_number.
  - apply parseTimeToMS_other.
Qed.

Lemma parseTimeToMS_spec_witness :
  parseTimeToMS (VNum 25%float) = VNum 25%float
  /\ parseTimeToMS (VNum PrimFloat.infinity) = VNum PrimFloat.infinity
  /\ parseTimeToMS (VStr "week") = VStr "week".
Proof.
  destruct parseTimeToMS_spec as (_ & _ & Hfinite & Hother).
  split; [apply Hfinite; reflexivity|].
  split; apply Hother; reflexivity.
Defined.

(** ** The recorded subscriptions under [removeEventListener] *)

Lemma every_from_shift (e : subscription) (a : value) (args : list value) (i : nat) :
  every_from (S i) e (a :: args) = every_from i e args.
Proof.
  revert i. induction e as [|x e IH]; intros i; simpl; [reflexivity|].
  rewrite IH. reflexivity.
Qed.

Lemma every_matches_cons (x a : value) (e : subscription) (args : list value) :
  every_matches (a :: args) (x :: e) = strict_eq a x && every_matches args e.
Proof.
  unfold every_matches. simpl. rewrite every_from_shift. reflexivity.
Qed.

Lemma every_from_positions (pre e : subscription) (args : list value) :
  every_from (List.length pre) e args
  = forallb (fun i => strict_eq (arg_at args i) (arg_at (pre ++ e) i))
            (seq (List.length pre) (List.length e)).
Proof.
  revert pre. induction e as [|x e IH]; intros pre; [reflexivity|].
  cbn [every_from List.length seq forallb].
  unfold arg_at at 3. rewrite nth_middle. f_equal.
  specialize (IH (pre ++ [x])).
  rewrite length_app, Nat.add_1_r, <- app_assoc in IH. exact IH.
Qed.

Lemma every_matches_positions (args : list value) (e : subscription) :
  every_matches args e
  = forallb (fun i => strict_eq (arg_at args i) (arg_at e i))
            (seq 0 (List.length e)).
Proof. exact (every_from_positions [] e args). Qed.

Lemma existsb_negb {A : Type} (p : A -> bool) (l : list A) :
  existsb (fun a => negb (p a)) l = negb (forallb p l).
Proof.
  induction l as [|a l IH]; simpl; [reflexivity|].
  rewrite IH. destruct (p a); reflexivity.
Qed.

(** The entries the filter of line 152 keeps are those that differ from the
    arguments in one of their own fields. *)
Lemma kept_differs (args : list value) (e : subscription) :
  negb (every_matches args e) = differs_in_own_field args e.
Proof.
  unfold differs_in_own_field.
  rewrite every_matches_positions, existsb_negb. reflexivity.
Qed.

Lemma tuples_equal_matches (args : list value) (e : subscription) :
  tuples_equal args e = true -> every_matches args e = true.
Proof.
  unfold tuples_equal. rewrite every_matches_positions, !forallb_forall.
  intros H i Hi. apply H. apply in_seq. apply in_seq in Hi. lia.
Qed.

Lemma filter_idem {A : Type} (p : A -> bool) (l : list A) :
  filter p (filter p l) = filter p l.
Proof.
  induction l as [|a l IH]; simpl; [reflexivity|].
  destruct (p a) eqn:E; simpl; rewrite ?E, IH; reflexivity.
Qed.

Lemma filter_eventListeners_differs (args : list value) (l : list subscription) :
  filter_eventListeners args l = filter (differs_in_own_field args) l.
Proof.
  unfold filter_eventListeners. apply filter_ext. intros e. apply kept_differs.
Qed.

(** C3, as stated, fails: a subscription recorded twice is removed twice by
    one call, where removing the first equal tuple would leave the second. *)
Lemma removeEventListener_removes_duplicates :
  filter_eventListeners
    [VStr "message"; VRef 1]
    [[VStr "message"; VRef 1]; [VStr "open"; VRef 1]; [VStr "message"; VRef 1]]
  = [[VStr "open"; VRef 1]]
  /\ spec_remove_first
       [VStr "message"; VRef 1]
       [[VStr "message"; VRef 1]; [VStr "open"; VRef 1]; [VStr "message"; VRef 1]]
     = [[VStr "open"; VRef 1]; [VStr "message"; VRef 1]]
  /\ filter_eventListeners
       [VStr "message"; VRef 1]
       [[VStr "message"; VRef 1]; [VStr "open"; VRef 1]; [VStr "message"; VRef 1]]
     <> spec_remove_first
          [VStr "message"; VRef 1]
          [[VStr "message"; VRef 1]; [VStr "open"; VRef 1]; [VStr "message"; VRef 1]].
Proof. repeat split. discriminate. Qed.

(** ** Transports and worlds *)

Section Properties.

Context {host : Host}.

Lemma world_eq (w w' : world) :
  this w = this w' -> sockets w = sockets w' -> timers w = timers w' ->
  next_timer w = next_timer w' -> console w = console w' -> w = w'.
Proof. destruct w, w'; simpl; intros; subst; reflexivity. Qed.

Lemma update_at_ext {A : Type} (f g : A -> A) (i : nat) (l : list A) :
  (forall a, f a = g a) -> update_at i f l = update_at i g l.
Proof.
  intros H. revert i. induction l as [|a l IH]; intros [|i]; simpl;
    try reflexivity; [rewrite H|rewrite IH]; reflexivity.
Qed.

Lemma update_at_id {A : Type} (f : A -> A) (i : nat) (l : list A) :
  (forall a, f a = a) -> update_at i f l = l.
Proof.
  intros H. revert i. induction l as [|a l IH]; intros [|i]; simpl;
    try reflexivity; [rewrite H|rewrite IH]; reflexivity.
Qed.

Lemma update_at_compose {A : Type} (f g : A -> A) (i : nat) (l : list A) :
  update_at i f (update_at i g l) = update_at i (fun a => f (g a)) l.
Proof.
  revert i. induction l as [|a l IH]; intros [|i]; simpl;
    try reflexivity. rewrite IH. reflexivity.
Qed.

Lemma update_at_length {A : Type} (f : A -> A) (i : nat) (l : list A) :
  List.length (update_at i f l) = List.length l.
Proof.
  revert i. induction l as [|a l IH]; intros [|i]; simpl;
    try reflexivity. rewrite IH. reflexivity.
Qed.

Lemma nth_update_at {A : Type} (f : A -> A) (i j : nat) (l : list A) (d : A) :
  nth j (update_at i f l) d
  = if Nat.eqb i j && Nat.ltb j (List.length l) then f (nth j l d) else nth j l d.
Proof.
  revert i j. induction l as [|a l IH]; intros i j.
  - simpl. destruct j; rewrite Bool.andb_false_r; reflexivity.
  - destruct i as [|i], j as [|j]; simpl; try reflexivity.
    rewrite IH. reflexivity.
Qed.

Lemma nth_error_update_at {A : Type} (f : A -> A) (i j : nat) (l : list A) :
  nth_error (update_at i f l) j
  = if Nat.eqb i j then option_map f (nth_error l j) else nth_error l j.
Proof.
  revert i j. induction l as [|a l IH]; intros i j.
  - simpl. destruct j; destruct (Nat.eqb i _); reflexivity.
  - destruct i as [|i], j as [|j]; simpl; try reflexivity.
    apply IH.
Qed.

Lemma update_at_app_l {A : Type} (f : A -> A) (i : nat) (l l' : list A) :
  i < List.length l -> update_at i f (l ++ l') = update_at i f l ++ l'.
Proof.
  revert i. induction l as [|a l IH]; intros [|i] H; simpl in *;
    try lia; try reflexivity.
  rewrite IH by lia. reflexivity.
Qed.

Lemma log_calls_nil (t : transport) : log_calls [] t = t.
Proof. destruct t; unfold log_calls; simpl. rewrite app_nil_r. reflexivity. Qed.

Lemma log_calls_app (cs cs' : list call) (t : transport) :
  log_calls cs' (log_calls cs t) = log_calls (cs ++ cs') t.
Proof. unfold log_calls; simpl. rewrite app_assoc. reflexivity. Qed.

Lemma receive_add (args : list value) (t : transport) :
  receive (CallAdd args) t = log_calls [CallAdd args] t.
Proof. reflexivity. Qed.

Lemma receive_remove (args : list value) (t : transport) :
  receive (CallRemove args) t = log_calls [CallRemove args] t.
Proof. reflexivity. Qed.

Lemma listeners_log_calls (cs : list call) (t : transport) :
  listeners (log_calls cs t) = fold_left listeners_step cs (listeners t).
Proof. unfold listeners, listeners_of. simpl. apply fold_left_app. Qed.

Lemma socket_at_invalid (w : world) (i : nat) :
  List.length (sockets w) <= i -> socket_at w i = no_transport.
Proof. intros H. unfold socket_at. apply nth_overflow. exact H. Qed.

Lemma readyState_valid (w : world) (i : nat) :
  readyState (socket_at w i) <> CLOSED -> i < List.length (sockets w).
Proof.
  intros H. destruct (Nat.lt_ge_cases i (List.length (sockets w))) as [Hlt|Hge];
    [exact Hlt|].
  rewrite (socket_at_invalid _ _ Hge) in H. exfalso. apply H. reflexivity.
Qed.

(** Replaying accepted subscriptions raises nothing: the current transport
    receives one [addEventListener] call per entry, in order. *)
Lemma forEach_attach (l : list subscription) (w : world) :
  forallb accepts_listener_args l = true ->
  forEach l (fun eventListener =>
               i <- gets (fun w => instance (this w)) ;;
               ws_call i (CallAdd eventListener)) w
  = (Ok tt,
     with_sockets (update_at (instance (this w)) (log_calls (map CallAdd l))) w).
Proof.
  revert w. induction l as [|e l IH]; intros w H; simpl in *.
  - unfold ret. f_equal. apply world_eq; try reflexivity.
    simpl. symmetry. apply update_at_id. apply log_calls_nil.
  - apply andb_prop in H. destruct H as [He Hl].
    unfold bind at 1. unfold bind at 1. unfold gets at 1. unfold ws_call at 1.
    cbn [call_raises]. rewrite He.
    rewrite IH by exact Hl.
    f_equal. apply world_eq; try reflexivity.
    simpl. rewrite update_at_compose. apply update_at_ext.
    intros t. rewrite receive_add, log_calls_app. reflexivity.
Qed.


Arguments attachPreviousEventListeners : simpl never.

Ltac munfold :=
  cbv beta iota delta
    [bind gets modify ret console_warn removeEventListener
     initWebSocketInstance addCloseEventListener addEventListener ws_call
     new_WebSocket stopReconnecting clearInterval resetReconnectAttempts
     startReconnecting setInterval setTimeout set_timer
     handleWebSocketCloseEvent budget_expired close send].

Lemma attachPreviousEventListeners_accepted (w : world) :
  forallb accepts_listener_args (eventListeners (this w)) = true ->
  attachPreviousEventListeners w
  = (Ok tt,
     with_sockets
       (update_at (instance (this w))
                  (log_calls (map CallAdd (eventListeners (this w))))) w).
Proof.
  intros H. unfold attachPreviousEventListeners.
  unfold bind at 1. unfold gets at 1.
  apply forEach_attach. exact H.
Qed.

Lemma has_timer_drop_timer (k : timer_kind) (id : nat) (w : world) :
  has_timer k id (with_timers (drop_timer id) w) = false.
Proof.
  unfold has_timer. simpl. induction (timers w) as [|t l IH]; simpl;
    [reflexivity|].
  destruct (Nat.eqb (tm_id t) id) eqn:E; simpl; [exact IH|].
  rewrite E. simpl. exact IH.
Qed.

Lemma listener_of_close_args : listener_of_args close_args = Some observer.
Proof. reflexivity. Qed.

Lemma strict_eq_handler (v : value) :
  strict_eq VCloseHandler v = is_close_handler v.
Proof. destruct v; reflexivity. Qed.

Lemma observer_free_not_listed (ls : list listener) :
  observer_free ls = true -> existsb (listener_eqb observer) ls = false.
Proof.
  induction ls as [|l ls IH]; simpl; [reflexivity|].
  intros H. apply andb_prop in H. destruct H as [Hl Hls].
  rewrite (IH Hls). unfold listener_eqb, observer. cbn [l_callback].
  rewrite strict_eq_handler.
  destruct (is_close_handler (l_callback l)); [discriminate|].
  rewrite Bool.andb_false_r. reflexivity.
Qed.

Lemma observer_free_app (a b : list listener) :
  observer_free (a ++ b) = observer_free a && observer_free b.
Proof. apply forallb_app. Qed.

Lemma observer_free_filter (f : listener -> bool) (ls : list listener) :
  observer_free ls = true -> observer_free (filter f ls) = true.
Proof.
  induction ls as [|l ls IH]; simpl; [reflexivity|].
  intros H. apply andb_prop in H. destruct H as [Hl Hls].
  destruct (f l); simpl; [rewrite Hl|]; auto.
Qed.

Lemma listener_of_foreign (args : list value) (x : listener) :
  foreign args = true -> listener_of_args args = Some x ->
  is_close_handler (l_callback x) = false.
Proof.
  unfold foreign, callback_of, listener_of_args. intros Hf Hx.
  destruct ((2 <=? List.length args)%nat && is_object (arg_at args 1));
    [|discriminate].
  injection Hx as <-. simpl. apply Bool.negb_true_iff. exact Hf.
Qed.

(** A call that cannot attach the close handler keeps a list free of it. *)
Lemma listeners_step_harmless (ls : list listener) (c : call) :
  harmless c ->
  observer_free ls = true -> observer_free (listeners_step ls c) = true.
Proof.
  intros Hc Hls. destruct c as [args|args| |args]; simpl; try exact Hls.
  - destruct (listener_of_args args) as [x|] eqn:Hx; [|exact Hls].
    destruct (existsb (listener_eqb x) ls); [exact Hls|].
    rewrite observer_free_app, Hls. simpl.
    rewrite (listener_of_foreign _ _ Hc Hx). reflexivity.
  - destruct (listener_of_args args) as [x|]; [|exact Hls].
    apply observer_free_filter. exact Hls.
Qed.

Lemma replay_foreign (l : list subscription) (ls : list listener) :
  forallb foreign l = true -> observer_free ls = true ->
  observer_free (fold_left listeners_step (map CallAdd l) ls) = true.
Proof.
  revert ls. induction l as [|e l IH]; intros ls Hl Hls; simpl in *;
    [exact Hls|].
  apply andb_prop in Hl. destruct Hl as [He Hl].
  apply IH; [exact Hl|].
  apply (listeners_step_harmless ls (CallAdd e)); assumption.
Qed.

Lemma listeners_step_remove_observer (ls : list listener) :
  listeners_step ls (CallRemove close_args)
  = filter (fun y => negb (listener_eqb observer y)) ls.
Proof. reflexivity. Qed.

Lemma listeners_step_add_observer (ls : list listener) :
  listeners_step ls (CallAdd close_args)
  = if existsb (listener_eqb observer) ls then ls else ls ++ [observer].
Proof. reflexivity. Qed.

Lemma not_listed_after_removal (x : listener) (ls : list listener) :
  existsb (listener_eqb x) (filter (fun y => negb (listener_eqb x y)) ls) = false.
Proof.
  induction ls as [|l ls IH]; simpl; [reflexivity|].
  destruct (listener_eqb x l) eqn:E; simpl; [exact IH|].
  rewrite E. exact IH.
Qed.

(** ** The periodic timer's callback *)

(** What a tick does to a transport it finds open. *)
Lemma tick_open_world (w : world) (id : nat) :
  has_timer Interval id w = true ->
  reconnectInterval (this w) = HTimer id ->
  readyState (socket_at w (instance (this w))) = OPEN ->
  forallb accepts_listener_args (eventListeners (this w)) = true ->
  exists w' : world,
    run_event (IntervalFired id) w = Some (Ok tt, w')
    /\ (reconnectInterval (this w') = HNull
        /\ timers w' = drop_timer id (timers w)
        /\ has_timer Interval id w' = false)
    /\ reconnectAttempts (this w') = 0%float
    /\ instance (this w') = instance (this w)
    /\ sockets w'
       = update_at (instance (this w))
           (log_calls (map CallAdd (eventListeners (this w)) ++ [CallAdd close_args]))
           (sockets w)
    /\ t_calls (socket_at w' (instance (this w')))
       = t_calls (socket_at w (instance (this w)))
           ++ map CallAdd (eventListeners (this w)) ++ [CallAdd close_args]
    /\ eventListeners (this w') = eventListeners (this w) ++ [close_args]
    /\ (observer_free (listeners (socket_at w (instance (this w)))) = true ->
        forallb foreign (eventListeners (this w)) = true ->
        listeners (socket_at w' (instance (this w')))
        = fold_left listeners_step (map CallAdd (eventListeners (this w)))
            (listeners (socket_at w (instance (this w))))
          ++ [observer]).
Proof.
  intros Ht Hh Hs Hacc.
  assert (Hvalid : instance (this w) < List.length (sockets w)).
  { apply readyState_valid. rewrite Hs. discriminate. }
  unfold run_event. rewrite Ht. unfold reconnect_tick.
  munfold. unfold socket_at in Hs |- *. simpl. rewrite Hs. simpl.
  rewrite Hh. simpl.
  rewrite attachPreviousEventListeners_accepted by exact Hacc.
  simpl. eexists. split; [reflexivity|]. simpl.
  rewrite update_at_compose.
  assert (Hsock :
    update_at (instance (this w))
      (fun a => receive (CallAdd close_args)
                  (log_calls (map CallAdd (eventListeners (this w))) a))
      (sockets w)
    = update_at (instance (this w))
        (log_calls (map CallAdd (eventListeners (this w)) ++ [CallAdd close_args]))
        (sockets w)).
  { apply update_at_ext. intros t. rewrite receive_add. apply log_calls_app. }
  rewrite Hsock.
  assert (Hnew :
    nth (instance (this w))
        (update_at (instance (this w))
           (log_calls (map CallAdd (eventListeners (this w)) ++ [CallAdd close_args]))
           (sockets w)) no_transport
    = log_calls (map CallAdd (eventListeners (this w)) ++ [CallAdd close_args])
        (nth (instance (this w)) (sockets w) no_transport)).
  { rewrite nth_update_at, Nat.eqb_refl.
    apply Nat.ltb_lt in Hvalid. rewrite Hvalid. reflexivity. }
  repeat split.
  - exact (has_timer_drop_timer Interval id w).
  - rewrite Hnew. reflexivity.
  - intros Hfree Hforeign. rewrite Hnew, listeners_log_calls, fold_left_app.
    simpl.
    rewrite observer_free_not_listed; [reflexivity|].
    apply replay_foreign; assumption.
Qed.

(** What a tick does to a transport it finds closed or closing. *)
Lemma tick_closed_world (w : world) (id : nat) :
  has_timer Interval id w = true ->
  reconnectInterval (this w) = HTimer id ->
  (readyState (socket_at w (instance (this w))) = CLOSED
   \/ readyState (socket_at w (instance (this w))) = CLOSING) ->
  run_event (IntervalFired id) w = Some (Ok tt, after_closed_tick w).
Proof.
  intros Ht Hh Hs.
  unfold run_event. rewrite Ht. unfold reconnect_tick.
  munfold. unfold socket_at in Hs |- *. simpl.
  assert (Hrun :
    forall s, s = CLOSED \/ s = CLOSING ->
    forall (A : Type) (a b c : A),
      match s with CONNECTING => a | OPEN => b | _ => c end = c).
  { intros s [-> | ->]; reflexivity. }
  rewrite (Hrun _ Hs). simpl. rewrite Hh. simpl.
  unfold after_closed_tick, reopened. simpl. rewrite update_at_length.
  reflexivity.
Qed.

Lemma after_closed_tick_current (w : world) :
  instance (this (after_closed_tick w)) = List.length (sockets w)
  /\ socket_at (after_closed_tick w) (List.length (sockets w))
     = fresh_transport (url (this w))
  /\ timers (after_closed_tick w) = timers w
  /\ reconnectInterval (this (after_closed_tick w)) = reconnectInterval (this w).
Proof.
  unfold after_closed_tick, reopened, socket_at. simpl.
  rewrite update_at_length. repeat split.
  rewrite app_nth2; rewrite update_at_length; [|lia].
  rewrite Nat.sub_diag. reflexivity.
Qed.

(** C5: a tick that finds the current transport closed or closing detaches
    the disconnect observer from it, opens a new transport to the same
    endpoint, keeps the periodic timer running and attaches nothing to the
    new transport. *)
Theorem tick_on_closed_transport (w : world) (id : nat) :
  has_timer Interval id w = true ->
  reconnectInterval (this w) = HTimer id ->
  (readyState (socket_at w (instance (this w))) = CLOSED
   \/ readyState (socket_at w (instance (this w))) = CLOSING) ->
  exists w' : world,
    run_event (IntervalFired id) w = Some (Ok tt, w')
    /\ sockets w'
       = update_at (instance (this w)) (log_calls [CallRemove close_args]) (sockets w)
           ++ [fresh_transport (url (this w))]
    /\ existsb (listener_eqb observer)
               (listeners (socket_at w' (instance (this w)))) = false
    /\ instance (this w') = List.length (sockets w)
    /\ socket_at w' (instance (this w')) = fresh_transport (url (this w))
    /\ listeners (socket_at w' (instance (this w'))) = []
    /\ (timers w' = timers w
        /\ has_timer Interval id w' = true
        /\ reconnectInterval (this w') = HTimer id)
    /\ eventListeners (this w')
       = filter_eventListeners close_args (eventListeners (this w)).
Proof.
  intros Ht Hh Hs. exists (after_closed_tick w).
  destruct (after_closed_tick_current w) as (Hinst & Hnew & Htim & Hhandle).
  split; [apply tick_closed_world; assumption|].
  split; [unfold after_closed_tick, reopened; simpl; reflexivity|].
  split.
  { unfold after_closed_tick, reopened, socket_at. simpl.
    destruct (Nat.lt_ge_cases (instance (this w)) (List.length (sockets w)))
      as [Hlt|Hge].
    - rewrite app_nth1 by (rewrite update_at_length; exact Hlt).
      rewrite nth_update_at, Nat.eqb_refl.
      apply Nat.ltb_lt in Hlt. rewrite Hlt. simpl.
      rewrite receive_remove, listeners_log_calls. cbn [fold_left].
      rewrite listeners_step_remove_observer. apply not_listed_after_removal.
    - destruct (Nat.eq_dec (instance (this w)) (List.length (sockets w)))
        as [Heq|Hne].
      + rewrite app_nth2 by (rewrite update_at_length; lia).
        rewrite update_at_length.
        replace (instance (this w) - List.length (sockets w)) with 0 by lia.
        reflexivity.
      + rewrite nth_overflow; [reflexivity|].
        rewrite length_app, update_at_length. simpl. lia. }
  rewrite Hinst, Hnew, Htim, Hhandle.
  repeat split; try assumption.
Qed.


(** ** Computations that keep a property *)

Lemma preserves_ret {A : Type} (P : world -> Prop) (a : A) : preserves P (ret a).
Proof. intros w H. exact H. Qed.

Lemma preserves_gets {A : Type} (P : world -> Prop) (f : world -> A) :
  preserves P (gets f).
Proof. intros w H. exact H. Qed.

Lemma preserves_modify (P : world -> Prop) (f : world -> world) :
  (forall w, P w -> P (f w)) -> preserves P (modify f).
Proof. intros Hf w H. apply Hf. exact H. Qed.

Lemma preserves_bind {A B : Type} (P : world -> Prop) (c : M A) (k : A -> M B) :
  preserves P c -> (forall a, preserves P (k a)) -> preserves P (bind c k).
Proof.
  intros Hc Hk w H. unfold bind. specialize (Hc w H).
  destruct (c w) as [[a|e] w']; simpl in *; [apply Hk|]; exact Hc.
Qed.

Lemma preserves_forEach {A : Type} (P : world -> Prop) (l : list A) (f : A -> M unit) :
  (forall a, In a l -> preserves P (f a)) -> preserves P (forEach l f).
Proof.
  induction l as [|a l IH]; intros Hf; simpl.
  - apply preserves_ret.
  - apply preserves_bind.
    + apply Hf. left. reflexivity.
    + intros _. apply IH. intros b Hb. apply Hf. right. exact Hb.
Qed.

Lemma preserves_if {A : Type} (P : world -> Prop) (b : bool) (c d : M A) :
  preserves P c -> preserves P d -> preserves P (if b then c else d).
Proof. destruct b; auto. Qed.

Lemma preserves_ws_call (P : world -> Prop) (i : nat) (c : call) :
  (forall w, P w -> P (with_sockets (update_at i (receive c)) w)) ->
  preserves P (ws_call i c).
Proof.
  intros Hc w H. unfold ws_call. destruct (call_raises (socket_at w i) c);
    simpl; apply Hc; exact H.
Qed.

(** ** The close event *)

Lemma handleWebSocketCloseEvent_spec (w : world) :
  exists w' : world,
    handleWebSocketCloseEvent w = (Ok tt, w')
    /\ this w' = set_reconnectInterval (HTimer (next_timer w)) (this w)
    /\ sockets w' = sockets w
    /\ console w' = console w
    /\ timers w'
       = timers w
           ++ {| tm_id := next_timer w; tm_kind := Interval;
                 tm_delay := autoReconnectMS (this w) |}
           :: (if greater_than_zero (stopReconnectingAfterMS (this w))
               then [{| tm_id := S (next_timer w); tm_kind := Timeout;
                        tm_delay := stopReconnectingAfterMS (this w) |}]
               else []).
Proof.
  munfold. simpl.
  destruct (greater_than_zero (stopReconnectingAfterMS (this w))); simpl;
    eexists; (split; [reflexivity|]); simpl; repeat split.
  - rewrite <- app_assoc. reflexivity.
Qed.

Lemma forEach_handlers (ls : list listener) (w : world) :
  forEach ls
    (fun l =>
       if String.eqb (l_type l) "close" && is_close_handler (l_callback l)
       then handleWebSocketCloseEvent else ret tt) w
  = forEach (handlers ls)
      (fun l =>
         if String.eqb (l_type l) "close" && is_close_handler (l_callback l)
         then handleWebSocketCloseEvent else ret tt) w.
Proof.
  revert w. induction ls as [|l ls IH]; intros w; simpl; [reflexivity|].
  destruct (is_close_handler (l_callback l)) eqn:E; simpl.
  - rewrite E. unfold bind.
    destruct ((if String.eqb (l_type l) "close" && true
               then handleWebSocketCloseEvent else ret tt) w) as [[[]|e] w'];
      [apply IH|reflexivity].
  - rewrite Bool.andb_false_r. unfold bind, ret. apply IH.
Qed.

Lemma handlers_nil_free (ls : list listener) :
  handlers ls = [] <-> observer_free ls = true.
Proof.
  unfold handlers, observer_free. induction ls as [|l ls IH]; simpl.
  - tauto.
  - destruct (is_close_handler (l_callback l)); simpl; [|exact IH].
    split; discriminate.
Qed.

(** A transport that does not list the handler closes without effect on the
    manager. *)
Lemma dispatch_close_free (t : transport) (w : world) :
  observer_free (listeners t) = true -> dispatch_close t w = (Ok tt, w).
Proof.
  intros H. unfold dispatch_close. rewrite forEach_handlers.
  apply handlers_nil_free in H. rewrite H. reflexivity.
Qed.

(** A transport that lists the observer runs the close handler once. *)
Lemma dispatch_close_observer (t : transport) (w : world) :
  handlers (listeners t) = [observer] ->
  dispatch_close t w = handleWebSocketCloseEvent w.
Proof.
  intros H. unfold dispatch_close. rewrite forEach_handlers, H.
  destruct (handleWebSocketCloseEvent_spec w) as (w' & Hw' & _).
  simpl. unfold bind. rewrite Hw'. reflexivity.
Qed.


(** ** Listener lists under the manager's calls *)

Lemma filter_comm {A : Type} (f g : A -> bool) (l : list A) :
  filter f (filter g l) = filter g (filter f l).
Proof.
  induction l as [|a l IH]; simpl; [reflexivity|].
  destruct (f a) eqn:Ef, (g a) eqn:Eg; simpl; rewrite ?Ef, ?Eg, IH; reflexivity.
Qed.

Lemma strict_eq_to_handler (a b : value) :
  strict_eq a b = true -> is_close_handler b = is_close_handler a.
Proof. destruct a, b; simpl; intros H; try discriminate; reflexivity. Qed.

Lemma handlers_remove_foreign (x : listener) (ls : list listener) :
  is_close_handler (l_callback x) = false ->
  handlers (filter (fun y => negb (listener_eqb x y)) ls) = handlers ls.
Proof.
  intros Hx. unfold handlers. induction ls as [|y ls IH]; simpl; [reflexivity|].
  destruct (listener_eqb x y) eqn:E; simpl.
  - unfold listener_eqb in E.
    apply andb_prop in E. destruct E as [E _].
    apply andb_prop in E. destruct E as [_ E].
    rewrite (strict_eq_to_handler _ _ E), Hx. exact IH.
  - destruct (is_close_handler (l_callback y)); rewrite IH; reflexivity.
Qed.

Lemma handlers_listed (x : listener) (ls : list listener) :
  listener_eqb x x = true -> In x (handlers ls) ->
  existsb (listener_eqb x) ls = true.
Proof.
  intros Hx Hin. apply existsb_exists. exists x. split; [|exact Hx].
  unfold handlers in Hin. apply filter_In in Hin. tauto.
Qed.

(** Every call the manager makes keeps the close handler listed at most
    once, as [observer]. *)
Lemma handlers_step (ls : list listener) (c : call) :
  admissible c ->
  handlers ls = [] \/ handlers ls = [observer] ->
  handlers (listeners_step ls c) = [] \/ handlers (listeners_step ls c) = [observer].
Proof.
  intros Hc Hls. destruct c as [args|args| |args]; simpl in Hc; try exact Hls.
  - destruct Hc as [Hf| ->].
    + simpl. destruct (listener_of_args args) as [x|] eqn:Hx; [|exact Hls].
      destruct (existsb (listener_eqb x) ls); [exact Hls|].
      unfold handlers in *. rewrite filter_app. simpl.
      rewrite (listener_of_foreign _ _ Hf Hx), app_nil_r. exact Hls.
    + rewrite listeners_step_add_observer.
      destruct (existsb (listener_eqb observer) ls) eqn:E; [exact Hls|].
      destruct Hls as [Hls|Hls].
      * right. unfold handlers in *. rewrite filter_app, Hls. reflexivity.
      * exfalso. rewrite (handlers_listed observer ls) in E; [discriminate|reflexivity|].
        rewrite Hls. left. reflexivity.
  - destruct Hc as [Hf| ->].
    + simpl. destruct (listener_of_args args) as [x|] eqn:Hx; [|exact Hls].
      rewrite handlers_remove_foreign; [exact Hls|].
      exact (listener_of_foreign _ _ Hf Hx).
    + rewrite listeners_step_remove_observer. left.
      unfold handlers. rewrite filter_comm.
      fold (handlers ls). destruct Hls as [-> | ->]; reflexivity.
Qed.

Lemma handlers_steps (cs : list call) (ls : list listener) :
  Forall admissible cs ->
  handlers ls = [] \/ handlers ls = [observer] ->
  handlers (fold_left listeners_step cs ls) = []
  \/ handlers (fold_left listeners_step cs ls) = [observer].
Proof.
  intros Hcs. revert ls. induction Hcs as [|c cs Hc _ IH]; intros ls Hls; simpl;
    [exact Hls|].
  apply IH. apply handlers_step; assumption.
Qed.

Lemma is_closed_after_call (s : ready_state) (c : call) :
  is_closed (state_after_call s c) = is_closed s.
Proof. destruct c, s; reflexivity. Qed.

Lemma listeners_receive (c : call) (t : transport) :
  listeners (receive c t) = listeners_step (listeners t) c.
Proof. unfold listeners, listeners_of. simpl. apply fold_left_app. Qed.

(** A call that cannot attach the handler does not make a transport able
    to call it. *)
Lemma live_observer_receive (c : call) (t : transport) :
  harmless c -> live_observer (receive c t) = true -> live_observer t = true.
Proof.
  intros Hc. unfold live_observer. rewrite listeners_receive.
  cbn [readyState receive set_readyState]. rewrite is_closed_after_call.
  destruct (observer_free (listeners t)) eqn:E.
  - rewrite (listeners_step_harmless _ c Hc E). intros H. exact H.
  - intros H. apply andb_prop in H. destruct H as [_ H]. rewrite H. reflexivity.
Qed.

Lemma live_observer_set_readyState (s : ready_state) (t : transport) :
  is_closed (readyState t) = false ->
  live_observer (set_readyState s t) = true -> live_observer t = true.
Proof.
  unfold live_observer. intros Hs.
  change (listeners (set_readyState s t)) with (listeners t).
  rewrite Hs. intros H. apply andb_prop in H. destruct H as [H _].
  rewrite H. reflexivity.
Qed.

Lemma live_observer_closed (t : transport) :
  live_observer (set_readyState CLOSED t) = false.
Proof. unfold live_observer. simpl. apply Bool.andb_false_r. Qed.

Lemma live_observer_fresh (u : value) : live_observer (fresh_transport u) = false.
Proof. reflexivity. Qed.

Lemma In_update_at {A : Type} (f : A -> A) (i : nat) (l : list A) (b : A) :
  In b (update_at i f l) -> In b l \/ exists a, In a l /\ b = f a.
Proof.
  revert i. induction l as [|a l IH]; intros i H; simpl in *; [tauto|].
  destruct i as [|i]; simpl in H.
  - destruct H as [H|H]; [right; exists a; auto|left; auto].
  - destruct H as [H|H]; [left; auto|].
    destruct (IH _ H) as [H'|(a' & Ha' & ->)]; [left; auto|].
    right. exists a'. auto.
Qed.


(** ** The invariant of reachable worlds *)

Lemma Inv_frame (w w' : world) :
  Inv w ->
  sockets w' = sockets w -> timers w' = timers w ->
  instance (this w') = instance (this w) ->
  reconnectInterval (this w') = reconnectInterval (this w) ->
  (forall e, In e (eventListeners (this w')) -> foreign e = true \/ e = close_args) ->
  Inv w'.
Proof.
  intros [Hl Hh Hs Hr] Es Et Ei Eh Hr'. split.
  - intros i t. rewrite Es, Ei. unfold cycle_active. rewrite Et. apply Hl.
  - intros t. rewrite Et, Eh. apply Hh.
  - intros t. rewrite Es. apply Hs.
  - exact Hr'.
Qed.

Lemma In_nth_error_update_at {A : Type} (f : A -> A) (i : nat) (l : list A) (b : A) :
  In b (update_at i f l) ->
  In b l \/ exists a, nth_error l i = Some a /\ b = f a.
Proof.
  intros H. apply In_nth_error in H. destruct H as [j Hj].
  rewrite nth_error_update_at in Hj.
  destruct (Nat.eqb i j) eqn:E.
  - apply Nat.eqb_eq in E. subst j.
    destruct (nth_error l i) as [a|] eqn:Ha; [|discriminate].
    right. exists a. split; [reflexivity|]. simpl in Hj. congruence.
  - left. apply (nth_error_In _ _ Hj).
Qed.

(** One transport changes, in a way that neither makes it able to call the
    handler nor lists the handler twice. *)
Lemma Inv_update_socket (w : world) (i : nat) (f : transport -> transport) :
  Inv w ->
  (forall t, nth_error (sockets w) i = Some t ->
             live_observer (f t) = true -> live_observer t = true) ->
  (forall t, nth_error (sockets w) i = Some t ->
             handlers (listeners t) = [] \/ handlers (listeners t) = [observer] ->
             handlers (listeners (f t)) = []
             \/ handlers (listeners (f t)) = [observer]) ->
  Inv (with_sockets (update_at i f) w).
Proof.
  intros [Hl Hh Hs Hr] Hlive Hshape. split; simpl.
  - intros j t Hj Ht. rewrite nth_error_update_at in Hj.
    destruct (Nat.eqb i j) eqn:E.
    + apply Nat.eqb_eq in E. subst j.
      destruct (nth_error (sockets w) i) as [t0|] eqn:Ht0; [|discriminate].
      simpl in Hj. injection Hj as <-.
      apply (Hl i t0 Ht0). apply Hlive; [reflexivity|exact Ht].
    + apply (Hl j t Hj Ht).
  - exact Hh.
  - intros t Ht. apply In_nth_error_update_at in Ht.
    destruct Ht as [Ht|(t0 & Ht0 & ->)]; [apply Hs; exact Ht|].
    apply Hshape; [exact Ht0|]. apply Hs. apply (nth_error_In _ _ Ht0).
  - exact Hr.
Qed.

Lemma Inv_receive (w : world) (i : nat) (c : call) :
  Inv w -> harmless c -> admissible c ->
  Inv (with_sockets (update_at i (receive c)) w).
Proof.
  intros HI Hh Ha. apply Inv_update_socket; [exact HI| |].
  - intros t _. apply live_observer_receive. exact Hh.
  - intros t _ Hs. rewrite listeners_receive. apply handlers_step; assumption.
Qed.

Lemma snd_ws_call (i : nat) (c : call) (w : world) :
  snd (ws_call i c w) = with_sockets (update_at i (receive c)) w.
Proof. unfold ws_call. destruct (call_raises (socket_at w i) c); reflexivity. Qed.

Lemma has_timer_cycle_active (id : nat) (w : world) :
  has_timer Interval id w = true -> cycle_active w = true.
Proof.
  unfold has_timer, cycle_active. intros H.
  apply existsb_exists in H. destruct H as (t & Ht & H).
  apply andb_prop in H. destruct H as [_ H].
  apply existsb_exists. exists t. split; [exact Ht|exact H].
Qed.

Lemma has_timer_In (k : timer_kind) (id : nat) (w : world) :
  has_timer k id w = true ->
  exists t, In t (timers w) /\ tm_id t = id /\ timer_kind_eqb (tm_kind t) k = true.
Proof.
  unfold has_timer. intros H.
  apply existsb_exists in H. destruct H as (t & Ht & H).
  apply andb_prop in H. destruct H as [H1 H2].
  apply Nat.eqb_eq in H1. exists t. auto.
Qed.

Lemma Inv_no_live (w : world) (t : transport) :
  Inv w -> cycle_active w = true -> In t (sockets w) -> live_observer t = false.
Proof.
  intros HI Hc Ht. destruct (live_observer t) eqn:E; [|reflexivity].
  apply In_nth_error in Ht. destruct Ht as [i Hi].
  destruct HI as [Hl _ _ _]. destruct (Hl i t Hi E) as [H _]. congruence.
Qed.

Lemma no_interval_after_drop (id : nat) (l : list timer) :
  (forall t, In t l -> is_interval t = true -> tm_id t = id) ->
  existsb is_interval (drop_timer id l) = false.
Proof.
  intros H. induction l as [|t l IH]; simpl; [reflexivity|].
  assert (IH' : existsb is_interval (drop_timer id l) = false).
  { apply IH. intros t' Ht'. apply H. right. exact Ht'. }
  destruct (Nat.eqb (tm_id t) id) eqn:E; simpl; [exact IH'|].
  rewrite IH'. destruct (is_interval t) eqn:Ei; [|reflexivity].
  rewrite (H t) in E by (auto; left; reflexivity).
  rewrite Nat.eqb_refl in E. discriminate.
Qed.

Lemma existsb_filter_false {A : Type} (p f : A -> bool) (l : list A) :
  existsb p l = false -> existsb p (filter f l) = false.
Proof.
  induction l as [|a l IH]; simpl; [reflexivity|].
  intros H. apply Bool.orb_false_iff in H. destruct H as [Ha Hl].
  destruct (f a); simpl; [rewrite Ha|]; auto.
Qed.

Lemma Inv_handle_interval (id : nat) (w : world) :
  Inv w -> has_timer Interval id w = true ->
  reconnectInterval (this w) = HTimer id.
Proof.
  intros HI H. apply has_timer_In in H. destruct H as (t & Ht & <- & Hk).
  destruct HI as [_ Hh _ _]. apply (Hh t Ht Hk).
Qed.

Lemma Inv_intervals_held (id : nat) (w : world) :
  Inv w -> reconnectInterval (this w) = HTimer id ->
  forall t, In t (timers w) -> is_interval t = true -> tm_id t = id.
Proof.
  intros [_ Hi _ _] Hh t Ht Hk. pose proof (Hi t Ht Hk) as H.
  rewrite Hh in H. injection H as ->. reflexivity.
Qed.


Arguments addCloseEventListener : simpl never.
Arguments addEventListener : simpl never.

Ltac munfold_tick :=
  cbv beta iota delta
    [bind gets modify ret console_warn removeEventListener
     initWebSocketInstance ws_call new_WebSocket stopReconnecting
     clearInterval resetReconnectAttempts budget_expired].

Lemma Inv_timers_filter (f : timer -> bool) (w : world) :
  Inv w -> Inv (with_timers (filter f) w).
Proof.
  intros [Hl Hh Hs Hr]. split; simpl.
  - intros i t Hi Ht. destruct (Hl i t Hi Ht) as [Hc ->]. split; [|reflexivity].
    apply existsb_filter_false. exact Hc.
  - intros t Ht. apply filter_In in Ht. apply Hh. tauto.
  - exact Hs.
  - exact Hr.
Qed.

(** Once no periodic timer runs, whatever [reconnectInterval] holds. *)
Lemma Inv_cleared (h : handle) (w : world) :
  Inv w -> cycle_active w = false ->
  Inv (with_this (set_reconnectInterval h) w).
Proof.
  intros [Hl Hh Hs Hr] Hc. split; simpl; try assumption.
  intros t Ht Hk. exfalso.
  assert (cycle_active w = true); [|congruence].
  apply existsb_exists. exists t. auto.
Qed.

Lemma Inv_falsy_handle (w : world) :
  Inv w -> truthy_handle (reconnectInterval (this w)) = false ->
  cycle_active w = false.
Proof.
  intros [_ Hh _ _] Hf. destruct (cycle_active w) eqn:E; [|reflexivity].
  apply existsb_exists in E. destruct E as (t & Ht & Hk).
  rewrite (Hh t Ht Hk) in Hf. discriminate.
Qed.

(** [stopReconnecting] leaves no periodic timer behind. *)
Lemma Inv_stopReconnecting (w : world) :
  Inv w ->
  Inv (snd (stopReconnecting w)) /\ cycle_active (snd (stopReconnecting w)) = false.
Proof.
  intros HI. unfold stopReconnecting. munfold_tick.
  destruct (reconnectInterval (this w)) as [| |id] eqn:Eh; simpl.
  - assert (Hc : cycle_active w = false)
      by (apply Inv_falsy_handle; [exact HI|rewrite Eh; reflexivity]).
    split; [apply Inv_cleared; assumption|exact Hc].
  - assert (Hc : cycle_active w = false)
      by (apply Inv_falsy_handle; [exact HI|rewrite Eh; reflexivity]).
    split; [apply Inv_cleared; assumption|exact Hc].
  - assert (Hc : cycle_active (with_timers (drop_timer id) w) = false).
    { apply no_interval_after_drop. apply Inv_intervals_held; assumption. }
    split; [|exact Hc].
    apply Inv_cleared; [|exact Hc]. apply Inv_timers_filter. exact HI.
Qed.

(** While no periodic timer runs, the current transport may receive any
    call the manager makes, the observer's registration included. *)
Lemma Inv_receive_instance (w : world) (c : call) :
  Inv w -> cycle_active w = false -> admissible c ->
  Inv (with_sockets (update_at (instance (this w)) (receive c)) w).
Proof.
  intros [Hl Hh Hs Hr] Hc Ha. split; simpl.
  - intros j t Hj Ht. rewrite nth_error_update_at in Hj.
    destruct (Nat.eqb (instance (this w)) j) eqn:E.
    + apply Nat.eqb_eq in E. auto.
    + apply (Hl j t Hj Ht).
  - exact Hh.
  - intros t Ht. apply In_nth_error_update_at in Ht.
    destruct Ht as [Ht|(t0 & Ht0 & ->)]; [apply Hs; exact Ht|].
    rewrite listeners_receive. apply handlers_step; [exact Ha|].
    apply Hs. apply (nth_error_In _ _ Ht0).
  - exact Hr.
Qed.

Lemma calm_ws_call (c : call) :
  admissible c ->
  preserves calm (i <- gets (fun w => instance (this w)) ;; ws_call i c).
Proof.
  intros Ha w [HI Hc]. unfold bind at 1. unfold gets at 1.
  rewrite snd_ws_call. split; [|exact Hc].
  apply Inv_receive_instance; assumption.
Qed.

Lemma calm_attachPreviousEventListeners :
  preserves calm attachPreviousEventListeners.
Proof.
  intros w [HI Hc]. unfold attachPreviousEventListeners.
  unfold bind at 1. unfold gets at 1.
  apply preserves_forEach; [|split; assumption].
  intros e He. apply (calm_ws_call (CallAdd e)).
  destruct HI as [_ _ _ Hr]. apply Hr. exact He.
Qed.

Lemma snd_addEventListener (args : list value) (w : world) :
  snd (addEventListener args w)
  = with_sockets (update_at (instance (this w)) (receive (CallAdd args)))
      (with_this (fun o => set_eventListeners (eventListeners o ++ [args]) o) w).
Proof.
  unfold addEventListener. unfold bind at 1. unfold modify at 1.
  unfold bind at 1. unfold gets at 1. apply snd_ws_call.
Qed.

Lemma Inv_record (args : list value) (w : world) :
  Inv w -> foreign args = true \/ args = close_args ->
  Inv (with_this (fun o => set_eventListeners (eventListeners o ++ [args]) o) w).
Proof.
  intros HI Ha. apply Inv_frame with (1 := HI); try reflexivity.
  simpl. intros e He. apply in_app_or in He.
  destruct He as [He|[<-|[]]]; [|exact Ha].
  destruct HI as [_ _ _ Hr]. apply Hr. exact He.
Qed.

Lemma calm_addEventListener (args : list value) :
  foreign args = true \/ args = close_args ->
  preserves calm (addEventListener args).
Proof.
  intros Ha w [HI Hc]. rewrite snd_addEventListener. split; [|exact Hc].
  apply (Inv_receive_instance
           (with_this (fun o => set_eventListeners (eventListeners o ++ [args]) o) w)
           (CallAdd args));
    [apply Inv_record; assumption|exact Hc|exact Ha].
Qed.

(** A new transport becomes the current one while a retry cycle runs. *)
Lemma Inv_new_socket (u : value) (w : world) :
  Inv w -> cycle_active w = true ->
  Inv (with_this (set_instance (List.length (sockets w)))
         (with_sockets (fun l => l ++ [fresh_transport u]) w)).
Proof.
  intros HI Hc. pose proof (fun t => Inv_no_live w t HI Hc) as Hno.
  destruct HI as [Hl Hh Hs Hr]. split; simpl.
  - intros j t Hj Ht. exfalso.
    apply nth_error_In in Hj. apply in_app_or in Hj.
    destruct Hj as [Hj|[<-|[]]].
    + rewrite (Hno t Hj) in Ht. discriminate.
    + discriminate.
  - exact Hh.
  - intros t Ht. apply in_app_or in Ht.
    destruct Ht as [Ht|[<-|[]]]; [apply Hs; exact Ht|left; reflexivity].
  - exact Hr.
Qed.

(** The periodic timer's callback keeps the invariant. *)
Lemma Inv_reconnect_tick (id : nat) (w : world) :
  Inv w -> has_timer Interval id w = true -> Inv (snd (reconnect_tick w)).
Proof.
  intros HI Ht.
  pose proof (has_timer_cycle_active _ _ Ht) as Hc.
  pose proof (Inv_handle_interval id w HI Ht) as Hh.
  assert (HI0 : Inv (with_console
                       (fun l => l ++ [(reconnectAttempts (this w) + 1)%float])
                       (with_this
                          (set_reconnectAttempts (reconnectAttempts (this w) + 1)) w))).
  { apply Inv_frame with (1 := HI); try reflexivity.
    destruct HI as [_ _ _ Hr]. exact Hr. }
  destruct (Inv_stopReconnecting _ HI0) as [HI1 Hc1].
  unfold stopReconnecting in HI1, Hc1.
  cbv beta iota delta [bind gets modify ret clearInterval] in HI1, Hc1.
  simpl in HI1, Hc1. rewrite Hh in HI1, Hc1. simpl in HI1, Hc1.
  unfold reconnect_tick. munfold_tick. unfold socket_at. simpl.
  destruct (readyState (nth (instance (this w)) (sockets w) no_transport));
    simpl; try rewrite Hh; simpl.
  - exact HI0.
  - (* OPEN *)
    match goal with
    | |- context [attachPreviousEventListeners ?W] => assert (H2 : calm W)
    end.
    { split; [|exact Hc1]. apply Inv_frame with (1 := HI1); try reflexivity.
      destruct HI1 as [_ _ _ Hr]. exact Hr. }
    pose proof (calm_attachPreviousEventListeners _ H2) as H3.
    match goal with
    | |- context [attachPreviousEventListeners ?W] =>
        destruct (attachPreviousEventListeners W) as [[[]|e] w3]
    end; simpl in H3 |- *.
    + apply (calm_addEventListener close_args); [right; reflexivity|exact H3].
    + apply H3.
  - (* CLOSING *)
    match goal with
    | |- Inv (with_this _ (with_sockets _ ?W)) =>
        apply (Inv_new_socket (url (this w)) W)
    end.
    + apply Inv_receive; [|exact I|right; reflexivity].
      apply Inv_frame with (1 := HI0); try reflexivity.
      simpl. intros e He. apply filter_In in He.
      destruct HI as [_ _ _ Hr]. apply Hr. tauto.
    + exact Hc.
  - (* CLOSED *)
    match goal with
    | |- Inv (with_this _ (with_sockets _ ?W)) =>
        apply (Inv_new_socket (url (this w)) W)
    end.
    + apply Inv_receive; [|exact I|right; reflexivity].
      apply Inv_frame with (1 := HI0); try reflexivity.
      simpl. intros e He. apply filter_In in He.
      destruct HI as [_ _ _ Hr]. apply Hr. tauto.
    + exact Hc.
Qed.


(** The budget timer's callback keeps the invariant, and ends the cycle it
    finds. *)
Lemma Inv_budget_expired (w : world) :
  Inv w ->
  Inv (snd (budget_expired w))
  /\ (truthy_handle (reconnectInterval (this w)) = true ->
      cycle_active (snd (budget_expired w)) = false
      /\ reconnectInterval (this (snd (budget_expired w))) = HNull
      /\ reconnectAttempts (this (snd (budget_expired w))) = 0%float)
  /\ sockets (snd (budget_expired w)) = sockets w
  /\ console (snd (budget_expired w)) = console w
  /\ instance (this (snd (budget_expired w))) = instance (this w)
  /\ (cycle_active w = false -> cycle_active (snd (budget_expired w)) = false).
Proof.
  intros HI. destruct (Inv_stopReconnecting _ HI) as [HI1 Hc1].
  revert HI1 Hc1. unfold budget_expired, stopReconnecting. munfold_tick.
  destruct (reconnectInterval (this w)) as [| |id] eqn:Eh; simpl;
    rewrite ?Eh; simpl; intros HI1 Hc1.
  - split; [exact HI|]. split; [discriminate|]. repeat split; auto.
  - split; [exact HI|]. split; [discriminate|]. repeat split; auto.
  - split.
    { apply Inv_frame with (1 := HI1); try reflexivity.
      destruct HI1 as [_ _ _ Hr]. exact Hr. }
    split; [intros _; repeat split; exact Hc1|].
    repeat split. intros _. exact Hc1.
Qed.

(** The close handler may start a cycle when none runs and no transport
    can call it again. *)
Lemma Inv_handleWebSocketCloseEvent (w : world) :
  Inv w -> cycle_active w = false ->
  (forall t, In t (sockets w) -> live_observer t = false) ->
  Inv (snd (handleWebSocketCloseEvent w)).
Proof.
  intros [Hl Hh Hs Hr] Hc Hno.
  destruct (handleWebSocketCloseEvent_spec w) as (w' & E & Hthis & Hsock & _ & Htim).
  rewrite E. simpl. split.
  - intros j t Hj Ht. exfalso. rewrite Hsock in Hj.
    rewrite (Hno t (nth_error_In _ _ Hj)) in Ht. discriminate.
  - intros t Ht Hk. rewrite Hthis. simpl. rewrite Htim in Ht.
    apply in_app_or in Ht. destruct Ht as [Ht|[<-|Ht]].
    + exfalso. assert (cycle_active w = true); [|congruence].
      apply existsb_exists. exists t. auto.
    + reflexivity.
    + exfalso.
      destruct (greater_than_zero (stopReconnectingAfterMS (this w)));
        [destruct Ht as [<-|[]]; discriminate|destruct Ht].
  - rewrite Hsock. exact Hs.
  - rewrite Hthis. exact Hr.
Qed.

Lemma Inv_socket_closed (s : nat) (t : transport) (w : world) :
  Inv w -> nth_error (sockets w) s = Some t ->
  is_closed (readyState t) = false ->
  Inv (snd (dispatch_close t (with_sockets (update_at s (set_readyState CLOSED)) w))).
Proof.
  intros HI Hs Hopen.
  assert (HI1 : Inv (with_sockets (update_at s (set_readyState CLOSED)) w)).
  { apply Inv_update_socket; [exact HI| |].
    - intros t0 _ H. rewrite live_observer_closed in H. discriminate.
    - intros t0 _ H. exact H. }
  destruct (observer_free (listeners t)) eqn:Efree.
  - rewrite dispatch_close_free by exact Efree. exact HI1.
  - assert (Hlive : live_observer t = true).
    { unfold live_observer. rewrite Efree, Hopen. reflexivity. }
    assert (Hobs : handlers (listeners t) = [observer]).
    { destruct HI as [_ _ Hsh _].
      destruct (Hsh t (nth_error_In _ _ Hs)) as [H|H]; [|exact H].
      apply handlers_nil_free in H. congruence. }
    rewrite dispatch_close_observer by exact Hobs.
    destruct HI as [Hl _ _ _]. destruct (Hl s t Hs Hlive) as [Hc Hinst].
    apply Inv_handleWebSocketCloseEvent; [exact HI1|exact Hc|].
    simpl. intros t' Ht'. apply In_nth_error in Ht'. destruct Ht' as [j Hj].
    rewrite nth_error_update_at in Hj.
    destruct (Nat.eqb s j) eqn:E.
    + rewrite (proj1 (Nat.eqb_eq _ _) E) in Hs. rewrite Hs in Hj.
      simpl in Hj. injection Hj as <-. apply live_observer_closed.
    + destruct (live_observer t') eqn:Et'; [|reflexivity].
      destruct (Hl j t' Hj Et') as [_ Hj'].
      rewrite Hj', <- Hinst, Nat.eqb_refl in E. discriminate.
Qed.

Lemma Inv_moved (s : nat) (st : ready_state) (t : transport) (w : world) :
  Inv w -> nth_error (sockets w) s = Some t ->
  is_closed (readyState t) = false ->
  Inv (with_sockets (update_at s (set_readyState st)) w).
Proof.
  intros HI Hs Hopen. apply Inv_update_socket; [exact HI| |].
  - intros t0 Ht0. rewrite Hs in Ht0. injection Ht0 as <-.
    apply live_observer_set_readyState. exact Hopen.
  - intros t0 _ H. exact H.
Qed.

Lemma Inv_filter_recorded (f : subscription -> bool) (w : world) :
  Inv w ->
  Inv (with_this (fun o => set_eventListeners (filter f (eventListeners o)) o) w).
Proof.
  intros HI. apply Inv_frame with (1 := HI); try reflexivity.
  simpl. intros e He. apply filter_In in He.
  destruct HI as [_ _ _ Hr]. apply Hr. tauto.
Qed.

Arguments removeEventListener : simpl never.
Arguments close : simpl never.
Arguments send : simpl never.

Lemma snd_removeEventListener (args : list value) (w : world) :
  snd (removeEventListener args w)
  = with_sockets (update_at (instance (this w)) (receive (CallRemove args)))
      (with_this
         (fun o => set_eventListeners
                     (filter_eventListeners args (eventListeners o)) o) w).
Proof.
  unfold removeEventListener. unfold bind at 1. unfold modify at 1.
  unfold bind at 1. unfold gets at 1. apply snd_ws_call.
Qed.

Lemma snd_close (w : world) :
  snd (close w) = with_sockets (update_at (instance (this w)) (receive CallClose)) w.
Proof. unfold close. unfold bind at 1. unfold gets at 1. apply snd_ws_call. Qed.

Lemma snd_send (args : list value) (w : world) :
  snd (send args w)
  = with_sockets (update_at (instance (this w)) (receive (CallSend args))) w.
Proof. unfold send. unfold bind at 1. unfold gets at 1. apply snd_ws_call. Qed.

(** Every event of the loop keeps the invariant. *)
Lemma step_Inv (ev : event) (w w' : world) :
  app_ok ev -> Inv w -> step ev w = Some w' -> Inv w'.
Proof.
  intros Hok HI. unfold step.
  destruct ev as [s|s|s|id|id|args|args| |args]; cbn [run_event option_map].
  - destruct (nth_error (sockets w) s) as [t|] eqn:Hs; [|discriminate].
    destruct (readyState t) eqn:Hr; try discriminate.
    simpl. intros H. injection H as <-.
    apply (Inv_moved s OPEN t); [exact HI|exact Hs|rewrite Hr; reflexivity].
  - destruct (nth_error (sockets w) s) as [t|] eqn:Hs; [|discriminate].
    destruct (readyState t) eqn:Hr; try discriminate;
      simpl; intros H; injection H as <-;
      (apply (Inv_moved s CLOSING t); [exact HI|exact Hs|rewrite Hr; reflexivity]).
  - destruct (nth_error (sockets w) s) as [t|] eqn:Hs; [|discriminate].
    destruct (readyState t) eqn:Hr; try discriminate;
      simpl; intros H; injection H as <-;
      (apply Inv_socket_closed; [exact HI|exact Hs|rewrite Hr; reflexivity]).
  - destruct (has_timer Interval id w) eqn:Ht; [|discriminate].
    simpl. intros H. injection H as <-.
    apply (Inv_reconnect_tick id); assumption.
  - destruct (has_timer Timeout id w); [|discriminate].
    simpl. intros H. injection H as <-.
    apply Inv_budget_expired. apply Inv_timers_filter. exact HI.
  - intros H. injection H as <-. simpl in Hok.
    rewrite snd_addEventListener.
    apply Inv_receive; [|exact Hok|left; exact Hok].
    apply Inv_record; [exact HI|left; exact Hok].
  - intros H. injection H as <-. simpl in Hok.
    rewrite snd_removeEventListener.
    apply Inv_receive; [|exact I|left; exact Hok].
    apply Inv_filter_recorded. exact HI.
  - intros H. injection H as <-. rewrite ?snd_close.
    apply Inv_receive; [exact HI|exact I|exact I].
  - intros H. injection H as <-. rewrite ?snd_send.
    apply Inv_receive; [exact HI|exact I|exact I].
Qed.

Lemma constructor_Inv (u : value) (c : option config) : Inv (constructor u c).
Proof.
  unfold constructor. unfold initWebSocketInstance.
  munfold_tick. simpl.
  split; simpl.
  - intros [|[|i]] t; simpl; intros Hi Ht; try discriminate.
    split; reflexivity.
  - intros t [].
  - intros t [<-|[]]. right. reflexivity.
  - intros e [<-|[]]. right. reflexivity.
Qed.

Lemma run_Inv (evs : list event) (w w' : world) :
  Forall app_ok evs -> Inv w -> run evs w = Some w' -> Inv w'.
Proof.
  intros Hevs. revert w. induction Hevs as [|ev evs Hev _ IH]; intros w HI; simpl.
  - intros H. injection H as <-. exact HI.
  - destruct (step ev w) as [w1|] eqn:E; [|discriminate].
    apply IH. apply (step_Inv ev w w1); assumption.
Qed.

Lemma reachable_Inv (w : world) : reachable w -> Inv w.
Proof.
  intros (u & c & evs & Hevs & Hrun).
  apply (run_Inv evs (constructor u c) w Hevs); [apply constructor_Inv|exact Hrun].
Qed.


(** ** What a successful tick replays *)

Lemma not_live_free (t : transport) :
  live_observer t = false -> is_closed (readyState t) = false ->
  observer_free (listeners t) = true.
Proof.
  unfold live_observer. intros H Hs. rewrite Hs in H.
  destruct (observer_free (listeners t)); [reflexivity|discriminate].
Qed.

Lemma free_not_live (t : transport) :
  observer_free (listeners t) = true -> live_observer t = false.
Proof. unfold live_observer. intros ->. reflexivity. Qed.

Lemma cycle_active_drop_fired (id : nat) (w : world) :
  cycle_active (with_timers (drop_fired id) w) = cycle_active w.
Proof.
  unfold cycle_active. simpl. induction (timers w) as [|t l IH]; simpl;
    [reflexivity|].
  destruct t as [i k d]. destruct k; unfold is_interval at 2; simpl.
  - rewrite Bool.andb_false_r. simpl. reflexivity.
  - destruct (Nat.eqb i id); simpl; exact IH.
Qed.

Lemma foreign_close_args : every_matches close_args close_args = true.
Proof. reflexivity. Qed.

Lemma filter_close_args_foreign (l : list subscription) :
  (forall e, In e l -> foreign e = true \/ e = close_args) ->
  forallb foreign (filter_eventListeners close_args l) = true.
Proof.
  intros H. apply forallb_forall. intros e He.
  unfold filter_eventListeners in He. apply filter_In in He.
  destruct He as [Hin Hkeep]. destruct (H e Hin) as [Hf| ->]; [exact Hf|].
  rewrite foreign_close_args in Hkeep. discriminate.
Qed.

Lemma observer_free_handlers (ls ls' : list listener) :
  handlers ls' = handlers ls -> observer_free ls' = observer_free ls.
Proof.
  intros H. destruct (observer_free ls) eqn:E.
  - apply handlers_nil_free. rewrite H. apply handlers_nil_free. exact E.
  - destruct (observer_free ls') eqn:E'; [|reflexivity].
    apply handlers_nil_free in E'. rewrite H in E'.
    apply handlers_nil_free in E'. congruence.
Qed.

Lemma observer_free_foreign_call (ls : list listener) (c : call) :
  foreign_call c -> observer_free (listeners_step ls c) = observer_free ls.
Proof.
  intros Hc. apply observer_free_handlers.
  destruct c as [args|args| |args]; simpl in *; try reflexivity.
  - destruct (listener_of_args args) as [x|] eqn:Hx; [|reflexivity].
    destruct (existsb (listener_eqb x) ls); [reflexivity|].
    unfold handlers. rewrite filter_app. simpl.
    rewrite (listener_of_foreign _ _ Hc Hx). apply app_nil_r.
  - destruct (listener_of_args args) as [x|] eqn:Hx; [|reflexivity].
    apply handlers_remove_foreign. exact (listener_of_foreign _ _ Hc Hx).
Qed.

Lemma listeners_socket_at_update (w : world) (i j : nat)
      (f : transport -> transport) :
  (forall t, listeners (f t) = listeners t) ->
  listeners (socket_at (with_sockets (update_at i f) w) j)
  = listeners (socket_at w j).
Proof.
  intros Hf. unfold socket_at. simpl. rewrite nth_update_at.
  destruct (Nat.eqb i j && Nat.ltb j (List.length (sockets w))); [apply Hf|reflexivity].
Qed.

Lemma observer_free_socket_at_receive (w : world) (i j : nat) (c : call) :
  foreign_call c ->
  observer_free (listeners (socket_at (with_sockets (update_at i (receive c)) w) j))
  = observer_free (listeners (socket_at w j)).
Proof.
  intros Hc. unfold socket_at. simpl. rewrite nth_update_at.
  destruct (Nat.eqb i j && Nat.ltb j (List.length (sockets w))); [|reflexivity].
  rewrite listeners_receive. apply observer_free_foreign_call. exact Hc.
Qed.

(** A tick that finds the transport open ends the retry cycle. *)
Lemma tick_open_ends_cycle (id : nat) (w : world) :
  Inv w -> has_timer Interval id w = true ->
  readyState (socket_at w (instance (this w))) = OPEN ->
  cycle_active (snd (reconnect_tick w)) = false.
Proof.
  intros HI Ht Hs.
  pose proof (Inv_handle_interval id w HI Ht) as Hh.
  assert (HI0 : Inv (with_console
                       (fun l => l ++ [(reconnectAttempts (this w) + 1)%float])
                       (with_this
                          (set_reconnectAttempts (reconnectAttempts (this w) + 1)) w))).
  { apply Inv_frame with (1 := HI); try reflexivity.
    destruct HI as [_ _ _ Hr]. exact Hr. }
  destruct (Inv_stopReconnecting _ HI0) as [HI1 Hc1].
  unfold stopReconnecting in HI1, Hc1.
  cbv beta iota delta [bind gets modify ret clearInterval] in HI1, Hc1.
  simpl in HI1, Hc1. rewrite Hh in HI1, Hc1. simpl in HI1, Hc1.
  unfold reconnect_tick. munfold_tick. unfold socket_at in Hs |- *. simpl.
  rewrite Hs. simpl. rewrite Hh. simpl.
  match goal with
  | |- context [attachPreviousEventListeners ?W] => assert (H2 : calm W)
  end.
  { split; [|exact Hc1]. apply Inv_frame with (1 := HI1); try reflexivity.
    destruct HI1 as [_ _ _ Hr]. exact Hr. }
  pose proof (calm_attachPreviousEventListeners _ H2) as H3.
  match goal with
  | |- context [attachPreviousEventListeners ?W] =>
      destruct (attachPreviousEventListeners W) as [[[]|e] w3]
  end; simpl in H3 |- *.
  - apply (calm_addEventListener close_args); [right; reflexivity|exact H3].
  - apply H3.
Qed.

Lemma budget_expired_falsy (w : world) :
  truthy_handle (reconnectInterval (this w)) = false ->
  snd (budget_expired w) = w.
Proof.
  intros H. unfold budget_expired. munfold_tick. rewrite H. reflexivity.
Qed.

(** Every event keeps [replay_clean], given the invariant. *)
Lemma step_replay_clean (ev : event) (w w' : world) :
  app_ok ev -> Inv w -> replay_clean w -> step ev w = Some w' -> replay_clean w'.
Proof.
  intros Hok HI HR. unfold step, replay_clean in *.
  destruct ev as [s|s|s|id|id|args|args| |args]; cbn [run_event option_map].
  - destruct (nth_error (sockets w) s) as [t|]; [|discriminate].
    destruct (readyState t); try discriminate.
    simpl. intros H. injection H as <-.
    rewrite listeners_socket_at_update by reflexivity. exact HR.
  - destruct (nth_error (sockets w) s) as [t|]; [|discriminate].
    destruct (readyState t); try discriminate;
      simpl; intros H; injection H as <-;
      rewrite listeners_socket_at_update by reflexivity; exact HR.
  - destruct (nth_error (sockets w) s) as [t|] eqn:Hs; [|discriminate].
    assert (Hgo :
      is_closed (readyState t) = false ->
      forall w1,
        snd (dispatch_close t
               (with_sockets (update_at s (set_readyState CLOSED)) w)) = w1 ->
        cycle_active w1 = true ->
        observer_free (listeners (socket_at w1 (instance (this w1)))) = true ->
        forallb foreign (eventListeners (this w1)) = true).
    { intros Hopen w1 <-.
      destruct (observer_free (listeners t)) eqn:Efree.
      - rewrite dispatch_close_free by exact Efree. simpl.
        rewrite listeners_socket_at_update by reflexivity. exact HR.
      - assert (Hlive : live_observer t = true).
        { unfold live_observer. rewrite Efree, Hopen. reflexivity. }
        assert (Hobs : handlers (listeners t) = [observer]).
        { destruct HI as [_ _ Hsh _].
          destruct (Hsh t (nth_error_In _ _ Hs)) as [H|H]; [|exact H].
          apply handlers_nil_free in H. congruence. }
        rewrite dispatch_close_observer by exact Hobs.
        destruct HI as [Hl _ _ _]. destruct (Hl s t Hs Hlive) as [_ Hinst].
        destruct (handleWebSocketCloseEvent_spec
                    (with_sockets (update_at s (set_readyState CLOSED)) w))
          as (w2 & E & Hthis & Hsock & _).
        rewrite E. simpl. intros _ Hfree. exfalso.
        unfold socket_at in Hfree. rewrite Hthis, Hsock in Hfree.
        simpl in Hfree. rewrite <- Hinst in Hfree.
        rewrite nth_update_at, Nat.eqb_refl in Hfree.
        assert (Hlt : (s <? List.length (sockets w))%nat = true).
        { apply Nat.ltb_lt. apply nth_error_Some. rewrite Hs. discriminate. }
        rewrite Hlt in Hfree. simpl in Hfree.
        rewrite (nth_error_nth _ _ no_transport Hs) in Hfree.
        change (listeners (set_readyState CLOSED t)) with (listeners t) in Hfree.
        congruence. }
    destruct (readyState t) eqn:Hr; try discriminate;
      simpl; intros H; injection H as H;
      (apply Hgo; [first [reflexivity|rewrite Hr; reflexivity]|exact H]).
  - destruct (has_timer Interval id w) eqn:Ht; [|discriminate].
    simpl. intros H. injection H as <-.
    pose proof (Inv_handle_interval id w HI Ht) as Hh.
    destruct (readyState (socket_at w (instance (this w)))) eqn:Hs.
    + unfold reconnect_tick. munfold_tick. simpl.
      unfold socket_at in Hs |- *. simpl. rewrite Hs. simpl. exact HR.
    + intros Hc. rewrite (tick_open_ends_cycle id w HI Ht Hs) in Hc. discriminate.
    + pose proof (tick_closed_world w id Ht Hh (or_intror Hs)) as E.
      unfold run_event in E. rewrite Ht in E. injection E as E. rewrite E.
      intros _ _. simpl. apply filter_close_args_foreign.
      destruct HI as [_ _ _ Hrec]. exact Hrec.
    + pose proof (tick_closed_world w id Ht Hh (or_introl Hs)) as E.
      unfold run_event in E. rewrite Ht in E. injection E as E. rewrite E.
      intros _ _. simpl. apply filter_close_args_foreign.
      destruct HI as [_ _ _ Hrec]. exact Hrec.
  - destruct (has_timer Timeout id w); [|discriminate].
    simpl. intros H. injection H as <-.
    set (w1 := with_timers (drop_fired id) w).
    assert (HI1 : Inv w1) by (apply Inv_timers_filter; exact HI).
    destruct (truthy_handle (reconnectInterval (this w1))) eqn:Eh.
    + destruct (Inv_budget_expired w1 HI1) as (_ & Hstop & _).
      destruct (Hstop Eh) as (Hc & _). intros Hc'. rewrite Hc in Hc'.
      discriminate.
    + rewrite (budget_expired_falsy w1 Eh). unfold w1.
      rewrite cycle_active_drop_fired. exact HR.
  - intros H. injection H as <-. simpl in Hok.
    rewrite snd_addEventListener. intros Hc Hfree.
    rewrite (observer_free_socket_at_receive
               (with_this (fun o => set_eventListeners (eventListeners o ++ [args]) o) w)
               _ _ (CallAdd args) Hok) in Hfree.
    change (forallb foreign (eventListeners (this w) ++ [args]) = true).
    rewrite forallb_app. apply andb_true_intro. split; [exact (HR Hc Hfree)|].
    simpl. rewrite Hok. reflexivity.
  - intros H. injection H as <-. simpl in Hok.
    rewrite snd_removeEventListener. intros Hc Hfree.
    rewrite (observer_free_socket_at_receive
               (with_this
                  (fun o => set_eventListeners
                              (filter_eventListeners args (eventListeners o)) o) w)
               _ _ (CallRemove args) Hok) in Hfree.
    simpl. apply forallb_forall. intros e He.
    unfold filter_eventListeners in He. apply filter_In in He.
    pose proof (HR Hc Hfree) as Hall.
    rewrite forallb_forall in Hall. apply Hall. tauto.
  - intros H. injection H as <-. rewrite ?snd_close. intros Hc Hfree.
    rewrite (observer_free_socket_at_receive w _ _ CallClose I) in Hfree.
    exact (HR Hc Hfree).
  - intros H. injection H as <-. rewrite ?snd_send. intros Hc Hfree.
    rewrite (observer_free_socket_at_receive w _ _ (CallSend args) I) in Hfree.
    exact (HR Hc Hfree).
Qed.

Lemma reachable_replay_clean (w : world) : reachable w -> replay_clean w.
Proof.
  intros (u & c & evs & Hevs & Hrun).
  assert (H : Inv (constructor u c) /\ replay_clean (constructor u c)).
  { split; [apply constructor_Inv|]. intros Hc. discriminate. }
  revert Hrun H. generalize (constructor u c).
  induction Hevs as [|ev evs Hev _ IH]; intros w0 Hrun [HI HR]; simpl in Hrun.
  - injection Hrun as <-. exact HR.
  - destruct (step ev w0) as [w1|] eqn:E; [|discriminate].
    apply (IH w1 Hrun). split.
    + apply (step_Inv ev w0 w1); assumption.
    + apply (step_replay_clean ev w0 w1); assumption.
Qed.


(** Retry cycles do not overlap: in every reachable world a running
    periodic timer is the one [reconnectInterval] holds, and every running
    periodic timer has that handle; a transport that can still call the
    close handler exists only while no cycle runs, and is the current one. *)
Theorem retry_cycles_do_not_overlap (w : world) (id : nat) :
  reachable w ->
  has_timer Interval id w = true ->
  reconnectInterval (this w) = HTimer id
  /\ (forall t, In t (timers w) -> is_interval t = true -> tm_id t = id)
  /\ (forall t, In t (sockets w) -> live_observer t = false).
Proof.
  intros Hreach Ht. pose proof (reachable_Inv w Hreach) as HI.
  pose proof (Inv_handle_interval id w HI Ht) as Hh.
  split; [exact Hh|]. split.
  - apply (Inv_intervals_held id w HI Hh).
  - intros t Hin.
    apply (Inv_no_live w t HI (has_timer_cycle_active id w Ht) Hin).
Qed.

(** ** After the manager gave up *)

Lemma budget_expired_frame (w : world) :
  sockets (snd (budget_expired w)) = sockets w
  /\ console (snd (budget_expired w)) = console w
  /\ instance (this (snd (budget_expired w))) = instance (this w)
  /\ (cycle_active w = false -> cycle_active (snd (budget_expired w)) = false).
Proof.
  unfold budget_expired, stopReconnecting. munfold_tick.
  destruct (reconnectInterval (this w)) as [| |id] eqn:Eh; simpl;
    rewrite ?Eh; simpl; repeat split; auto.
  apply existsb_filter_false.
Qed.

Lemma Quiet_update_socket (w : world) (i : nat) (f : transport -> transport) :
  Quiet w ->
  (forall t, nth_error (sockets w) i = Some t ->
             live_observer t = false -> live_observer (f t) = false) ->
  Quiet (with_sockets (update_at i f) w).
Proof.
  intros [Hc Hno] Hf. split; [exact Hc|]. simpl.
  intros t Ht. apply In_nth_error_update_at in Ht.
  destruct Ht as [Ht|(t0 & Ht0 & ->)]; [apply Hno; exact Ht|].
  apply Hf; [exact Ht0|]. apply Hno. apply (nth_error_In _ _ Ht0).
Qed.

Lemma Quiet_receive (w : world) (i : nat) (c : call) :
  Quiet w -> harmless c -> Quiet (with_sockets (update_at i (receive c)) w).
Proof.
  intros HQ Hc. apply Quiet_update_socket; [exact HQ|].
  intros t _ Ht. destruct (live_observer (receive c t)) eqn:E; [|reflexivity].
  rewrite (live_observer_receive c t Hc E) in Ht. discriminate.
Qed.

Lemma Quiet_moved (w : world) (s : nat) (st : ready_state) (t : transport) :
  Quiet w -> nth_error (sockets w) s = Some t ->
  is_closed (readyState t) = false ->
  Quiet (with_sockets (update_at s (set_readyState st)) w).
Proof.
  intros HQ Hs Hopen. apply Quiet_update_socket; [exact HQ|].
  intros t0 Ht0 Hno. rewrite Hs in Ht0. injection Ht0 as <-.
  apply free_not_live. apply (not_live_free t Hno Hopen).
Qed.

(** Once quiet, the manager stays quiet: no event starts a timer, opens a
    transport or logs an attempt. *)
Lemma step_Quiet (ev : event) (w w' : world) :
  app_ok ev -> Quiet w -> step ev w = Some w' ->
  Quiet w' /\ same_attempts w w'.
Proof.
  intros Hok HQ. unfold step, same_attempts.
  destruct ev as [s|s|s|id|id|args|args| |args]; cbn [run_event option_map].
  - destruct (nth_error (sockets w) s) as [t|] eqn:Hs; [|discriminate].
    destruct (readyState t) eqn:Hr; try discriminate.
    simpl. intros H. injection H as <-. simpl. rewrite update_at_length.
    split; [|auto].
    apply (Quiet_moved w s OPEN t); [exact HQ|exact Hs|rewrite Hr; reflexivity].
  - destruct (nth_error (sockets w) s) as [t|] eqn:Hs; [|discriminate].
    destruct (readyState t) eqn:Hr; try discriminate;
      simpl; intros H; injection H as <-; simpl; rewrite update_at_length;
      (split; [|auto]);
      (apply (Quiet_moved w s CLOSING t); [exact HQ|exact Hs|rewrite Hr; reflexivity]).
  - destruct (nth_error (sockets w) s) as [t|] eqn:Hs; [|discriminate].
    assert (Hno : live_observer t = false).
    { destruct HQ as [_ Hno]. apply Hno. apply (nth_error_In _ _ Hs). }
    destruct (readyState t) eqn:Hr; try discriminate;
      rewrite dispatch_close_free
        by (apply not_live_free; [exact Hno|rewrite Hr; reflexivity]);
      simpl; intros H; injection H as <-; simpl; rewrite update_at_length;
      (split; [|auto]);
      (apply (Quiet_moved w s CLOSED t); [exact HQ|exact Hs|rewrite Hr; reflexivity]).
  - destruct (has_timer Interval id w) eqn:Ht; [|discriminate].
    apply has_timer_cycle_active in Ht. destruct HQ as [Hc _]. congruence.
  - destruct (has_timer Timeout id w); [|discriminate].
    simpl. intros H. injection H as <-.
    destruct (budget_expired_frame (with_timers (drop_fired id) w)) as (Es & Ec & Ei & Ha).
    destruct HQ as [Hc Hno].
    rewrite Es, Ec, Ei. simpl. split; [|auto]. split.
    + apply Ha. rewrite cycle_active_drop_fired. exact Hc.
    + rewrite Es. exact Hno.
  - intros H. injection H as <-. simpl in Hok.
    rewrite snd_addEventListener. simpl. rewrite update_at_length.
    split; [|auto].
    apply (Quiet_receive
             (with_this (fun o => set_eventListeners (eventListeners o ++ [args]) o) w));
      [exact HQ|exact Hok].
  - intros H. injection H as <-.
    rewrite snd_removeEventListener. simpl. rewrite update_at_length.
    split; [|auto].
    apply (Quiet_receive
             (with_this
                (fun o => set_eventListeners
                            (filter_eventListeners args (eventListeners o)) o) w));
      [exact HQ|exact I].
  - intros H. injection H as <-. rewrite ?snd_close. simpl.
    rewrite update_at_length. split; [|auto].
    apply Quiet_receive; [exact HQ|exact I].
  - intros H. injection H as <-. rewrite ?snd_send. simpl.
    rewrite update_at_length. split; [|auto].
    apply Quiet_receive; [exact HQ|exact I].
Qed.

Lemma run_Quiet (evs : list event) (w w' : world) :
  Forall app_ok evs -> Quiet w -> run evs w = Some w' ->
  Quiet w' /\ same_attempts w w'.
Proof.
  intros Hevs. revert w. induction Hevs as [|ev evs Hev _ IH]; intros w HQ; simpl.
  - intros H. injection H as <-. split; [exact HQ|]. repeat split.
  - destruct (step ev w) as [w1|] eqn:E; [|discriminate].
    intros Hrun. destruct (step_Quiet ev w w1 Hev HQ E) as [HQ1 (E1 & E2 & E3)].
    destruct (IH w1 HQ1 Hrun) as [HQ' (E1' & E2' & E3')].
    split; [exact HQ'|]. unfold same_attempts. rewrite E1', E2', E3'. auto.
Qed.

(** C6: when the budget timer fires while the periodic timer of a retry
    cycle runs, the periodic timer is stopped and the attempt counter is
    zero; whatever happens afterwards, no periodic timer runs again, no
    tick can fire, no transport is opened and no attempt is logged. *)
Theorem budget_expiry_is_final (w w' : world) (id : nat) :
  reachable w ->
  cycle_active w = true ->
  step (TimeoutFired id) w = Some w' ->
  (cycle_active w' = false
   /\ reconnectInterval (this w') = HNull
   /\ reconnectAttempts (this w') = 0%float)
  /\ forall (evs : list event) (w'' : world),
       Forall app_ok evs -> run evs w' = Some w'' ->
       cycle_active w'' = false
       /\ (forall id', step (IntervalFired id') w'' = None)
       /\ List.length (sockets w'') = List.length (sockets w')
       /\ instance (this w'') = instance (this w')
       /\ console w'' = console w'.
Proof.
  intros Hreach Hc Hstep. pose proof (reachable_Inv w Hreach) as HI.
  unfold step in Hstep. cbn [run_event option_map] in Hstep.
  destruct (has_timer Timeout id w); [|discriminate].
  simpl in Hstep. injection Hstep as <-.
  set (w1 := with_timers (drop_fired id) w).
  assert (HI1 : Inv w1) by (apply Inv_timers_filter; exact HI).
  assert (Hc1 : cycle_active w1 = true)
    by (unfold w1; rewrite cycle_active_drop_fired; exact Hc).
  assert (Htruthy : truthy_handle (reconnectInterval (this w1)) = true).
  { destruct (truthy_handle (reconnectInterval (this w1))) eqn:E; [reflexivity|].
    rewrite (Inv_falsy_handle w1 HI1 E) in Hc1. discriminate. }
  destruct (Inv_budget_expired w1 HI1) as (_ & Hstop & Es & _ & _ & _).
  destruct (Hstop Htruthy) as (Hc' & Hh' & Ha').
  split; [auto|].
  assert (HQ : Quiet (snd (budget_expired w1))).
  { split; [exact Hc'|]. rewrite Es. simpl.
    intros t Ht. apply (Inv_no_live w t HI Hc Ht). }
  intros evs w'' Hevs Hrun.
  destruct (run_Quiet evs _ w'' Hevs HQ Hrun) as [[Hc'' _] (E1 & E2 & E3)].
  repeat split; try assumption.
  intros id'. unfold step. cbn [run_event option_map].
  destruct (has_timer Interval id' w'') eqn:E; [|reflexivity].
  apply has_timer_cycle_active in E. congruence.
Qed.


(** ** Properties every event keeps *)

Ltac preserves_tac :=
  repeat match goal with
         | |- preserves _ (bind _ _) => apply preserves_bind; [|intro]
         | |- preserves _ (gets _) => apply preserves_gets
         | |- preserves _ (ret _) => apply preserves_ret
         | |- preserves _ (modify _) => apply preserves_modify
         | |- preserves _ (ws_call _ _) => apply preserves_ws_call
         | |- preserves _ (if _ then _ else _) => apply preserves_if
         end.

Section Closed.

Variable P : world -> Prop.
Hypothesis HP : closed_under_manager P.

Lemma closed_addEventListener (args : list value) :
  preserves P (addEventListener args).
Proof.
  unfold addEventListener. preserves_tac.
  - apply (cl_recorded P HP (fun l => l ++ [args])).
  - intros w. apply (cl_sockets P HP).
Qed.

Lemma closed_removeEventListener (args : list value) :
  preserves P (removeEventListener args).
Proof.
  unfold removeEventListener. preserves_tac.
  - apply (cl_recorded P HP (filter_eventListeners args)).
  - intros w. apply (cl_sockets P HP).
Qed.

Lemma closed_stopReconnecting : preserves P stopReconnecting.
Proof.
  unfold stopReconnecting. preserves_tac.
  - unfold clearInterval. destruct a; preserves_tac.
    intros w. apply (cl_timers P HP).
  - intros w. apply (cl_handle P HP).
Qed.

Lemma closed_resetReconnectAttempts : preserves P resetReconnectAttempts.
Proof. unfold resetReconnectAttempts. preserves_tac. apply (cl_attempts P HP). Qed.

Lemma closed_attachPreviousEventListeners :
  preserves P attachPreviousEventListeners.
Proof.
  unfold attachPreviousEventListeners. preserves_tac.
  apply preserves_forEach. intros e _. preserves_tac.
  intros w. apply (cl_sockets P HP).
Qed.

Lemma snd_initWebSocketInstance (w : world) :
  snd (initWebSocketInstance w)
  = if truthy_handle (reconnectInterval (this w))
    then reopened w
    else snd (addCloseEventListener (reopened w)).
Proof.
  unfold initWebSocketInstance. munfold_tick. simpl.
  destruct (truthy_handle (reconnectInterval (this w))); reflexivity.
Qed.

Lemma closed_initWebSocketInstance : preserves P initWebSocketInstance.
Proof.
  intros w Hw. rewrite snd_initWebSocketInstance.
  destruct (truthy_handle (reconnectInterval (this w))).
  - apply (cl_reopened P HP). exact Hw.
  - apply closed_addEventListener. apply (cl_reopened P HP). exact Hw.
Qed.

Lemma closed_reconnect_tick : preserves P reconnect_tick.
Proof.
  unfold reconnect_tick. preserves_tac.
  - apply (cl_attempts P HP).
  - unfold console_warn. preserves_tac. apply (cl_console P HP).
  - match goal with
    | |- preserves _ (match ?x with CONNECTING => _ | _ => _ end) => destruct x
    end; preserves_tac.
    + apply closed_stopReconnecting.
    + apply closed_resetReconnectAttempts.
    + apply closed_attachPreviousEventListeners.
    + apply closed_addEventListener.
    + apply closed_removeEventListener.
    + apply closed_initWebSocketInstance.
    + apply closed_removeEventListener.
    + apply closed_initWebSocketInstance.
Qed.

Lemma closed_budget_expired : preserves P budget_expired.
Proof.
  unfold budget_expired. preserves_tac.
  - apply closed_stopReconnecting.
  - apply closed_resetReconnectAttempts.
Qed.

Lemma closed_dispatch_close (t : transport) : preserves P (dispatch_close t).
Proof.
  unfold dispatch_close. apply preserves_forEach. intros l _.
  preserves_tac. intros w. apply (cl_close_event P HP).
Qed.

(** Every event keeps a property that the elementary updates keep. *)
Lemma step_closed (ev : event) (w w' : world) :
  P w -> step ev w = Some w' -> P w'.
Proof.
  intros Hw. unfold step.
  destruct ev as [s|s|s|id|id|args|args| |args]; cbn [run_event option_map].
  - destruct (nth_error (sockets w) s) as [t|]; [|discriminate].
    destruct (readyState t); try discriminate.
    simpl. intros H. injection H as <-. apply (cl_sockets P HP). exact Hw.
  - destruct (nth_error (sockets w) s) as [t|]; [|discriminate].
    destruct (readyState t); try discriminate;
      simpl; intros H; injection H as <-; apply (cl_sockets P HP); exact Hw.
  - destruct (nth_error (sockets w) s) as [t|]; [|discriminate].
    destruct (readyState t); try discriminate;
      simpl; intros H; injection H as <-;
      apply closed_dispatch_close; apply (cl_sockets P HP); exact Hw.
  - destruct (has_timer Interval id w); [|discriminate].
    simpl. intros H. injection H as <-. apply closed_reconnect_tick. exact Hw.
  - destruct (has_timer Timeout id w); [|discriminate].
    simpl. intros H. injection H as <-.
    apply closed_budget_expired. apply (cl_timers P HP). exact Hw.
  - intros H. injection H as <-. apply closed_addEventListener. exact Hw.
  - intros H. injection H as <-. apply closed_removeEventListener. exact Hw.
  - intros H. injection H as <-. rewrite ?snd_close.
    apply (cl_sockets P HP). exact Hw.
  - intros H. injection H as <-. rewrite ?snd_send.
    apply (cl_sockets P HP). exact Hw.
Qed.

Lemma run_closed (evs : list event) (w w' : world) :
  P w -> run evs w = Some w' -> P w'.
Proof.
  revert w. induction evs as [|ev evs IH]; intros w Hw; simpl.
  - intros H. injection H as <-. exact Hw.
  - destruct (step ev w) as [w1|] eqn:E; [|discriminate].
    apply IH. apply (step_closed ev w w1); assumption.
Qed.

End Closed.

(** ** Properties the manager's own steps keep

    The same, for properties that depend on which subscription, call or
    timer a step touches: each hypothesis names one elementary update as
    the class makes it. *)

Lemma snd_stopReconnecting (w : world) :
  snd (stopReconnecting w)
  = with_this (set_reconnectInterval HNull)
      match reconnectInterval (this w) with
      | HTimer id => with_timers (drop_timer id) w
      | _ => w
      end.
Proof.
  unfold stopReconnecting. munfold_tick.
  destruct (reconnectInterval (this w)); reflexivity.
Qed.

Section Careful.

Variable P : world -> Prop.
Variable fired_ok : nat -> Prop.

Hypothesis P_attempts :
  forall x w, P w -> P (with_this (set_reconnectAttempts x) w).
Hypothesis P_console : forall f w, P w -> P (with_console f w).
Hypothesis P_record_observer :
  forall w, P w ->
    P (with_this (fun o => set_eventListeners (eventListeners o ++ [close_args]) o) w).
Hypothesis P_forget_observer :
  forall w, P w ->
    P (with_this
         (fun o => set_eventListeners
                     (filter_eventListeners close_args (eventListeners o)) o) w).
Hypothesis P_handle_null :
  forall w, P w -> P (with_this (set_reconnectInterval HNull) w).
Hypothesis P_add :
  forall i args w, P w -> P (with_sockets (update_at i (receive (CallAdd args))) w).
Hypothesis P_remove_observer :
  forall i w, P w ->
    P (with_sockets (update_at i (receive (CallRemove close_args))) w).
Hypothesis P_moved :
  forall i s w, P w -> P (with_sockets (update_at i (set_readyState s)) w).
Hypothesis P_clear :
  forall id w, reconnectInterval (this w) = HTimer id -> P w ->
    P (with_timers (drop_timer id) w).
Hypothesis P_fired :
  forall id w, fired_ok id -> P w -> P (with_timers (drop_fired id) w).
Hypothesis P_reopened : forall w, P w -> P (reopened w).
Hypothesis P_close_event : forall w, P w -> P (snd (handleWebSocketCloseEvent w)).

(** The calls of the application. *)
Hypothesis P_record :
  forall args w, P w ->
    P (with_this (fun o => set_eventListeners (eventListeners o ++ [args]) o) w).
Hypothesis P_forget :
  forall args w, P w ->
    P (with_this
         (fun o => set_eventListeners
                     (filter_eventListeners args (eventListeners o)) o) w).
Hypothesis P_receive :
  forall i c w, P w -> P (with_sockets (update_at i (receive c)) w).

Lemma careful_addCloseEventListener : preserves P addCloseEventListener.
Proof.
  intros w Hw. unfold addCloseEventListener. rewrite snd_addEventListener.
  apply P_add. apply P_record_observer. exact Hw.
Qed.

Lemma careful_stopReconnecting : preserves P stopReconnecting.
Proof.
  intros w Hw. rewrite snd_stopReconnecting. apply P_handle_null.
  destruct (reconnectInterval (this w)) as [| |id] eqn:E; try exact Hw.
  apply P_clear; assumption.
Qed.

Lemma careful_resetReconnectAttempts : preserves P resetReconnectAttempts.
Proof. unfold resetReconnectAttempts. preserves_tac. apply P_attempts. Qed.

Lemma careful_attachPreviousEventListeners :
  preserves P attachPreviousEventListeners.
Proof.
  unfold attachPreviousEventListeners. preserves_tac.
  apply preserves_forEach. intros e _. preserves_tac.
  intros w. apply P_add.
Qed.

Lemma careful_initWebSocketInstance : preserves P initWebSocketInstance.
Proof.
  intros w Hw. rewrite snd_initWebSocketInstance.
  destruct (truthy_handle (reconnectInterval (this w))).
  - apply P_reopened. exact Hw.
  - apply careful_addCloseEventListener. apply P_reopened. exact Hw.
Qed.

(** What the tick does after it logged the attempt. *)
Lemma careful_tick_branch (state : ready_state) :
  preserves P
    match state with
    | CONNECTING => ret tt
    | OPEN =>
        stopReconnecting ;;
        resetReconnectAttempts ;;
        attachPreviousEventListeners ;;
        addCloseEventListener
    | _ => removeEventListener close_args ;; initWebSocketInstance
    end.
Proof.
  assert (Hremove : preserves P (removeEventListener close_args)).
  { intros w Hw. rewrite snd_removeEventListener.
    apply P_remove_observer. apply P_forget_observer. exact Hw. }
  destruct state; preserves_tac;
    first [ apply careful_stopReconnecting
          | apply careful_resetReconnectAttempts
          | apply careful_attachPreviousEventListeners
          | apply careful_addCloseEventListener
          | apply careful_initWebSocketInstance
          | exact Hremove ].
Qed.

Lemma careful_reconnect_tick : preserves P reconnect_tick.
Proof.
  unfold reconnect_tick. preserves_tac.
  - apply P_attempts.
  - unfold console_warn. preserves_tac. apply P_console.
  - apply careful_tick_branch.
Qed.

Lemma careful_budget_expired : preserves P budget_expired.
Proof.
  unfold budget_expired. preserves_tac.
  - apply careful_stopReconnecting.
  - apply careful_resetReconnectAttempts.
Qed.

Lemma careful_dispatch_close (t : transport) : preserves P (dispatch_close t).
Proof.
  unfold dispatch_close. apply preserves_forEach. intros l _.
  preserves_tac. exact P_close_event.
Qed.

(** The events that are no call of the application keep the property. *)
Lemma careful_step (ev : event) (w w' : world) :
  internal ev -> fires_only fired_ok ev ->
  P w -> step ev w = Some w' -> P w'.
Proof.
  intros Hint Hfire Hw. unfold step.
  destruct ev as [s|s|s|id|id|args|args| |args];
    cbn [run_event option_map]; try destruct Hint.
  - destruct (nth_error (sockets w) s) as [t|]; [|discriminate].
    destruct (readyState t); try discriminate.
    simpl. intros H. injection H as <-. apply P_moved. exact Hw.
  - destruct (nth_error (sockets w) s) as [t|]; [|discriminate].
    destruct (readyState t); try discriminate;
      simpl; intros H; injection H as <-; apply P_moved; exact Hw.
  - destruct (nth_error (sockets w) s) as [t|]; [|discriminate].
    destruct (readyState t); try discriminate;
      simpl; intros H; injection H as <-;
      apply careful_dispatch_close; apply P_moved; exact Hw.
  - destruct (has_timer Interval id w); [|discriminate].
    simpl. intros H. injection H as <-. apply careful_reconnect_tick. exact Hw.
  - destruct (has_timer Timeout id w); [|discriminate].
    simpl. intros H. injection H as <-.
    apply careful_budget_expired. apply P_fired; assumption.
Qed.

(** Every event keeps the property. *)
Lemma careful_step_all (ev : event) (w w' : world) :
  fires_only fired_ok ev -> P w -> step ev w = Some w' -> P w'.
Proof.
  intros Hfire Hw.
  destruct ev as [s|s|s|id|id|args|args| |args];
    try (apply careful_step; [exact I|exact Hfire|exact Hw]);
    unfold step; cbn [run_event option_map]; intros H; injection H as <-.
  - rewrite snd_addEventListener. apply P_receive. apply P_record. exact Hw.
  - rewrite snd_removeEventListener. apply P_receive. apply P_forget. exact Hw.
  - rewrite ?snd_close. apply P_receive. exact Hw.
  - rewrite ?snd_send. apply P_receive. exact Hw.
Qed.

Lemma careful_run (evs : list event) (w w' : world) :
  Forall (fires_only fired_ok) evs -> P w -> run evs w = Some w' -> P w'.
Proof.
  intros Hevs. revert w. induction Hevs as [|ev evs Hev _ IH]; intros w Hw; simpl.
  - intros H. injection H as <-. exact Hw.
  - destruct (step ev w) as [w1|] eqn:E; [|discriminate].
    apply IH. apply (careful_step_all ev w w1); assumption.
Qed.

End Careful.


(** ** The recorded subscriptions, on the manager *)

(** C3, as amended: [removeEventListener(...args)] removes from the
    recorded sequence every entry equal to the arguments field by field
    (each such entry, not only the first); every entry that differs from
    the arguments in one of the fields it has remains, in the original
    order and number; and the sequence is otherwise only shortened. *)
Theorem removeEventListener_removes_equal_keeps_different
        (args : list value) (w : world) :
  (forall e, tuples_equal args e = true ->
             ~ In e (eventListeners (this (snd (removeEventListener args w)))))
  /\ filter (differs_in_own_field args)
            (eventListeners (this (snd (removeEventListener args w))))
     = filter (differs_in_own_field args) (eventListeners (this w))
  /\ exists keep : subscription -> bool,
       eventListeners (this (snd (removeEventListener args w)))
       = filter keep (eventListeners (this w)).
Proof.
  rewrite snd_removeEventListener.
  change (eventListeners
            (this (with_sockets
                     (update_at (instance (this w)) (receive (CallRemove args)))
                     (with_this
                        (fun o => set_eventListeners
                                    (filter_eventListeners args (eventListeners o)) o)
                        w))))
    with (filter_eventListeners args (eventListeners (this w))).
  rewrite filter_eventListeners_differs. split; [|split].
  - intros e Heq Hin. apply filter_In in Hin. destruct Hin as [_ Hd].
    rewrite <- kept_differs, (tuples_equal_matches args e Heq) in Hd.
    discriminate.
  - apply filter_idem.
  - exists (differs_in_own_field args). reflexivity.
Qed.

(** C8 fails on the code: the subscription [("message", h)] is recorded,
    then [removeEventListener("message", h, true)] is called, a tuple that
    was never added.  No error is raised, but the recorded entry is gone,
    while the transport still lists the listener (its capture flag
    differs): the next reconnect will not replay it. *)
Theorem removeEventListener_removes_prefix :
  let w := snd (addEventListener [VStr "message"; VRef 1]
                  (constructor (VStr "wss://x/y") None)) in
  let r := removeEventListener [VStr "message"; VRef 1; VBool true] w in
  eventListeners (this w) = [close_args; [VStr "message"; VRef 1]]
  /\ fst r = Ok tt
  /\ eventListeners (this (snd r)) = [close_args]
  /\ listeners (socket_at (snd r) 0)
     = [observer;
        {| l_type := "message"; l_callback := VRef 1; l_capture := false |}].
Proof. repeat split. Qed.

(** ** Configuration *)

Lemma not_greater_than_zero (v : value) :
  (ToNumber v <=? 0)%float = true -> greater_than_zero v = false.
Proof.
  unfold greater_than_zero. rewrite leb_spec, ltb_spec.
  change (Prim2SF 0) with (S754_zero false).
  unfold SFleb, SFltb.
  destruct (Prim2SF (ToNumber v)) as [sg|sg| |sg m e]; try destruct sg; simpl;
    intros H; try reflexivity; discriminate.
Qed.

Lemma instance_valid_closed : closed_under_manager instance_valid.
Proof.
  unfold instance_valid. split; simpl; try (intros; assumption).
  - intros i f w H. rewrite update_at_length. exact H.
  - intros w _. rewrite length_app. simpl. lia.
  - intros w H.
    destruct (handleWebSocketCloseEvent_spec w) as (w' & E & Hthis & Hsock & _).
    rewrite E. simpl. rewrite Hthis, Hsock. exact H.
Qed.

(** The manager always holds a transport that exists. *)
Lemma constructor_instance_valid (u : value) (c : option config)
      (evs : list event) (w : world) :
  run evs (constructor u c) = Some w -> instance_valid w.
Proof.
  apply (run_closed instance_valid instance_valid_closed).
  unfold instance_valid. simpl. lia.
Qed.

Lemma budget_pending_app (l l' : list timer) :
  existsb is_timeout (l ++ l') = existsb is_timeout l || existsb is_timeout l'.
Proof. apply existsb_app. Qed.

Lemma budget_disabled_closed (v : value) :
  (ToNumber v <=? 0)%float = true -> closed_under_manager (budget_disabled v).
Proof.
  intros Hv. unfold budget_disabled, budget_pending.
  split; simpl; try (intros; assumption).
  - intros f w [H1 H2]. split; [exact H1|]. apply existsb_filter_false. exact H2.
  - intros w [H1 H2].
    destruct (handleWebSocketCloseEvent_spec w) as (w' & E & Hthis & _ & _ & Htim).
    rewrite E. simpl. rewrite Hthis, Htim. simpl. split; [exact H1|].
    rewrite H1, (not_greater_than_zero v Hv).
    rewrite budget_pending_app, H2. reflexivity.
Qed.

(** C7: with the configuration omitted the retry interval is 3000 ms and
    the budget 3,600,000 ms; with a budget whose parsed value is zero or
    negative, no budget timer is pending in any world the manager reaches,
    and the close handler still starts the periodic timer. *)
Theorem defaults_and_disabled_budget
        (u : value) (c : option config) (evs : list event) (w : world) :
  (ToNumber (stopReconnectingAfterMS (this (constructor u c))) <=? 0)%float = true ->
  run evs (constructor u c) = Some w ->
  (autoReconnectMS (this (constructor u None)) = VNum 3000%float
   /\ stopReconnectingAfterMS (this (constructor u None)) = VNum 3600000%float)
  /\ budget_pending w = false
  /\ timers (snd (handleWebSocketCloseEvent w))
     = timers w ++ [{| tm_id := next_timer w; tm_kind := Interval;
                       tm_delay := autoReconnectMS (this w) |}]
  /\ budget_pending (snd (handleWebSocketCloseEvent w)) = false
  /\ cycle_active (snd (handleWebSocketCloseEvent w)) = true.
Proof.
  intros Hv Hrun.
  set (v := stopReconnectingAfterMS (this (constructor u c))) in *.
  assert (Hw : budget_disabled v w).
  { apply (run_closed _ (budget_disabled_closed v Hv) evs (constructor u c) w);
      [|exact Hrun].
    split; reflexivity. }
  split; [split; reflexivity|].
  destruct Hw as [Hfield Hpending]. split; [exact Hpending|].
  destruct (handleWebSocketCloseEvent_spec w) as (w' & E & _ & _ & _ & Htim).
  rewrite E. simpl. unfold budget_pending, cycle_active. rewrite Htim.
  rewrite Hfield, (not_greater_than_zero v Hv).
  split; [reflexivity|]. split.
  - rewrite budget_pending_app. unfold budget_pending in Hpending.
    rewrite Hpending. reflexivity.
  - rewrite existsb_app. simpl. apply Bool.orb_true_r.
Qed.

Lemma period_is_closed (v : value) : closed_under_manager (period_is v).
Proof.
  unfold period_is. split; simpl; try (intros; assumption).
  - intros f w [H1 H2]. split; [exact H1|].
    intros t Ht. apply filter_In in Ht. apply H2. tauto.
  - intros w [H1 H2].
    destruct (handleWebSocketCloseEvent_spec w) as (w' & E & Hthis & _ & _ & Htim).
    rewrite E. simpl. rewrite Hthis, Htim. simpl. split; [exact H1|].
    intros t Ht Hk. apply in_app_or in Ht. destruct Ht as [Ht|[<-|Ht]].
    + apply H2; assumption.
    + exact H1.
    + destruct (greater_than_zero (stopReconnectingAfterMS (this w)));
        [destruct Ht as [<-|[]]; discriminate|destruct Ht].
Qed.

(** C9: the retry interval given to the constructor is stored as it is,
    without duration parsing, and is the period of every periodic timer the
    manager starts; a symbolic string such as "h" is no exception. *)
Theorem retry_interval_is_not_parsed
        (u v b : value) (evs : list event) (w : world) :
  v <> VUndefined ->
  run evs (constructor u (Some {| cfg_autoReconnectMS := v;
                                  cfg_stopReconnectingAfter := b |})) = Some w ->
  autoReconnectMS (this w) = v
  /\ (forall t, In t (timers w) -> is_interval t = true -> tm_delay t = v)
  /\ timers (snd (startReconnecting w))
     = timers w ++ [{| tm_id := next_timer w; tm_kind := Interval; tm_delay := v |}].
Proof.
  intros Hv Hrun.
  assert (Hw : period_is v w).
  { apply (run_closed _ (period_is_closed v) evs
                      (constructor u (Some {| cfg_autoReconnectMS := v;
                                              cfg_stopReconnectingAfter := b |}))
                      w); [|exact Hrun].
    split; [|intros t []]. simpl. destruct v; try reflexivity.
    exfalso. apply Hv. reflexivity. }
  destruct Hw as [H1 H2]. repeat split; try assumption.
  unfold startReconnecting. munfold. simpl. rewrite H1. reflexivity.
Qed.


(** ** An intentional close *)

Lemma nth_error_socket_at (w : world) (i : nat) (t : transport) :
  nth_error (sockets w) i = Some t -> socket_at w i = t.
Proof. intros H. unfold socket_at. apply nth_error_nth. exact H. Qed.

(** C10: [close()] only forwards the call to the current transport: the
    manager's fields and timers are untouched and the observer stays
    listed.  So when the application closes an open transport, the
    transport's close event starts a retry cycle, and the first tick opens
    a new transport to the same endpoint. *)
Theorem close_is_followed_by_reconnect (w : world) (t : transport) :
  nth_error (sockets w) (instance (this w)) = Some t ->
  readyState t = OPEN ->
  handlers (listeners t) = [observer] ->
  exists w1 w2 w3 : world,
    (run_event AppClose w = Some (Ok tt, w1)
     /\ this w1 = this w
     /\ timers w1 = timers w
     /\ sockets w1 = update_at (instance (this w)) (receive CallClose) (sockets w)
     /\ listeners (socket_at w1 (instance (this w))) = listeners t
     /\ readyState (socket_at w1 (instance (this w))) = CLOSING)
    /\ (step (SocketClosed (instance (this w))) w1 = Some w2
        /\ cycle_active w2 = true
        /\ reconnectInterval (this w2) = HTimer (next_timer w))
    /\ (step (IntervalFired (next_timer w)) w2 = Some w3
        /\ instance (this w3) = List.length (sockets w)
        /\ socket_at w3 (instance (this w3)) = fresh_transport (url (this w))
        /\ cycle_active w3 = true).
Proof.
  intros Hnth Hopen Hobs.
  assert (Hlt : instance (this w) < List.length (sockets w)).
  { apply nth_error_Some. rewrite Hnth. discriminate. }
  set (i := instance (this w)) in *.
  set (w1 := with_sockets (update_at i (receive CallClose)) w).
  assert (Hnth1 : nth_error (sockets w1) i = Some (receive CallClose t)).
  { unfold w1. simpl. rewrite nth_error_update_at, Nat.eqb_refl, Hnth. reflexivity. }
  assert (Hst1 : readyState (receive CallClose t) = CLOSING).
  { simpl. rewrite Hopen. reflexivity. }
  set (w1c := with_sockets (update_at i (set_readyState CLOSED)) w1).
  destruct (handleWebSocketCloseEvent_spec w1c) as (w2 & E2 & Hthis2 & Hsock2 & _ & Htim2).
  assert (Hstep2 : step (SocketClosed i) w1 = Some w2).
  { unfold step. cbn [run_event option_map]. rewrite Hnth1, Hst1.
    fold w1c.
    rewrite dispatch_close_observer by (rewrite listeners_receive; exact Hobs).
    rewrite E2. reflexivity. }
  assert (Hh2 : reconnectInterval (this w2) = HTimer (next_timer w)).
  { rewrite Hthis2. reflexivity. }
  assert (Htimer2 : has_timer Interval (next_timer w) w2 = true).
  { unfold has_timer. rewrite Htim2, existsb_app. simpl.
    rewrite Nat.eqb_refl. simpl. apply Bool.orb_true_r. }
  assert (Hinst2 : instance (this w2) = i).
  { rewrite Hthis2. reflexivity. }
  assert (Hclosed2 : readyState (socket_at w2 (instance (this w2))) = CLOSED).
  { rewrite Hinst2. unfold socket_at. rewrite Hsock2. unfold w1c, w1. simpl.
    rewrite nth_update_at, Nat.eqb_refl, update_at_length.
    apply Nat.ltb_lt in Hlt. rewrite Hlt. reflexivity. }
  pose proof (tick_closed_world w2 (next_timer w) Htimer2 Hh2 (or_introl Hclosed2))
    as E3.
  destruct (after_closed_tick_current w2) as (Hinst3 & Hnew3 & Htim3 & _).
  rewrite <- Hinst3 in Hnew3.
  exists w1, w2, (after_closed_tick w2). split; [|split].
  - split; [reflexivity|]. repeat split.
    + rewrite (nth_error_socket_at w1 i _ Hnth1). apply listeners_receive.
    + rewrite (nth_error_socket_at w1 i _ Hnth1). exact Hst1.
  - repeat split; [exact Hstep2| |exact Hh2].
    apply (has_timer_cycle_active _ _ Htimer2).
  - repeat split.
    + unfold step. rewrite E3. reflexivity.
    + rewrite Hinst3, Hsock2. unfold w1c, w1. simpl.
      rewrite !update_at_length. reflexivity.
    + rewrite Hnew3, Hthis2. reflexivity.
    + unfold cycle_active. rewrite Htim3.
      apply (has_timer_cycle_active _ _ Htimer2).
Qed.

(** ** Two retry cycles and one budget timer *)

(** C2 fails on the code: the budget timer of a cycle that ended in a
    successful reconnect is never cleared.  Here the first cycle (periodic
    timer 1, budget timer 2) succeeds after two ticks; later the new
    transport closes and a second cycle starts (periodic timer 3, budget
    timer 4) and makes two attempts; then budget timer 2 fires and stops
    periodic timer 3, although the second cycle's own budget timer 4 is
    still pending: no further tick can fire. *)
Theorem stale_budget_timer_stops_later_cycle :
  exists w1 w2 w3 : world,
    run [SocketOpened 0; SocketClosed 0; IntervalFired 1; SocketOpened 1;
         IntervalFired 1]
        (constructor (VStr "wss://x/y") (Some example_config)) = Some w1
    /\ (cycle_active w1 = false
        /\ reconnectInterval (this w1) = HNull
        /\ has_timer Timeout 2 w1 = true)
    /\ run [SocketClosed 1; IntervalFired 3; SocketClosed 2; IntervalFired 3] w1
       = Some w2
    /\ (has_timer Interval 3 w2 = true
        /\ reconnectInterval (this w2) = HTimer 3
        /\ reconnectAttempts (this w2) = 2%float
        /\ has_timer Timeout 4 w2 = true)
    /\ step (TimeoutFired 2) w2 = Some w3
    /\ (cycle_active w3 = false
        /\ step (IntervalFired 3) w3 = None
        /\ reconnectInterval (this w3) = HNull
        /\ reconnectAttempts (this w3) = 0%float
        /\ has_timer Timeout 4 w3 = true).
Proof.
  eexists. eexists. eexists.
  split; [vm_compute; reflexivity|].
  split; [repeat split|].
  split; [vm_compute; reflexivity|].
  split; [repeat split|].
  split; [vm_compute; reflexivity|].
  repeat split.
Qed.

(** ** What the manager never does on its own *)

Lemma app_calls_update_at (f : transport -> transport) (i : nat) (l : list transport) :
  (forall t, filter is_app_call (t_calls (f t)) = filter is_app_call (t_calls t)) ->
  flat_map (fun t => filter is_app_call (t_calls t)) (update_at i f l)
  = flat_map (fun t => filter is_app_call (t_calls t)) l.
Proof.
  intros Hf. revert i. induction l as [|t l IH]; intros [|i]; simpl;
    try reflexivity.
  - rewrite Hf. reflexivity.
  - rewrite IH. reflexivity.
Qed.

Lemma app_calls_receive (i : nat) (c : call) (w : world) :
  is_app_call c = false ->
  app_calls (with_sockets (update_at i (receive c)) w) = app_calls w.
Proof.
  intros Hc. unfold app_calls. simpl. apply app_calls_update_at.
  intros t. simpl. rewrite filter_app. simpl. rewrite Hc. apply app_nil_r.
Qed.

Lemma app_calls_moved (i : nat) (s : ready_state) (w : world) :
  app_calls (with_sockets (update_at i (set_readyState s)) w) = app_calls w.
Proof. unfold app_calls. simpl. apply app_calls_update_at. reflexivity. Qed.

Lemma app_calls_reopened (w : world) : app_calls (reopened w) = app_calls w.
Proof.
  unfold app_calls, reopened. simpl. rewrite flat_map_app. simpl.
  apply app_nil_r.
Qed.

Lemma app_calls_close_event (w : world) :
  app_calls (snd (handleWebSocketCloseEvent w)) = app_calls w.
Proof.
  destruct (handleWebSocketCloseEvent_spec w) as (w' & E & _ & Hsock & _).
  rewrite E. unfold app_calls. simpl. rewrite Hsock. reflexivity.
Qed.

(** No timer callback, no event of a transport and no registration of a
    listener makes the manager call [close] or [send] on any transport: a
    transport that is replaced is left as it is, and nothing the
    application sent is sent again. *)
Theorem manager_never_closes_or_sends (ev : event) (w w' : world) :
  no_app_call ev -> step ev w = Some w' -> app_calls w' = app_calls w.
Proof.
  intros Hev Hstep.
  destruct ev as [s|s|s|id|id|args|args| |args]; try destruct Hev;
    try (apply (careful_step (fun x => app_calls x = app_calls w) (fun _ => True))
           with (13 := I) (14 := I) (15 := eq_refl) (16 := Hstep);
         intros; try assumption;
         first [ rewrite app_calls_receive by reflexivity; assumption
               | rewrite app_calls_moved; assumption
               | rewrite app_calls_reopened; assumption
               | rewrite app_calls_close_event; assumption ]).
  - unfold step in Hstep. cbn [run_event option_map] in Hstep.
    injection Hstep as <-. rewrite snd_addEventListener.
    rewrite app_calls_receive by reflexivity. reflexivity.
  - unfold step in Hstep. cbn [run_event option_map] in Hstep.
    injection Hstep as <-. rewrite snd_removeEventListener.
    rewrite app_calls_receive by reflexivity. reflexivity.
Qed.

(** ** The registry across the manager's own steps *)

Lemma proper_not_observer (e : subscription) :
  proper e = true -> every_matches close_args e = false.
Proof.
  unfold proper, foreign, callback_of. intros H.
  apply andb_prop in H. destruct H as [Hf Hlen].
  destruct e as [|x [|y rest]]; try discriminate.
  unfold close_args. rewrite !every_matches_cons.
  rewrite strict_eq_handler. unfold arg_at in Hf. simpl in Hf.
  apply Bool.negb_true_iff in Hf. rewrite Hf.
  simpl. apply Bool.andb_false_r.
Qed.

Lemma filter_proper_forget_observer (l : list subscription) :
  filter proper (filter_eventListeners close_args l) = filter proper l.
Proof.
  unfold filter_eventListeners. induction l as [|e l IH]; simpl; [reflexivity|].
  destruct (proper e) eqn:Ep.
  - rewrite (proper_not_observer e Ep). simpl. rewrite Ep, IH. reflexivity.
  - destruct (every_matches close_args e); simpl; [exact IH|].
    rewrite Ep. exact IH.
Qed.

Lemma filter_proper_record_observer (l : list subscription) :
  filter proper (l ++ [close_args]) = filter proper l.
Proof. rewrite filter_app. simpl. apply app_nil_r. Qed.

Lemma registry_close_event (w : world) :
  eventListeners (this (snd (handleWebSocketCloseEvent w)))
  = eventListeners (this w).
Proof.
  destruct (handleWebSocketCloseEvent_spec w) as (w' & E & Hthis & _).
  rewrite E. simpl. rewrite Hthis. reflexivity.
Qed.

Lemma step_keeps_subscriptions (ev : event) (w w' : world) :
  no_registration ev -> step ev w = Some w' ->
  filter proper (eventListeners (this w'))
  = filter proper (eventListeners (this w)).
Proof.
  intros Hev Hstep.
  destruct ev as [s|s|s|id|id|args|args| |args]; try destruct Hev;
    try (apply (careful_step
                  (fun x => filter proper (eventListeners (this x))
                            = filter proper (eventListeners (this w)))
                  (fun _ => True))
           with (13 := I) (14 := I) (15 := eq_refl) (16 := Hstep);
         intros; try assumption; simpl;
         first [ rewrite filter_proper_record_observer; assumption
               | rewrite filter_proper_forget_observer; assumption
               | rewrite registry_close_event; assumption ]).
  - unfold step in Hstep. cbn [run_event option_map] in Hstep.
    injection Hstep as <-. rewrite ?snd_close. reflexivity.
  - unfold step in Hstep. cbn [run_event option_map] in Hstep.
    injection Hstep as <-. rewrite ?snd_send. reflexivity.
Qed.

(** Whatever happens besides the application's own [addEventListener] and
    [removeEventListener] calls (disconnects, retries, reconnects, giving
    up, [send], [close]), the application's recorded subscriptions with a
    kind and a handler stay recorded, in their order and number. *)
Theorem subscriptions_survive (evs : list event) (w w' : world) :
  Forall no_registration evs -> run evs w = Some w' ->
  filter proper (eventListeners (this w'))
  = filter proper (eventListeners (this w)).
Proof.
  intros Hevs. revert w. induction Hevs as [|ev evs Hev _ IH]; intros w; simpl.
  - intros H. injection H as <-. reflexivity.
  - destruct (step ev w) as [w1|] eqn:E; [|discriminate].
    intros Hrun. rewrite (IH w1 Hrun). apply (step_keeps_subscriptions ev w w1 Hev E).
Qed.

(** ** Endpoint and configuration *)

Lemma In_update_at_url (f : transport -> transport) (i : nat)
      (l : list transport) (u : value) :
  (forall t, t_url (f t) = t_url t) ->
  (forall t, In t l -> t_url t = u) ->
  forall t, In t (update_at i f l) -> t_url t = u.
Proof.
  intros Hf Hl t Ht. apply In_update_at in Ht.
  destruct Ht as [Ht|(t0 & Ht0 & ->)]; [apply Hl; exact Ht|].
  rewrite Hf. apply Hl. exact Ht0.
Qed.

Lemma configured_as_sockets (w0 w : world) (i : nat) (f : transport -> transport) :
  (forall t, t_url (f t) = t_url t) ->
  configured_as w0 w -> configured_as w0 (with_sockets (update_at i f) w).
Proof.
  intros Hf (H1 & H2 & H3 & H4). repeat split; try assumption.
  simpl. apply In_update_at_url; assumption.
Qed.

Lemma configured_as_close_event (w0 w : world) :
  configured_as w0 w -> configured_as w0 (snd (handleWebSocketCloseEvent w)).
Proof.
  intros (H1 & H2 & H3 & H4).
  destruct (handleWebSocketCloseEvent_spec w) as (w' & E & Hthis & Hsock & _).
  rewrite E. simpl. unfold configured_as. rewrite Hthis, Hsock. simpl.
  repeat split; assumption.
Qed.

Lemma configured_as_reopened (w0 w : world) :
  configured_as w0 w -> configured_as w0 (reopened w).
Proof.
  intros (H1 & H2 & H3 & H4). repeat split; try assumption.
  simpl. intros t Ht. apply in_app_or in Ht.
  destruct Ht as [Ht|[<-|[]]]; [apply H4; exact Ht|exact H1].
Qed.

Lemma Forall_fires_any (evs : list event) : Forall (fires_only (fun _ => True)) evs.
Proof.
  apply Forall_forall. intros ev _. destruct ev; exact I.
Qed.

(** The endpoint and the two configuration values are fixed by the
    constructor: no event changes them, every transport the manager ever
    opens goes to the constructor's url, and the current transport always
    exists. *)
Theorem endpoint_and_configuration_are_fixed
        (u : value) (c : option config) (evs : list event) (w : world) :
  run evs (constructor u c) = Some w ->
  url (this w) = u
  /\ autoReconnectMS (this w) = autoReconnectMS (this (constructor u c))
  /\ stopReconnectingAfterMS (this w)
     = stopReconnectingAfterMS (this (constructor u c))
  /\ (forall t, In t (sockets w) -> t_url t = u)
  /\ instance_valid w
  /\ t_url (socket_at w (instance (this w))) = u.
Proof.
  intros Hrun.
  assert (H0 : configured_as (constructor u c) (constructor u c)).
  { repeat split. simpl. intros t [<-|[]]. reflexivity. }
  assert (Hw : configured_as (constructor u c) w).
  { apply (careful_run (configured_as (constructor u c)) (fun _ => True))
      with (16 := Forall_fires_any evs) (17 := H0) (18 := Hrun);
      intros; try assumption;
      first [ apply configured_as_sockets; [reflexivity|assumption]
            | apply configured_as_reopened; assumption
            | apply configured_as_close_event; assumption
            | match goal with H : configured_as _ _ |- _ =>
                destruct H as (H1 & H2 & H3 & H4); repeat split; assumption
              end ]. }
  pose proof (constructor_instance_valid u c evs w Hrun) as Hvalid.
  destruct Hw as (H1 & H2 & H3 & H4).
  repeat split; try assumption.
  unfold socket_at. apply H4. apply nth_In. exact Hvalid.
Qed.

(** ** Budget timers are never cancelled *)

Lemma handles_fresh_frame (w w' : world) :
  timers w' = timers w -> next_timer w' = next_timer w ->
  reconnectInterval (this w') = reconnectInterval (this w) ->
  handles_fresh w -> handles_fresh w'.
Proof.
  unfold handles_fresh. intros -> -> ->. intros H. exact H.
Qed.

Lemma handles_fresh_filter (f : timer -> bool) (w : world) :
  handles_fresh w -> handles_fresh (with_timers (filter f) w).
Proof.
  intros [H1 H2]. split; simpl.
  - intros t Ht. apply filter_In in Ht. apply H1. tauto.
  - intros id Hid. destruct (H2 id Hid) as [Hlt Hne]. split; [exact Hlt|].
    intros t Ht. apply filter_In in Ht. apply Hne. tauto.
Qed.

Lemma handles_fresh_null (w : world) :
  handles_fresh w -> handles_fresh (with_this (set_reconnectInterval HNull) w).
Proof.
  intros [H1 H2]. split; simpl; [exact H1|]. intros id Hid. discriminate.
Qed.

Lemma handleWebSocketCloseEvent_next (w : world) :
  next_timer w < next_timer (snd (handleWebSocketCloseEvent w))
  /\ (greater_than_zero (stopReconnectingAfterMS (this w)) = true ->
      S (next_timer w) < next_timer (snd (handleWebSocketCloseEvent w))).
Proof.
  munfold. simpl.
  destruct (greater_than_zero (stopReconnectingAfterMS (this w))); simpl;
    split; try lia; intros H; try discriminate; lia.
Qed.

Lemma handles_fresh_close_event (w : world) :
  handles_fresh w -> handles_fresh (snd (handleWebSocketCloseEvent w)).
Proof.
  intros [H1 H2].
  destruct (handleWebSocketCloseEvent_next w) as [Hn Hn'].
  destruct (handleWebSocketCloseEvent_spec w) as (w' & E & Hthis & _ & _ & Htim).
  rewrite E in Hn, Hn' |- *. simpl in Hn, Hn' |- *.
  assert (Hold : forall t, In t (timers w') ->
                   (In t (timers w) /\ tm_id t < next_timer w)
                   \/ (tm_id t = next_timer w /\ is_timeout t = false)
                   \/ (tm_id t = S (next_timer w) /\ S (next_timer w) < next_timer w')).
  { intros t Ht. rewrite Htim in Ht. apply in_app_or in Ht.
    destruct Ht as [Ht|[<-|Ht]].
    - left. split; [exact Ht|apply H1; exact Ht].
    - right. left. split; reflexivity.
    - right. right.
      destruct (greater_than_zero (stopReconnectingAfterMS (this w)));
        [|destruct Ht].
      destruct Ht as [<-|[]]. split; [reflexivity|apply Hn'; reflexivity]. }
  split.
  - intros t Ht. destruct (Hold t Ht) as [[_ H]|[[H _]|[H H']]]; lia.
  - intros id Hid. rewrite Hthis in Hid. simpl in Hid. injection Hid as <-.
    split; [exact Hn|].
    intros t Ht Hk. destruct (Hold t Ht) as [[_ H]|[[_ H]|[H _]]];
      [lia|congruence|lia].
Qed.

(** In every world reached from the constructor the timer handles are
    fresh. *)
Lemma run_handles_fresh (u : value) (c : option config) (evs : list event)
      (w : world) :
  run evs (constructor u c) = Some w -> handles_fresh w.
Proof.
  intros Hrun.
  assert (H0 : handles_fresh (constructor u c)).
  { split; simpl; [intros t []|intros id H; discriminate]. }
  apply (careful_run handles_fresh (fun _ => True))
    with (16 := Forall_fires_any evs) (17 := H0) (18 := Hrun);
    intros; try assumption;
    first [ apply handles_fresh_null; assumption
          | apply handles_fresh_filter; assumption
          | apply handles_fresh_close_event; assumption
          | eapply handles_fresh_frame; [| | |eassumption]; reflexivity ].
Qed.

Lemma has_timer_kept (k : timer_kind) (id : nat) (f : timer -> bool) (w : world) :
  (forall t, In t (timers w) -> tm_id t = id -> tm_kind t = k -> f t = true) ->
  has_timer k id w = true -> has_timer k id (with_timers (filter f) w) = true.
Proof.
  intros Hf H. unfold has_timer in *. simpl.
  apply existsb_exists in H. destruct H as (t & Ht & H).
  apply existsb_exists. exists t. split; [|exact H].
  apply filter_In. split; [exact Ht|].
  apply andb_prop in H. destruct H as [Hid Hk].
  apply Nat.eqb_eq in Hid. apply Hf; [exact Ht|exact Hid|].
  destruct (tm_kind t), k; try discriminate; reflexivity.
Qed.

Lemma has_timer_frame (k : timer_kind) (id : nat) (w w' : world) :
  timers w' = timers w -> has_timer k id w = true -> has_timer k id w' = true.
Proof. unfold has_timer. intros ->. intros H. exact H. Qed.

Lemma has_timer_close_event (k : timer_kind) (id : nat) (w : world) :
  has_timer k id w = true ->
  has_timer k id (snd (handleWebSocketCloseEvent w)) = true.
Proof.
  destruct (handleWebSocketCloseEvent_spec w) as (w' & E & _ & _ & _ & Htim).
  rewrite E. simpl. unfold has_timer. rewrite Htim, existsb_app.
  intros ->. reflexivity.
Qed.

(** A budget timer, once started, stays pending until it fires: no other
    event cancels it, neither a successful reconnect nor a later
    disconnect nor another budget timer. *)
Theorem budget_timers_are_never_cancelled
        (u : value) (c : option config) (evs : list event)
        (w w' : world) (ev : event) (id : nat) :
  run evs (constructor u c) = Some w ->
  has_timer Timeout id w = true ->
  ev <> TimeoutFired id ->
  step ev w = Some w' ->
  has_timer Timeout id w' = true.
Proof.
  intros Hrun Hid Hev Hstep.
  pose proof (run_handles_fresh u c evs w Hrun) as Hfresh.
  assert (Hfire : fires_only (fun id' => id' <> id) ev).
  { destruct ev; simpl; try exact I. intros ->. apply Hev. reflexivity. }
  assert (HP : handles_fresh w /\ has_timer Timeout id w = true) by (split; assumption).
  apply (careful_step_all
           (fun x => handles_fresh x /\ has_timer Timeout id x = true)
           (fun id' => id' <> id))
    with (16 := Hfire) (17 := HP) (18 := Hstep);
    try (intros; match goal with H : _ /\ _ |- _ => destruct H as [Hf Ht] end;
         split;
         [ first [ apply handles_fresh_null; assumption
                 | apply handles_fresh_filter; assumption
                 | apply handles_fresh_close_event; assumption
                 | eapply handles_fresh_frame; [| | |eassumption]; reflexivity ]
         | first [ apply has_timer_close_event; assumption
                 | eapply has_timer_frame; [|eassumption]; reflexivity
                 | idtac ] ]).
  - (* clearInterval on the handle the manager holds *)
    apply has_timer_kept; [|exact Ht].
    intros t Hin Htid Hk. destruct Hf as [_ Hf].
    destruct (Hf id0 H) as [_ Hne].
    apply Bool.negb_true_iff. apply Nat.eqb_neq.
    apply Hne; [exact Hin|]. unfold is_timeout. rewrite Hk. reflexivity.
  - (* another budget timer fires *)
    apply has_timer_kept; [|exact Ht].
    intros t Hin Htid Hk. apply Bool.negb_true_iff.
    apply Bool.andb_false_iff. left. apply Nat.eqb_neq. congruence.
Qed.

(** ** A subscription the transport rejects *)

Lemma forallb_false_split {A : Type} (p : A -> bool) (l : list A) :
  forallb p l = false ->
  exists l1 a l2, l = l1 ++ a :: l2 /\ forallb p l1 = true /\ p a = false.
Proof.
  induction l as [|x l IH]; simpl; [discriminate|].
  destruct (p x) eqn:Hx; simpl.
  - intros H. destruct (IH H) as (l1 & a & l2 & -> & H1 & Ha).
    exists (x :: l1), a, l2. simpl. rewrite Hx. auto.
  - intros _. exists [], x, l. auto.
Qed.

(** The replay stops at the first entry the transport rejects: the entries
    before it are attached, the rejected one is handed over and raises, the
    rest are never tried. *)
Lemma forEach_rejected (l1 l2 : list subscription) (bad : subscription) (w : world) :
  forallb accepts_listener_args l1 = true ->
  accepts_listener_args bad = false ->
  forEach (l1 ++ bad :: l2)
          (fun eventListener =>
             i <- gets (fun w => instance (this w)) ;;
             ws_call i (CallAdd eventListener)) w
  = (Throw TypeError,
     with_sockets
       (update_at (instance (this w)) (log_calls (map CallAdd (l1 ++ [bad])))) w).
Proof.
  revert w. induction l1 as [|e l1 IH]; intros w H Hbad; simpl; simpl in H.
  - unfold bind at 1. unfold bind at 1. unfold gets at 1. unfold ws_call at 1.
    cbn [call_raises]. rewrite Hbad. reflexivity.
  - apply andb_prop in H. destruct H as [He Hl].
    unfold bind at 1. unfold bind at 1. unfold gets at 1. unfold ws_call at 1.
    cbn [call_raises]. rewrite He.
    rewrite IH by assumption.
    f_equal. apply world_eq; try reflexivity.
    simpl. rewrite update_at_compose. apply update_at_ext.
    intros t. rewrite receive_add.
    change (CallAdd e :: map CallAdd (l1 ++ [bad]))
      with ([CallAdd e] ++ map CallAdd (l1 ++ [bad])).
    rewrite log_calls_app. reflexivity.
Qed.

Lemma attachPreviousEventListeners_rejected
      (w : world) (l1 l2 : list subscription) (bad : subscription) :
  eventListeners (this w) = l1 ++ bad :: l2 ->
  forallb accepts_listener_args l1 = true ->
  accepts_listener_args bad = false ->
  attachPreviousEventListeners w
  = (Throw TypeError,
     with_sockets
       (update_at (instance (this w)) (log_calls (map CallAdd (l1 ++ [bad])))) w).
Proof.
  intros Hrec Hacc Hbad. unfold attachPreviousEventListeners.
  unfold bind at 1. unfold gets at 1. rewrite Hrec.
  apply forEach_rejected; assumption.
Qed.

(** What a tick does to an open transport when a recorded subscription is
    one the transport rejects. *)
Lemma tick_rejected_world (w : world) (id : nat)
      (l1 l2 : list subscription) (bad : subscription) :
  has_timer Interval id w = true ->
  reconnectInterval (this w) = HTimer id ->
  readyState (socket_at w (instance (this w))) = OPEN ->
  eventListeners (this w) = l1 ++ bad :: l2 ->
  forallb accepts_listener_args l1 = true ->
  accepts_listener_args bad = false ->
  exists w' : world,
    run_event (IntervalFired id) w = Some (Throw TypeError, w')
    /\ reconnectInterval (this w') = HNull
    /\ timers w' = drop_timer id (timers w)
    /\ reconnectAttempts (this w') = 0%float
    /\ instance (this w') = instance (this w)
    /\ eventListeners (this w') = eventListeners (this w)
    /\ sockets w'
       = update_at (instance (this w)) (log_calls (map CallAdd (l1 ++ [bad])))
                   (sockets w)
    /\ console w' = console w ++ [(reconnectAttempts (this w) + 1)%float].
Proof.
  intros Ht Hh Hs Hrec Hacc Hbad.
  unfold run_event. rewrite Ht. unfold reconnect_tick.
  munfold. unfold socket_at in Hs |- *. simpl. rewrite Hs. simpl.
  rewrite Hh. simpl.
  rewrite (attachPreviousEventListeners_rejected _ l1 l2 bad)
    by (try exact Hrec; assumption).
  simpl. eexists. split; [reflexivity|]. simpl. repeat split.
Qed.

(** A subscription the transport rejects (fewer than two arguments, or a
    handler that is no object) stays recorded, and the first tick that
    finds the new transport open raises on it: the periodic timer is
    already stopped and the counter reset, the entries after the rejected
    one are not attached, and neither is the disconnect observer.  From
    then on the manager never reconnects again. *)
Theorem rejected_subscription_ends_reconnecting (w : world) (id : nat) :
  reachable w ->
  has_timer Interval id w = true ->
  readyState (socket_at w (instance (this w))) = OPEN ->
  forallb accepts_listener_args (eventListeners (this w)) = false ->
  exists (l1 l2 : list subscription) (bad : subscription) (w' : world),
    (eventListeners (this w) = l1 ++ bad :: l2
     /\ forallb accepts_listener_args l1 = true
     /\ accepts_listener_args bad = false)
    /\ run_event (IntervalFired id) w = Some (Throw TypeError, w')
    /\ (reconnectInterval (this w') = HNull
        /\ cycle_active w' = false
        /\ reconnectAttempts (this w') = 0%float)
    /\ t_calls (socket_at w' (instance (this w')))
       = t_calls (socket_at w (instance (this w))) ++ map CallAdd (l1 ++ [bad])
    /\ eventListeners (this w') = eventListeners (this w)
    /\ observer_free (listeners (socket_at w' (instance (this w')))) = true
    /\ forall (evs : list event) (w'' : world),
         Forall app_ok evs -> run evs w' = Some w'' ->
         cycle_active w'' = false
         /\ (forall id', step (IntervalFired id') w'' = None)
         /\ List.length (sockets w'') = List.length (sockets w')
         /\ instance (this w'') = instance (this w').
Proof.
  intros Hreach Ht Hs Hrej.
  pose proof (reachable_Inv w Hreach) as HI.
  pose proof (has_timer_cycle_active id w Ht) as Hc.
  pose proof (Inv_handle_interval id w HI Ht) as Hh.
  assert (Hvalid : instance (this w) < List.length (sockets w)).
  { apply readyState_valid. rewrite Hs. discriminate. }
  assert (Hfree : observer_free (listeners (socket_at w (instance (this w)))) = true).
  { apply not_live_free; [|rewrite Hs; reflexivity].
    apply (Inv_no_live w _ HI Hc). unfold socket_at. apply nth_In. exact Hvalid. }
  pose proof (reachable_replay_clean w Hreach Hc Hfree) as Hforeign.
  destruct (forallb_false_split _ _ Hrej) as (l1 & bad & l2 & Hrec & Hacc & Hbad).
  destruct (tick_rejected_world w id l1 l2 bad Ht Hh Hs Hrec Hacc Hbad)
    as (w' & E & Hh' & Htim & Ha & Hi & Hrec' & Hsock & _).
  assert (Hc' : cycle_active w' = false).
  { unfold cycle_active. rewrite Htim. apply no_interval_after_drop.
    apply Inv_intervals_held; assumption. }
  assert (Hfor : forallb foreign (l1 ++ [bad]) = true).
  { rewrite Hrec in Hforeign. rewrite forallb_app in Hforeign |- *.
    apply andb_prop in Hforeign. destruct Hforeign as [H1 H2].
    simpl in H2. apply andb_prop in H2. destruct H2 as [H2 _].
    rewrite H1. simpl. rewrite H2. reflexivity. }
  assert (Hnew : socket_at w' (instance (this w'))
                 = log_calls (map CallAdd (l1 ++ [bad]))
                     (socket_at w (instance (this w)))).
  { unfold socket_at. rewrite Hi, Hsock, nth_update_at, Nat.eqb_refl.
    apply Nat.ltb_lt in Hvalid. rewrite Hvalid. reflexivity. }
  assert (Hfree' : observer_free (listeners (socket_at w' (instance (this w')))) = true).
  { rewrite Hnew, listeners_log_calls. apply replay_foreign; assumption. }
  assert (HQ : Quiet w').
  { split; [exact Hc'|]. intros t Hin. rewrite Hsock in Hin.
    apply In_nth_error_update_at in Hin.
    destruct Hin as [Hin|(t0 & Ht0 & ->)].
    - apply (Inv_no_live w t HI Hc Hin).
    - apply free_not_live. rewrite listeners_log_calls.
      apply replay_foreign; [exact Hfor|].
      rewrite <- (nth_error_socket_at w _ t0 Ht0). exact Hfree. }
  exists l1, l2, bad, w'.
  split; [auto|]. split; [exact E|]. split; [auto|].
  split; [rewrite Hnew; reflexivity|].
  split; [exact Hrec'|]. split; [exact Hfree'|].
  intros evs w'' Hevs Hrun.
  destruct (run_Quiet evs w' w'' Hevs HQ Hrun) as [[Hc'' _] (E1 & _ & E3)].
  repeat split; try assumption.
  intros id'. unfold step. cbn [run_event option_map].
  destruct (has_timer Interval id' w'') eqn:E'; [|reflexivity].
  apply has_timer_cycle_active in E'. congruence.
Qed.

(** ** The attempt counter and the console *)

Lemma reconnect_tick_branch (w : world) :
  snd (reconnect_tick w)
  = snd (match readyState (socket_at w (instance (this w))) with
         | CONNECTING => ret tt
         | OPEN =>
             stopReconnecting ;;
             resetReconnectAttempts ;;
             attachPreviousEventListeners ;;
             addCloseEventListener
         | _ => removeEventListener close_args ;; initWebSocketInstance
         end
           (with_console
              (fun l => l ++ [(reconnectAttempts (this w) + 1)%float])
              (with_this
                 (set_reconnectAttempts (reconnectAttempts (this w) + 1)%float) w))).
Proof. reflexivity. Qed.

Lemma console_close_event (w : world) :
  console (snd (handleWebSocketCloseEvent w)) = console w.
Proof.
  destruct (handleWebSocketCloseEvent_spec w) as (w' & E & _ & _ & Hc & _).
  rewrite E. exact Hc.
Qed.

(** Every tick writes one warning, the number of the attempt, whatever
    state it finds the transport in and whether or not it raises; no other
    event writes to the console. *)
Theorem every_tick_logs_one_attempt (ev : event) (w w' : world) :
  step ev w = Some w' -> console w' = console w ++ logged ev w.
Proof.
  unfold step.
  destruct ev as [s|s|s|id|id|args|args| |args];
    cbn [run_event option_map logged]; rewrite ?app_nil_r.
  - destruct (nth_error (sockets w) s) as [t|]; [|discriminate].
    destruct (readyState t); try discriminate.
    simpl. intros H. injection H as <-. reflexivity.
  - destruct (nth_error (sockets w) s) as [t|]; [|discriminate].
    destruct (readyState t); try discriminate;
      simpl; intros H; injection H as <-; reflexivity.
  - destruct (nth_error (sockets w) s) as [t|]; [|discriminate].
    destruct (readyState t); try discriminate;
      simpl; intros H; injection H as <-;
      apply (careful_dispatch_close (fun x => console x = console w));
      try reflexivity;
      intros x Hx; rewrite console_close_event; exact Hx.
  - destruct (has_timer Interval id w); [|discriminate].
    simpl. intros H. injection H as <-. rewrite reconnect_tick_branch.
    apply (careful_tick_branch
             (fun x => console x
                       = console w ++ [(reconnectAttempts (this w) + 1)%float]));
      try reflexivity; intros; assumption.
  - destruct (has_timer Timeout id w); [|discriminate].
    simpl. intros H. injection H as <-.
    apply (careful_budget_expired (fun x => console x = console w));
      try reflexivity; intros; assumption.
  - intros H. injection H as <-. rewrite snd_addEventListener. reflexivity.
  - intros H. injection H as <-. rewrite snd_removeEventListener. reflexivity.
  - intros H. injection H as <-. rewrite ?snd_close. reflexivity.
  - intros H. injection H as <-. rewrite ?snd_send. reflexivity.
Qed.

Lemma counter_at_rest_frame (w w' : world) :
  timers w' = timers w ->
  reconnectAttempts (this w') = reconnectAttempts (this w) ->
  counter_at_rest w -> counter_at_rest w'.
Proof.
  unfold counter_at_rest, cycle_active. intros -> ->. intros H. exact H.
Qed.

Lemma counter_at_rest_zero (w : world) :
  reconnectAttempts (this w) = 0%float -> counter_at_rest w.
Proof. intros H _. exact H. Qed.

Lemma counter_at_rest_cycle (w : world) :
  cycle_active w = true -> counter_at_rest w.
Proof. intros H H'. congruence. Qed.

Lemma counter_after_open_tick (w : world) :
  reconnectAttempts
    (this (snd ((stopReconnecting ;;
                 resetReconnectAttempts ;;
                 attachPreviousEventListeners ;;
                 addCloseEventListener) w))) = 0%float.
Proof.
  assert (Hrest : preserves (fun x => reconnectAttempts (this x) = 0%float)
                            (attachPreviousEventListeners ;; addCloseEventListener)).
  { preserves_tac.
    - apply careful_attachPreviousEventListeners. intros; assumption.
    - apply careful_addCloseEventListener; intros; assumption. }
  unfold stopReconnecting, resetReconnectAttempts.
  cbv beta iota delta [bind gets modify ret clearInterval].
  destruct (reconnectInterval (this w)); apply Hrest; reflexivity.
Qed.

Lemma closed_branch_timers (w : world) :
  timers (snd ((removeEventListener close_args ;; initWebSocketInstance) w))
  = timers w.
Proof.
  assert (H : preserves (fun x => timers x = timers w)
                        (removeEventListener close_args ;; initWebSocketInstance)).
  { preserves_tac.
    - intros x Hx. rewrite snd_removeEventListener. exact Hx.
    - apply careful_initWebSocketInstance; intros; assumption. }
  apply H. reflexivity.
Qed.

Lemma step_counter_at_rest (ev : event) (w w' : world) :
  counter_at_rest w -> step ev w = Some w' -> counter_at_rest w'.
Proof.
  intros Hw. unfold step.
  destruct ev as [s|s|s|id|id|args|args| |args]; cbn [run_event option_map].
  - destruct (nth_error (sockets w) s) as [t|]; [|discriminate].
    destruct (readyState t); try discriminate.
    simpl. intros H. injection H as <-. exact Hw.
  - destruct (nth_error (sockets w) s) as [t|]; [|discriminate].
    destruct (readyState t); try discriminate;
      simpl; intros H; injection H as <-; exact Hw.
  - destruct (nth_error (sockets w) s) as [t|]; [|discriminate].
    destruct (readyState t); try discriminate;
      simpl; intros H; injection H as <-;
      apply (careful_dispatch_close counter_at_rest); try exact Hw;
      intros x _; apply counter_at_rest_cycle;
      destruct (handleWebSocketCloseEvent_spec x) as (x' & E & _ & _ & _ & Htim);
      rewrite E; simpl; unfold cycle_active; rewrite Htim, existsb_app; simpl;
      apply Bool.orb_true_r.
  - destruct (has_timer Interval id w) eqn:Ht; [|discriminate].
    apply has_timer_cycle_active in Ht.
    simpl. intros H. injection H as <-. rewrite reconnect_tick_branch.
    destruct (readyState (socket_at w (instance (this w)))).
    + apply counter_at_rest_cycle. exact Ht.
    + apply counter_at_rest_zero. apply counter_after_open_tick.
    + apply counter_at_rest_cycle. unfold cycle_active.
      rewrite closed_branch_timers. exact Ht.
    + apply counter_at_rest_cycle. unfold cycle_active.
      rewrite closed_branch_timers. exact Ht.
  - destruct (has_timer Timeout id w); [|discriminate].
    simpl. intros H. injection H as <-.
    assert (H0 : counter_at_rest (with_timers (drop_fired id) w)).
    { intros Hc. rewrite cycle_active_drop_fired in Hc. apply Hw. exact Hc. }
    unfold budget_expired. cbv beta iota delta [bind gets ret].
    destruct (truthy_handle (reconnectInterval (this (with_timers (drop_fired id) w))));
      [|exact H0].
    apply counter_at_rest_zero.
    unfold stopReconnecting, resetReconnectAttempts.
    cbv beta iota delta [bind gets modify ret clearInterval].
    destruct (reconnectInterval (this (with_timers (drop_fired id) w))); reflexivity.
  - intros H. injection H as <-. rewrite snd_addEventListener. exact Hw.
  - intros H. injection H as <-. rewrite snd_removeEventListener. exact Hw.
  - intros H. injection H as <-. rewrite ?snd_close. exact Hw.
  - intros H. injection H as <-. rewrite ?snd_send. exact Hw.
Qed.

(** The attempt counter is zero whenever no retry cycle runs, in every
    world reached from the constructor: a tick that finds the transport
    open and the budget timer both reset it.  So the warnings of every
    retry cycle are numbered from one. *)
Theorem attempts_restart_with_each_cycle
        (u : value) (c : option config) (evs : list event) (w : world) :
  run evs (constructor u c) = Some w ->
  cycle_active w = false ->
  reconnectAttempts (this w) = 0%float
  /\ console (snd (reconnect_tick (snd (handleWebSocketCloseEvent w))))
     = console w ++ [1%float].
Proof.
  intros Hrun Hc.
  assert (H0 : counter_at_rest (constructor u c)).
  { apply counter_at_rest_zero.
    unfold constructor. rewrite snd_initWebSocketInstance. simpl.
    unfold reopened. simpl. rewrite ?snd_addEventListener. reflexivity. }
  assert (Hw : counter_at_rest w).
  { revert Hrun H0. generalize (constructor u c). clear Hc.
    induction evs as [|ev evs IH]; intros w0 Hrun H0; simpl in Hrun.
    - injection Hrun as <-. exact H0.
    - destruct (step ev w0) as [w1|] eqn:E; [|discriminate].
      apply (IH w1 Hrun). apply (step_counter_at_rest ev w0 w1 H0 E). }
  split; [apply Hw; exact Hc|].
  rewrite reconnect_tick_branch.
  destruct (handleWebSocketCloseEvent_spec w) as (w1 & E & Hthis & _ & Hcons & _).
  rewrite E. simpl snd.
  assert (Hone : (reconnectAttempts (this w1) + 1)%float = 1%float).
  { rewrite Hthis. simpl. rewrite (Hw Hc). reflexivity. }
  rewrite Hone.
  apply (careful_tick_branch (fun x => console x = console w ++ [1%float]));
    try (intros; assumption).
  simpl. rewrite Hcons. reflexivity.
Qed.

(** ** A budget that is no number *)

Lemma nan_not_greater_than_zero (v : value) :
  PrimFloat.is_nan (ToNumber v) = true -> greater_than_zero v = false.
Proof.
  unfold greater_than_zero, PrimFloat.is_nan. rewrite eqb_spec, ltb_spec.
  change (Prim2SF 0) with (S754_zero false).
  unfold SFeqb, SFltb.
  destruct (Prim2SF (ToNumber v)) as [sg|sg| |sg m e]; try destruct sg; simpl;
    intros H; try reflexivity; try discriminate.
  rewrite BinInt.Z.compare_refl in H.
  change (PosDef.Pos.compare_cont Eq m m) with (BinPos.Pos.compare m m) in H.
  rewrite BinPos.Pos.compare_refl in H. discriminate.
Qed.

Lemma budget_never_starts (v : value) :
  greater_than_zero v = false -> closed_under_manager (budget_disabled v).
Proof.
  intros Hv. unfold budget_disabled, budget_pending.
  split; simpl; try (intros; assumption).
  - intros f w [H1 H2]. split; [exact H1|]. apply existsb_filter_false. exact H2.
  - intros w [H1 H2].
    destruct (handleWebSocketCloseEvent_spec w) as (w' & E & Hthis & _ & _ & Htim).
    rewrite E. simpl. rewrite Hthis, Htim. simpl. split; [exact H1|].
    rewrite H1, Hv.
    rewrite budget_pending_app, H2. reflexivity.
Qed.

(** A budget that is neither a number nor one of the six symbols is kept
    as given; when its numeric value is NaN (an unrecognised word, an
    object) the comparison with zero fails: no budget timer is ever
    pending and none can fire, while the close handler still starts the
    periodic timer. *)
Theorem unparseable_budget_never_expires
        (u : value) (c : option config) (evs : list event) (w : world) :
  PrimFloat.is_nan
    (ToNumber (stopReconnectingAfterMS (this (constructor u c)))) = true ->
  run evs (constructor u c) = Some w ->
  budget_pending w = false
  /\ (forall id, step (TimeoutFired id) w = None)
  /\ budget_pending (snd (handleWebSocketCloseEvent w)) = false
  /\ cycle_active (snd (handleWebSocketCloseEvent w)) = true.
Proof.
  intros Hnan Hrun.
  set (v := stopReconnectingAfterMS (this (constructor u c))) in *.
  pose proof (nan_not_greater_than_zero v Hnan) as Hv.
  assert (Hw : budget_disabled v w).
  { apply (run_closed _ (budget_never_starts v Hv) evs (constructor u c) w);
      [|exact Hrun].
    split; reflexivity. }
  destruct Hw as [Hfield Hpending]. split; [exact Hpending|].
  split.
  { intros id. unfold step. cbn [run_event option_map].
    destruct (has_timer Timeout id w) eqn:E; [|reflexivity].
    exfalso. unfold has_timer in E. apply existsb_exists in E.
    destruct E as (t & Ht & E). apply andb_prop in E. destruct E as [_ Hk].
    assert (budget_pending w = true); [|congruence].
    apply existsb_exists. exists t. split; [exact Ht|exact Hk]. }
  destruct (handleWebSocketCloseEvent_spec w) as (w' & E & _ & _ & _ & Htim).
  rewrite E. simpl. unfold budget_pending, cycle_active. rewrite Htim.
  rewrite Hfield, Hv. split.
  - rewrite budget_pending_app. unfold budget_pending in Hpending.
    rewrite Hpending. reflexivity.
  - rewrite existsb_app. simpl. apply Bool.orb_true_r.
Qed.

(** ** Subscribing and unsubscribing *)

Lemma strict_eq_refl (v : value) : strict_eq v v = negb (is_nan_value v).
Proof.
  destruct v; simpl; try reflexivity.
  - apply Bool.eqb_reflx.
  - unfold PrimFloat.is_nan. rewrite Bool.negb_involutive. reflexivity.
  - apply String.eqb_refl.
  - apply Nat.eqb_refl.
Qed.

Lemma every_matches_refl (args : list value) :
  every_matches args args = nan_free args.
Proof.
  induction args as [|a args IH]; [reflexivity|].
  rewrite every_matches_cons, strict_eq_refl, IH. reflexivity.
Qed.

Lemma filter_eventListeners_none (args : list value) (l : list subscription) :
  (forall e, In e l -> every_matches args e = false) ->
  filter_eventListeners args l = l.
Proof.
  intros H. unfold filter_eventListeners.
  induction l as [|e l IH]; simpl; [reflexivity|].
  rewrite (H e (or_introl eq_refl)). simpl. f_equal.
  apply IH. intros e' He'. apply H. right. exact He'.
Qed.

Lemma listener_eqb_refl (args : list value) (x : listener) :
  listener_of_args args = Some x -> listener_eqb x x = true.
Proof.
  unfold listener_of_args.
  destruct ((2 <=? List.length args)%nat && is_object (arg_at args 1)) eqn:E;
    [|discriminate].
  apply andb_prop in E. destruct E as [_ Hobj].
  intros H. injection H as <-. unfold listener_eqb. simpl.
  rewrite String.eqb_refl, Bool.eqb_reflx, strict_eq_refl.
  destruct (arg_at args 1); try discriminate; reflexivity.
Qed.

Lemma filter_not_listed (x : listener) (ls : list listener) :
  existsb (listener_eqb x) ls = false ->
  filter (fun y => negb (listener_eqb x y)) ls = ls.
Proof.
  induction ls as [|y ls IH]; simpl; [reflexivity|].
  intros H. apply Bool.orb_false_iff in H. destruct H as [Hy Hls].
  rewrite Hy. simpl. f_equal. apply IH. exact Hls.
Qed.

Lemma add_then_remove_listeners (args : list value) (ls : list listener) :
  (forall x, listener_of_args args = Some x -> existsb (listener_eqb x) ls = false) ->
  listeners_step (listeners_step ls (CallAdd args)) (CallRemove args) = ls.
Proof.
  intros H. simpl. destruct (listener_of_args args) as [x|] eqn:Hx; [|reflexivity].
  rewrite (H x eq_refl), filter_app, (filter_not_listed x ls (H x eq_refl)).
  simpl. rewrite (listener_eqb_refl args x Hx). simpl. apply app_nil_r.
Qed.

(** Unsubscribing undoes subscribing: when no argument is NaN, no earlier
    entry matches the arguments and the transport did not list the handler
    before, [removeEventListener(...args)] after [addEventListener(...args)]
    leaves the recorded subscriptions and the transport's listener list as
    they were, and the manager's other fields and its timers untouched. *)
Theorem add_then_remove_round_trip (args : list value) (w : world) :
  nan_free args = true ->
  (forall e, In e (eventListeners (this w)) -> every_matches args e = false) ->
  (forall x, listener_of_args args = Some x ->
             existsb (listener_eqb x)
                     (listeners (socket_at w (instance (this w)))) = false) ->
  exists w1 w2 : world,
    step (AppAddEventListener args) w = Some w1
    /\ step (AppRemoveEventListener args) w1 = Some w2
    /\ this w2 = this w
    /\ timers w2 = timers w
    /\ List.length (sockets w2) = List.length (sockets w)
    /\ (forall i, listeners (socket_at w2 i) = listeners (socket_at w i))
    /\ forall i, readyState (socket_at w2 i) = readyState (socket_at w i).
Proof.
  intros Hnan Hnone Hnew. eexists. eexists.
  split; [reflexivity|]. split; [reflexivity|].
  rewrite snd_removeEventListener, snd_addEventListener. simpl.
  assert (Hrec : filter_eventListeners args (eventListeners (this w) ++ [args])
                 = eventListeners (this w)).
  { unfold filter_eventListeners. rewrite filter_app. simpl.
    rewrite every_matches_refl, Hnan. simpl. rewrite app_nil_r.
    apply filter_eventListeners_none. exact Hnone. }
  rewrite Hrec. split; [destruct (this w); reflexivity|].
  split; [reflexivity|]. rewrite !update_at_length. split; [reflexivity|].
  split; intros i; unfold socket_at; simpl;
    rewrite update_at_compose, nth_update_at;
    destruct (Nat.eqb (instance (this w)) i) eqn:Ei; simpl; try reflexivity;
    destruct (Nat.ltb i (List.length (sockets w))); try reflexivity.
  - apply Nat.eqb_eq in Ei. subst i.
    rewrite !listeners_receive. apply add_then_remove_listeners. exact Hnew.
Qed.

Lemma is_nan_Prim2SF (x : float) :
  PrimFloat.is_nan x = true -> Prim2SF x = S754_nan.
Proof.
  unfold PrimFloat.is_nan. rewrite eqb_spec. unfold SFeqb.
  destruct (Prim2SF x) as [sg|sg| |sg m e]; simpl; try reflexivity;
    intros H; exfalso.
  - discriminate.
  - destruct sg; discriminate.
  - destruct sg; simpl in H;
      rewrite BinInt.Z.compare_refl in H;
      change (PosDef.Pos.compare_cont Eq m m) with (BinPos.Pos.compare m m) in H;
      rewrite BinPos.Pos.compare_refl in H; discriminate.
Qed.

Lemma strict_eq_nan (v : value) (x : float) :
  PrimFloat.is_nan x = true -> strict_eq v (VNum x) = false.
Proof.
  intros Hx. destruct v as [| | |y| | |]; try reflexivity. simpl.
  rewrite eqb_spec, (is_nan_Prim2SF x Hx). unfold SFeqb.
  destruct (Prim2SF y) as [sg|sg| |sg m e]; reflexivity.
Qed.

Lemma every_from_nan (e : subscription) (args : list value) (i : nat) :
  nan_free e = false -> every_from i e args = false.
Proof.
  revert i. induction e as [|x e IH]; intros i H; simpl in *; [discriminate|].
  destruct (is_nan_value x) eqn:Hx; simpl in H.
  - destruct x; try discriminate. simpl in Hx.
    rewrite (strict_eq_nan _ _ Hx). reflexivity.
  - rewrite (IH (S i) H). apply Bool.andb_false_r.
Qed.

(** A subscription recorded with a NaN among its arguments can never be
    unsubscribed: [NaN === NaN] is false, so no call of
    [removeEventListener] matches the entry, and the manager's own steps
    keep it too. *)
Theorem subscription_with_nan_is_permanent
        (e : subscription) (evs : list event) (w w' : world) :
  nan_free e = false ->
  In e (eventListeners (this w)) ->
  run evs w = Some w' ->
  In e (eventListeners (this w')).
Proof.
  intros Hnan Hin Hrun.
  assert (Hkeep : forall args l, In e l -> In e (filter_eventListeners args l)).
  { intros args l Hl. unfold filter_eventListeners. apply filter_In.
    split; [exact Hl|]. unfold every_matches.
    rewrite (every_from_nan e args 0 Hnan). reflexivity. }
  apply (careful_run (fun x => In e (eventListeners (this x))) (fun _ => True))
    with (16 := Forall_fires_any evs) (17 := Hin) (18 := Hrun);
    intros; try assumption;
    first [ simpl; apply Hkeep; assumption
          | simpl; apply in_or_app; left; assumption
          | rewrite registry_close_event; assumption ].
Qed.

(** ** From a disconnect to a successful reconnect *)

Lemma forallb_filter {A : Type} (p f : A -> bool) (l : list A) :
  forallb p l = true -> forallb p (filter f l) = true.
Proof.
  intros H. apply forallb_forall. intros x Hx. apply filter_In in Hx.
  rewrite forallb_forall in H. apply H. tauto.
Qed.

(** The whole episode: the transport of a connected manager closes, the
    first tick opens a new transport, that transport opens, the second tick
    finds it open.  Afterwards the manager holds the new transport, which
    received every recorded subscription in the order of subscription and
    then the disconnect observer; the retry cycle is over and the counter
    is zero again. *)
Theorem reconnect_restores_subscriptions (w : world) (t : transport) :
  reachable w ->
  nth_error (sockets w) (instance (this w)) = Some t ->
  is_closed (readyState t) = false ->
  handlers (listeners t) = [observer] ->
  forallb accepts_listener_args (eventListeners (this w)) = true ->
  exists w' : world,
    run [SocketClosed (instance (this w));
         IntervalFired (next_timer w);
         SocketOpened (List.length (sockets w));
         IntervalFired (next_timer w)] w = Some w'
    /\ (instance (this w') = List.length (sockets w)
        /\ readyState (socket_at w' (instance (this w'))) = OPEN
        /\ t_url (socket_at w' (instance (this w'))) = url (this w))
    /\ t_calls (socket_at w' (instance (this w')))
       = map CallAdd (filter_eventListeners close_args (eventListeners (this w)))
           ++ [CallAdd close_args]
    /\ listeners (socket_at w' (instance (this w')))
       = listeners_of
           (map CallAdd (filter_eventListeners close_args (eventListeners (this w))))
           ++ [observer]
    /\ eventListeners (this w')
       = filter_eventListeners close_args (eventListeners (this w)) ++ [close_args]
    /\ (cycle_active w' = false
        /\ reconnectInterval (this w') = HNull
        /\ reconnectAttempts (this w') = 0%float).
Proof.
  intros Hreach Hnth Hopen Hobs Hacc.
  pose proof (reachable_Inv w Hreach) as HI.
  assert (Hlt : instance (this w) < List.length (sockets w)).
  { apply nth_error_Some. rewrite Hnth. discriminate. }
  assert (Hlive : live_observer t = true).
  { unfold live_observer. rewrite Hopen.
    destruct (observer_free (listeners t)) eqn:E; [|reflexivity].
    apply handlers_nil_free in E. rewrite E in Hobs. discriminate. }
  assert (Hcalm : cycle_active w = false).
  { destruct HI as [Hl _ _ _]. apply (Hl _ t Hnth Hlive). }
  set (i := instance (this w)) in *.
  set (n := next_timer w).
  set (k := List.length (sockets w)).
  (* the close event *)
  set (w1 := with_sockets (update_at i (set_readyState CLOSED)) w).
  destruct (handleWebSocketCloseEvent_spec w1)
    as (w2 & E2 & Hthis2 & Hsock2 & _ & Htim2).
  assert (Hstep1 : step (SocketClosed i) w = Some w2).
  { unfold step. cbn [run_event option_map]. rewrite Hnth. fold w1.
    rewrite (dispatch_close_observer t w1 Hobs), E2.
    destruct (readyState t); try reflexivity. discriminate. }
  assert (Hh2 : reconnectInterval (this w2) = HTimer n).
  { rewrite Hthis2. reflexivity. }
  assert (Htimer2 : has_timer Interval n w2 = true).
  { unfold has_timer. rewrite Htim2, existsb_app. simpl.
    unfold n. rewrite Nat.eqb_refl. simpl. apply Bool.orb_true_r. }
  assert (Hclosed2 : readyState (socket_at w2 (instance (this w2))) = CLOSED).
  { rewrite Hthis2. unfold socket_at. rewrite Hsock2. unfold w1. simpl.
    fold i. rewrite nth_update_at, Nat.eqb_refl.
    apply Nat.ltb_lt in Hlt. rewrite Hlt. reflexivity. }
  (* the first tick *)
  pose proof (tick_closed_world w2 n Htimer2 Hh2 (or_introl Hclosed2)) as E3.
  destruct (after_closed_tick_current w2) as (Hinst3 & Hnew3 & Htim3 & Hh3).
  set (w3 := after_closed_tick w2) in *.
  assert (Hk : List.length (sockets w2) = k).
  { rewrite Hsock2. unfold w1. simpl. apply update_at_length. }
  rewrite Hk in Hinst3, Hnew3.
  assert (Hlen3 : List.length (sockets w3) = S k).
  { unfold w3, after_closed_tick, reopened. simpl.
    rewrite length_app, update_at_length, Hk. simpl. lia. }
  assert (Hnth3 : nth_error (sockets w3) k = Some (fresh_transport (url (this w2)))).
  { rewrite <- Hnew3. unfold socket_at. apply nth_error_nth'. lia. }
  (* the new transport opens *)
  set (w4 := with_sockets (update_at k (set_readyState OPEN)) w3).
  assert (Hstep3 : step (SocketOpened k) w3 = Some w4).
  { unfold step. cbn [run_event option_map]. rewrite Hnth3. reflexivity. }
  assert (Hinst4 : instance (this w4) = k) by exact Hinst3.
  assert (Hsock4 : sockets w4 = update_at k (set_readyState OPEN) (sockets w3))
    by reflexivity.
  assert (Hcur4 : socket_at w4 (instance (this w4))
                  = set_readyState OPEN (fresh_transport (url (this w2)))).
  { unfold socket_at. rewrite Hinst4, Hsock4, nth_update_at, Nat.eqb_refl.
    assert (Hb : Nat.ltb k (List.length (sockets w3)) = true)
      by (apply Nat.ltb_lt; lia).
    rewrite Hb. change (nth k (sockets w3) no_transport) with (socket_at w3 k).
    rewrite Hnew3. reflexivity. }
  assert (Hrec4 : eventListeners (this w4)
                  = filter_eventListeners close_args (eventListeners (this w))).
  { change (eventListeners (this w4))
      with (filter_eventListeners close_args (eventListeners (this w2))).
    rewrite Hthis2. reflexivity. }
  assert (Htimer4 : has_timer Interval n w4 = true).
  { unfold has_timer. change (timers w4) with (timers w3).
    rewrite Htim3. exact Htimer2. }
  assert (Hh4 : reconnectInterval (this w4) = HTimer n).
  { change (reconnectInterval (this w4)) with (reconnectInterval (this w3)).
    rewrite Hh3. exact Hh2. }
  assert (Hopen4 : readyState (socket_at w4 (instance (this w4))) = OPEN).
  { rewrite Hcur4. reflexivity. }
  assert (Hacc4 : forallb accepts_listener_args (eventListeners (this w4)) = true).
  { rewrite Hrec4. apply forallb_filter. exact Hacc. }
  (* the second tick *)
  destruct (tick_open_world w4 n Htimer4 Hh4 Hopen4 Hacc4)
    as (w5 & E5 & (Hh5 & Htim5 & _) & Ha5 & Hi5 & Hsock5 & Hcalls5 & Hrec5 & Hls5).
  exists w5. split.
  { simpl. rewrite Hstep1. unfold step at 1. rewrite E3. simpl.
    fold w3. rewrite Hstep3. unfold step. rewrite E5. reflexivity. }
  assert (Hurl : url (this w2) = url (this w)).
  { rewrite Hthis2. reflexivity. }
  split.
  { split; [rewrite Hi5; exact Hinst4|]. split.
    - unfold socket_at. rewrite Hi5.
      rewrite Hsock5, nth_update_at, Nat.eqb_refl.
      fold (socket_at w4 (instance (this w4))).
      destruct (Nat.ltb (instance (this w4)) (List.length (sockets w4)));
        [rewrite Hcur4; reflexivity|exact Hopen4].
    - unfold socket_at. rewrite Hi5.
      rewrite Hsock5, nth_update_at, Nat.eqb_refl.
      fold (socket_at w4 (instance (this w4))).
      destruct (Nat.ltb (instance (this w4)) (List.length (sockets w4)));
        rewrite Hcur4; simpl; exact Hurl. }
  split.
  { rewrite Hcalls5, Hcur4, Hrec4. reflexivity. }
  split.
  { rewrite Hls5.
    - rewrite Hcur4, Hrec4. reflexivity.
    - rewrite Hcur4. reflexivity.
    - rewrite Hrec4. apply filter_close_args_foreign.
      destruct HI as [_ _ _ Hr]. exact Hr. }
  split; [rewrite Hrec5, Hrec4; reflexivity|].
  split; [|split; assumption].
  unfold cycle_active. rewrite Htim5. apply no_interval_after_drop.
  intros x Hx Hkx. change (timers w4) with (timers w3) in Hx.
  rewrite Htim3, Htim2 in Hx. apply in_app_or in Hx.
  destruct Hx as [Hx|[<-|Hx]].
  - exfalso. assert (cycle_active w = true); [|congruence].
    apply existsb_exists. exists x. split; assumption.
  - reflexivity.
  - destruct (greater_than_zero (stopReconnectingAfterMS (this w1)));
      [destruct Hx as [<-|[]]; discriminate|destruct Hx].
Qed.

(** ** A transport that is still connecting *)

Lemma tick_connecting_world (w : world) (id : nat) :
  has_timer Interval id w = true ->
  readyState (socket_at w (instance (this w))) = CONNECTING ->
  run_event (IntervalFired id) w = Some (Ok tt, after_idle_tick w).
Proof.
  intros Ht Hs. unfold run_event. rewrite Ht. unfold reconnect_tick.
  munfold. unfold socket_at in Hs |- *. simpl. rewrite Hs. reflexivity.
Qed.

(** A tick that finds the current transport still connecting only counts
    and warns.  So however many ticks fire while the transport stays in
    that state, the manager opens no other transport, attaches nothing and
    keeps its timers: it waits for this transport to open or to close. *)
Theorem connecting_transport_is_awaited (n : nat) (w : world) (id : nat) :
  has_timer Interval id w = true ->
  readyState (socket_at w (instance (this w))) = CONNECTING ->
  exists w' : world,
    run (repeat (IntervalFired id) n) w = Some w'
    /\ sockets w' = sockets w
    /\ timers w' = timers w
    /\ instance (this w') = instance (this w)
    /\ reconnectInterval (this w') = reconnectInterval (this w)
    /\ eventListeners (this w') = eventListeners (this w)
    /\ List.length (console w') = List.length (console w) + n.
Proof.
  revert w. induction n as [|n IH]; intros w Ht Hs.
  - exists w. simpl. repeat split. lia.
  - pose proof (tick_connecting_world w id Ht Hs) as E.
    destruct (IH (after_idle_tick w)) as (w' & Hrun & H1 & H2 & H3 & H4 & H5 & H6).
    + exact Ht.
    + exact Hs.
    + exists w'. simpl. unfold step at 1. rewrite E. simpl.
      split; [exact Hrun|]. rewrite H1, H2, H3, H4, H5, H6.
      repeat split. simpl. rewrite length_app. simpl. lia.
Qed.

(** ** The observer is never doubled *)

Lemma filter_filter_length {A : Type} (p q : A -> bool) (l : list A) :
  List.length (filter p (filter q l)) <= List.length (filter p l).
Proof.
  induction l as [|a l IH]; simpl; [lia|].
  destruct (q a) eqn:Hq, (p a) eqn:Hp; simpl; rewrite ?Hp; simpl; lia.
Qed.

Lemma observers_foreign (l : list subscription) :
  forallb foreign l = true -> filter (fun e => negb (foreign e)) l = [].
Proof.
  induction l as [|e l IH]; simpl; [reflexivity|].
  intros H. apply andb_prop in H. destruct H as [He Hl].
  rewrite He. simpl. apply IH. exact Hl.
Qed.

Lemma then_post {A B : Type} (P R : world -> Prop) (c : M A) (k : A -> M B) :
  preserves P c ->
  (forall w, P w -> R w) ->
  (forall a w, P w -> R (snd (k a w))) ->
  forall w, P w -> R (snd (bind c k w)).
Proof.
  intros Hc Hthrow Hk w Hw. unfold bind. specialize (Hc w Hw).
  destruct (c w) as [[a|e] w1]; simpl in *; [apply Hk|apply Hthrow]; exact Hc.
Qed.

Lemma observers_after_addClose (w : world) :
  forallb foreign (eventListeners (this w)) = true ->
  List.length (observers_recorded (snd (addCloseEventListener w))) <= 1.
Proof.
  intros H. unfold addCloseEventListener. rewrite snd_addEventListener.
  unfold observers_recorded.
  match goal with
  | |- context [filter ?f (eventListeners (this ?x))] =>
      change (eventListeners (this x)) with (eventListeners (this w) ++ [close_args])
  end.
  unfold subscription. rewrite filter_app, (observers_foreign _ H). simpl. lia.
Qed.

Lemma step_observers_recorded (ev : event) (w w' : world) :
  app_ok ev -> Inv w -> replay_clean w ->
  List.length (observers_recorded w) <= 1 ->
  step ev w = Some w' ->
  List.length (observers_recorded w') <= 1.
Proof.
  intros Hok HI HR Hw. unfold step.
  set (P0 := fun x : world => forallb foreign (eventListeners (this x)) = true).
  set (R := fun x : world => List.length (observers_recorded x) <= 1).
  assert (HPR : forall x, P0 x -> R x).
  { intros x Hx. unfold R, observers_recorded, subscription.
    rewrite (observers_foreign _ Hx). simpl. lia. }
  destruct ev as [s|s|s|id|id|args|args| |args]; cbn [run_event option_map].
  - destruct (nth_error (sockets w) s) as [t|]; [|discriminate].
    destruct (readyState t); try discriminate.
    simpl. intros H. injection H as <-. exact Hw.
  - destruct (nth_error (sockets w) s) as [t|]; [|discriminate].
    destruct (readyState t); try discriminate;
      simpl; intros H; injection H as <-; exact Hw.
  - destruct (nth_error (sockets w) s) as [t|]; [|discriminate].
    destruct (readyState t); try discriminate;
      simpl; intros H; injection H as <-;
      apply (careful_dispatch_close R); try exact Hw;
      intros x Hx; unfold R, observers_recorded;
      rewrite registry_close_event; exact Hx.
  - destruct (has_timer Interval id w) eqn:Ht; [|discriminate].
    simpl. intros H. injection H as <-. rewrite reconnect_tick_branch.
    pose proof (has_timer_cycle_active id w Ht) as Hc.
    pose proof (Inv_handle_interval id w HI Ht) as Hh.
    fold (after_idle_tick w).
    destruct (readyState (socket_at w (instance (this w)))) eqn:Hs.
    + exact Hw.
    + assert (H0 : P0 (after_idle_tick w)).
      { apply HR; [exact Hc|].
        apply not_live_free; [|rewrite Hs; reflexivity].
        apply (Inv_no_live w _ HI Hc). unfold socket_at. apply nth_In.
        apply readyState_valid. rewrite Hs. discriminate. }
      revert H0. generalize (after_idle_tick w).
      apply (then_post P0 R);
        [apply careful_stopReconnecting; intros; assumption|exact HPR|intros _].
      apply (then_post P0 R);
        [apply careful_resetReconnectAttempts; intros; assumption|exact HPR|intros _].
      apply (then_post P0 R);
        [apply careful_attachPreviousEventListeners; intros; assumption
        |exact HPR|intros _].
      intros x Hx. apply observers_after_addClose. exact Hx.
    + assert (H0 : P0 (snd (removeEventListener close_args (after_idle_tick w)))).
      { rewrite snd_removeEventListener. unfold P0. simpl.
        apply filter_close_args_foreign. destruct HI as [_ _ _ Hr]. exact Hr. }
      unfold bind.
      destruct (removeEventListener close_args (after_idle_tick w))
        as [[[]|e] x]; simpl in H0 |- *; [|apply HPR; exact H0].
      rewrite snd_initWebSocketInstance.
      destruct (truthy_handle (reconnectInterval (this x)));
        [apply HPR; exact H0|apply observers_after_addClose; exact H0].
    + assert (H0 : P0 (snd (removeEventListener close_args (after_idle_tick w)))).
      { rewrite snd_removeEventListener. unfold P0. simpl.
        apply filter_close_args_foreign. destruct HI as [_ _ _ Hr]. exact Hr. }
      unfold bind.
      destruct (removeEventListener close_args (after_idle_tick w))
        as [[[]|e] x]; simpl in H0 |- *; [|apply HPR; exact H0].
      rewrite snd_initWebSocketInstance.
      destruct (truthy_handle (reconnectInterval (this x)));
        [apply HPR; exact H0|apply observers_after_addClose; exact H0].
  - destruct (has_timer Timeout id w); [|discriminate].
    simpl. intros H. injection H as <-.
    apply (careful_budget_expired R); try exact Hw; intros; assumption.
  - intros H. injection H as <-. rewrite snd_addEventListener.
    unfold observers_recorded. simpl. rewrite filter_app. simpl.
    simpl in Hok. rewrite Hok. simpl. rewrite app_nil_r. exact Hw.
  - intros H. injection H as <-. rewrite snd_removeEventListener.
    unfold observers_recorded, filter_eventListeners. simpl.
    eapply Nat.le_trans; [apply filter_filter_length|exact Hw].
  - intros H. injection H as <-. rewrite ?snd_close. exact Hw.
  - intros H. injection H as <-. rewrite ?snd_send. exact Hw.
Qed.

(** However often the manager reconnects, its close handler is recorded at
    most once and listed at most once on every transport: the entry a tick
    removes when it replaces a transport is the one a later tick adds back,
    so the recorded subscriptions do not grow with the reconnects, and the
    close event of a transport calls the handler at most once. *)
Theorem observer_is_never_doubled (w : world) :
  reachable w ->
  (observers_recorded w = [] \/ observers_recorded w = [close_args])
  /\ forall t, In t (sockets w) ->
               handlers (listeners t) = [] \/ handlers (listeners t) = [observer].
Proof.
  intros Hreach. pose proof (reachable_Inv w Hreach) as HI.
  split; [|destruct HI as [_ _ Hs _]; exact Hs].
  assert (Hlen : List.length (observers_recorded w) <= 1).
  { destruct Hreach as (u & c & evs & Hevs & Hrun).
    assert (H : Inv (constructor u c) /\ replay_clean (constructor u c)
                /\ List.length (observers_recorded (constructor u c)) <= 1).
    { split; [apply constructor_Inv|]. split; [intros Hc; discriminate|].
      unfold constructor. rewrite snd_initWebSocketInstance. simpl. lia. }
    revert Hrun H. generalize (constructor u c).
    induction Hevs as [|ev evs Hev _ IH]; intros w0 Hrun (HI0 & HR0 & H0);
      simpl in Hrun.
    - injection Hrun as <-. exact H0.
    - destruct (step ev w0) as [w1|] eqn:E; [|discriminate].
      apply (IH w1 Hrun). split; [|split].
      + apply (step_Inv ev w0 w1); assumption.
      + apply (step_replay_clean ev w0 w1); assumption.
      + apply (step_observers_recorded ev w0 w1); assumption. }
  assert (Hall : forall e, In e (observers_recorded w) -> e = close_args).
  { intros e He. unfold observers_recorded in He. apply filter_In in He.
    destruct He as [Hin Hf]. destruct HI as [_ _ _ Hr].
    destruct (Hr e Hin) as [H| ->]; [|reflexivity].
    rewrite H in Hf. discriminate. }
  destruct (observers_recorded w) as [|e [|e' l]]; simpl in Hlen.
  - left. reflexivity.
  - right. rewrite (Hall e (or_introl eq_refl)). reflexivity.
  - lia.
Qed.

(** ** The budget timer's delay *)

Lemma budget_is_closed (v : value) : closed_under_manager (budget_is v).
Proof.
  unfold budget_is. split; simpl; try (intros; assumption).
  - intros f w [H1 H2]. split; [exact H1|].
    intros t Ht. apply filter_In in Ht. apply H2. tauto.
  - intros w [H1 H2].
    destruct (handleWebSocketCloseEvent_spec w) as (w' & E & Hthis & _ & _ & Htim).
    rewrite E. simpl. rewrite Hthis, Htim. simpl. split; [exact H1|].
    intros t Ht Hk. apply in_app_or in Ht. destruct Ht as [Ht|[<-|Ht]].
    + apply H2; assumption.
    + discriminate.
    + destruct (greater_than_zero (stopReconnectingAfterMS (this w))) eqn:Hg;
        [|destruct Ht].
      destruct Ht as [<-|[]]. simpl. rewrite <- H1. split; [reflexivity|exact Hg].
Qed.

(** The budget given to the constructor is parsed once; every budget timer
    the manager ever starts runs for the parsed value (3,600,000 ms when
    none is given), and one is started only when that value is greater
    than zero. *)
Theorem budget_timer_runs_for_parsed_budget
        (u a b : value) (evs : list event) (w : world) (t : timer) :
  run evs (constructor u (Some {| cfg_autoReconnectMS := a;
                                  cfg_stopReconnectingAfter := b |})) = Some w ->
  In t (timers w) -> is_timeout t = true ->
  tm_delay t = parseTimeToMS (or_default b (VNum hourInMS))
  /\ greater_than_zero (tm_delay t) = true.
Proof.
  intros Hrun Ht Hk.
  set (v := parseTimeToMS (or_default b (VNum hourInMS))).
  assert (Hw : budget_is v w).
  { apply (run_closed _ (budget_is_closed v) evs
             (constructor u (Some {| cfg_autoReconnectMS := a;
                                     cfg_stopReconnectingAfter := b |})) w);
      [|exact Hrun].
    split; [reflexivity|intros x []]. }
  destruct Hw as [_ H]. destruct (H t Ht Hk) as [H1 H2].
  rewrite H1. split; [reflexivity|exact H2].
Qed.

End Properties.

(** * The theorems at work on the example runs *)

Section Examples.

#[local] Existing Instance plain_host.



Lemma tick_on_closed_transport_witness :
  exists w' : world,
    run_event (IntervalFired 1) disconnected_world = Some (Ok tt, w')
    /\ instance (this w') = 1
    /\ socket_at w' 1 = fresh_transport (VStr "wss://x/y")
    /\ has_timer Interval 1 w' = true
    /\ eventListeners (this w') = [[VStr "message"; VRef 1]].
Proof.
  destruct (tick_on_closed_transport disconnected_world 1
              eq_refl eq_refl (or_introl eq_refl))
    as (w' & E & _ & _ & Hi & Hnew & _ & (_ & Ht & _) & Hrec).
  exists w'. rewrite Hi in Hnew. repeat split; assumption.
Defined.

Lemma budget_expiry_is_final_witness :
  cycle_active disconnected_world = true
  /\ step (TimeoutFired 2) disconnected_world = Some gave_up_world
  /\ cycle_active gave_up_world = false
  /\ reconnectAttempts (this gave_up_world) = 0%float
  /\ forall (evs : list event) (w'' : world),
       Forall app_ok evs -> run evs gave_up_world = Some w'' ->
       cycle_active w'' = false
       /\ (forall id', step (IntervalFired id') w'' = None)
       /\ List.length (sockets w'') = 1
       /\ instance (this w'') = 0
       /\ console w'' = [].
Proof.
  assert (Hreach : reachable disconnected_world).
  { exists (VStr "wss://x/y"), (Some example_config), example_disconnect.
    split; [repeat constructor|reflexivity]. }
  destruct (budget_expiry_is_final disconnected_world gave_up_world 2
              Hreach eq_refl eq_refl) as ((Hc & _ & Ha) & Hafter).
  repeat split; try assumption; apply (Hafter evs w'' H H0).
Defined.

Lemma retry_cycles_do_not_overlap_witness :
  reconnectInterval (this disconnected_world) = HTimer 1
  /\ (forall t, In t (timers disconnected_world) -> is_interval t = true ->
                tm_id t = 1)
  /\ (forall t, In t (sockets disconnected_world) -> live_observer t = false).
Proof.
  apply (retry_cycles_do_not_overlap disconnected_world 1).
  - exists (VStr "wss://x/y"), (Some example_config), example_disconnect.
    split; [repeat constructor|reflexivity].
  - reflexivity.
Defined.

Lemma defaults_and_disabled_budget_witness :
  budget_pending no_budget_world = false
  /\ cycle_active no_budget_world = true
  /\ budget_pending (snd (handleWebSocketCloseEvent no_budget_world)) = false.
Proof.
  destruct (defaults_and_disabled_budget
              (VStr "wss://x/y") (Some no_budget_config)
              [SocketOpened 0; SocketClosed 0] no_budget_world
              eq_refl eq_refl) as (_ & Hp & _ & Hp' & _).
  repeat split; assumption.
Defined.

Lemma retry_interval_is_not_parsed_witness :
  autoReconnectMS (this hourly_world) = VStr "h"
  /\ timers hourly_world
     = [{| tm_id := 1; tm_kind := Interval; tm_delay := VStr "h" |};
        {| tm_id := 2; tm_kind := Timeout; tm_delay := VNum 3600000%float |}]
  /\ forall t, In t (timers hourly_world) -> is_interval t = true ->
               tm_delay t = VStr "h".
Proof.
  assert (Hv : VStr "h" <> VUndefined) by discriminate.
  destruct (retry_interval_is_not_parsed
              (VStr "wss://x/y") (VStr "h") VUndefined
              [SocketClosed 0] hourly_world Hv eq_refl) as (H1 & H2 & _).
  repeat split; assumption.
Defined.

Lemma close_is_followed_by_reconnect_witness :
  exists w1 w2 w3 : world,
    run_event AppClose connected_world = Some (Ok tt, w1)
    /\ step (SocketClosed 0) w1 = Some w2
    /\ reconnectInterval (this w2) = HTimer 1
    /\ step (IntervalFired 1) w2 = Some w3
    /\ instance (this w3) = 1
    /\ socket_at w3 (instance (this w3)) = fresh_transport (VStr "wss://x/y").
Proof.
  destruct (close_is_followed_by_reconnect
              connected_world (socket_at connected_world 0)
              eq_refl eq_refl eq_refl)
    as (w1 & w2 & w3 & (E1 & _) & (E2 & _ & Hh) & (E3 & Hi & Hnew & _)).
  exists w1, w2, w3. repeat split; assumption.
Defined.

Lemma manager_never_closes_or_sends_witness :
  app_calls retrying_world = app_calls disconnected_world.
Proof.
  apply (manager_never_closes_or_sends (IntervalFired 1) disconnected_world
                                       retrying_world I eq_refl).
Defined.

Lemma subscriptions_survive_witness :
  filter proper (eventListeners (this reconnected_world))
  = filter proper (eventListeners (this disconnected_world)).
Proof.
  apply (subscriptions_survive
           [IntervalFired 1; SocketOpened 1; IntervalFired 1]
           disconnected_world reconnected_world).
  - repeat constructor.
  - reflexivity.
Defined.

Lemma endpoint_and_configuration_are_fixed_witness :
  url (this reconnected_world) = VStr "wss://x/y"
  /\ autoReconnectMS (this reconnected_world) = VNum 1000%float
  /\ stopReconnectingAfterMS (this reconnected_world) = VNum 60000%float
  /\ (forall t, In t (sockets reconnected_world) -> t_url t = VStr "wss://x/y")
  /\ instance_valid reconnected_world
  /\ t_url (socket_at reconnected_world (instance (this reconnected_world)))
     = VStr "wss://x/y".
Proof.
  assert (Hrun : run example_reconnect
                     (constructor (VStr "wss://x/y") (Some example_config))
                 = Some reconnected_world) by reflexivity.
  destruct (endpoint_and_configuration_are_fixed
              (VStr "wss://x/y") (Some example_config) example_reconnect
              reconnected_world Hrun) as (H1 & H2 & H3 & H4 & H5 & H6).
  repeat split; assumption.
Defined.

Lemma budget_timers_are_never_cancelled_witness :
  has_timer Timeout 2 reconnected_world = true
  /\ exists w' : world,
       step (SocketClosed 1) reconnected_world = Some w'
       /\ has_timer Timeout 2 w' = true.
Proof.
  assert (Hrun : run example_reconnect
                     (constructor (VStr "wss://x/y") (Some example_config))
                 = Some reconnected_world) by reflexivity.
  assert (Hpending : has_timer Timeout 2 reconnected_world = true) by reflexivity.
  split; [exact Hpending|]. eexists. split; [reflexivity|].
  apply (budget_timers_are_never_cancelled
           (VStr "wss://x/y") (Some example_config) example_reconnect
           reconnected_world _ (SocketClosed 1) 2 Hrun Hpending);
    [discriminate|reflexivity].
Defined.

Lemma rejected_subscription_ends_reconnecting_witness :
  exists w' : world,
    run_event (IntervalFired 1) rejected_world = Some (Throw TypeError, w')
    /\ cycle_active w' = false
    /\ observer_free (listeners (socket_at w' (instance (this w')))) = true
    /\ forall (evs : list event) (w'' : world),
         Forall app_ok evs -> run evs w' = Some w'' ->
         forall id', step (IntervalFired id') w'' = None.
Proof.
  assert (Hreach : reachable rejected_world).
  { exists (VStr "wss://x/y"), (Some example_config), example_rejected.
    split; [repeat constructor|reflexivity]. }
  destruct (rejected_subscription_ends_reconnecting rejected_world 1
              Hreach eq_refl eq_refl eq_refl)
    as (l1 & l2 & bad & w' & _ & E & (_ & Hc & _) & _ & _ & Hfree & Hafter).
  exists w'. repeat split; try assumption.
  intros evs w'' Hevs Hrun. apply (Hafter evs w'' Hevs Hrun).
Defined.

Lemma every_tick_logs_one_attempt_witness :
  console retrying_world = console disconnected_world ++ [1%float].
Proof.
  apply (every_tick_logs_one_attempt (IntervalFired 1) disconnected_world
                                     retrying_world eq_refl).
Defined.

Lemma attempts_restart_with_each_cycle_witness :
  reconnectAttempts (this reconnected_world) = 0%float
  /\ console (snd (reconnect_tick (snd (handleWebSocketCloseEvent reconnected_world))))
     = console reconnected_world ++ [1%float].
Proof.
  assert (Hrun : run example_reconnect
                     (constructor (VStr "wss://x/y") (Some example_config))
                 = Some reconnected_world) by reflexivity.
  assert (Hrest : cycle_active reconnected_world = false) by reflexivity.
  apply (attempts_restart_with_each_cycle
           (VStr "wss://x/y") (Some example_config) example_reconnect
           reconnected_world Hrun Hrest).
Defined.

Lemma unparseable_budget_never_expires_witness :
  stopReconnectingAfterMS (this weekly_world) = VStr "week"
  /\ cycle_active weekly_world = true
  /\ budget_pending weekly_world = false
  /\ forall id, step (TimeoutFired id) weekly_world = None.
Proof.
  assert (Hnan : PrimFloat.is_nan
                   (ToNumber
                      (stopReconnectingAfterMS
                         (this (constructor (VStr "wss://x/y")
                                            (Some weekly_config))))) = true)
    by reflexivity.
  assert (Hrun : run [SocketOpened 0; SocketClosed 0]
                     (constructor (VStr "wss://x/y") (Some weekly_config))
                 = Some weekly_world) by reflexivity.
  destruct (unparseable_budget_never_expires
              (VStr "wss://x/y") (Some weekly_config)
              [SocketOpened 0; SocketClosed 0] weekly_world
              Hnan Hrun) as (Hp & Hnone & _).
  repeat split; assumption.
Defined.

Lemma add_then_remove_round_trip_witness :
  exists w1 w2 : world,
    step (AppAddEventListener [VStr "message"; VRef 1]) connected_world = Some w1
    /\ step (AppRemoveEventListener [VStr "message"; VRef 1]) w1 = Some w2
    /\ this w2 = this connected_world
    /\ forall i, listeners (socket_at w2 i) = listeners (socket_at connected_world i).
Proof.
  destruct (add_then_remove_round_trip [VStr "message"; VRef 1] connected_world)
    as (w1 & w2 & E1 & E2 & Hthis & _ & _ & Hls & _).
  - reflexivity.
  - intros e [<-|[]]. reflexivity.
  - intros x Hx. injection Hx as <-. reflexivity.
  - exists w1, w2. repeat split; assumption.
Defined.

Lemma subscription_with_nan_is_permanent_witness :
  exists w' : world,
    run [AppRemoveEventListener nan_subscription; SocketOpened 0] nan_world
    = Some w'
    /\ In nan_subscription (eventListeners (this w')).
Proof.
  eexists. split; [reflexivity|].
  apply (subscription_with_nan_is_permanent
           nan_subscription
           [AppRemoveEventListener nan_subscription; SocketOpened 0]
           nan_world _ eq_refl).
  - right. left. reflexivity.
  - reflexivity.
Defined.

Lemma reconnect_restores_subscriptions_witness :
  exists w' : world,
    run [SocketClosed 0; IntervalFired 1; SocketOpened 1; IntervalFired 1]
        subscribed_world = Some w'
    /\ instance (this w') = 1
    /\ readyState (socket_at w' (instance (this w'))) = OPEN
    /\ listeners (socket_at w' (instance (this w')))
       = [{| l_type := "message"; l_callback := VRef 1; l_capture := false |};
          observer]
    /\ eventListeners (this w') = [[VStr "message"; VRef 1]; close_args]
    /\ cycle_active w' = false.
Proof.
  assert (Hreach : reachable subscribed_world).
  { exists (VStr "wss://x/y"), (Some example_config), example_subscribed.
    split; [repeat constructor|reflexivity]. }
  destruct (reconnect_restores_subscriptions
              subscribed_world (socket_at subscribed_world 0)
              Hreach eq_refl eq_refl eq_refl eq_refl)
    as (w' & Hrun & (Hi & Hs & _) & _ & Hls & Hrec & (Hc & _)).
  exists w'. repeat split; assumption.
Defined.

Lemma connecting_transport_is_awaited_witness :
  exists w' : world,
    run [IntervalFired 1; IntervalFired 1; IntervalFired 1] retrying_world
    = Some w'
    /\ sockets w' = sockets retrying_world
    /\ timers w' = timers retrying_world
    /\ List.length (console w') = 4.
Proof.
  destruct (connecting_transport_is_awaited 3 retrying_world 1 eq_refl eq_refl)
    as (w' & Hrun & Hs & Ht & _ & _ & _ & Hc).
  exists w'. repeat split; assumption.
Defined.

Lemma observer_is_never_doubled_witness :
  observers_recorded reconnected_world = [close_args]
  /\ forall t, In t (sockets reconnected_world) ->
               handlers (listeners t) = [] \/ handlers (listeners t) = [observer].
Proof.
  assert (Hreach : reachable reconnected_world).
  { exists (VStr "wss://x/y"), (Some example_config), example_reconnect.
    split; [repeat constructor|reflexivity]. }
  destruct (observer_is_never_doubled reconnected_world Hreach) as [_ Hs].
  split; [reflexivity|exact Hs].
Defined.

Lemma budget_timer_runs_for_parsed_budget_witness :
  exists t : timer,
    In t (timers hourly_world)
    /\ is_timeout t = true
    /\ tm_delay t = VNum 3600000%float
    /\ greater_than_zero (tm_delay t) = true.
Proof.
  exists {| tm_id := 2; tm_kind := Timeout; tm_delay := VNum 3600000%float |}.
  assert (Ht : In {| tm_id := 2; tm_kind := Timeout;
                     tm_delay := VNum 3600000%float |} (timers hourly_world))
    by (right; left; reflexivity).
  assert (Hk : is_timeout {| tm_id := 2; tm_kind := Timeout;
                             tm_delay := VNum 3600000%float |} = true)
    by reflexivity.
  split; [exact Ht|]. split; [exact Hk|].
  assert (Hrun : run [SocketClosed 0]
                     (constructor (VStr "wss://x/y") (Some hourly_config))
                 = Some hourly_world) by reflexivity.
  apply (budget_timer_runs_for_parsed_budget
           (VStr "wss://x/y") (VStr "h") VUndefined
           [SocketClosed 0] hourly_world _ Hrun Ht Hk).
Defined.

End Examples.
